(** * gts-kit: the entity registry and its cross-reference validation

    A shallow embedding of [JsonRegistry] (the registry class of the shared
    package): the seven entity maps, the default-file pointer, file
    invalidation, ingestion of in-memory files and the two-phase validation
    pass.

    JavaScript objects are mutable and shared: the entity object stored in
    [jsonSchemas] is the very object listed in [jsonFileSchemas], and
    validation writes its result into that object.  Entities therefore live
    in an object store ([heap]) and the maps hold references into it.
    A JavaScript [Map] iterates in insertion order, so it is modelled as an
    ordered association list ([JsMap]).

    The second part covers the rest of the class: the file-name filter, the
    public methods as calls with the invariants every call keeps, the
    results [validateEntity] leaves, and how ingestion composes.  The last
    part is the dirtiness of [SchemaNodeModel], the node model of the
    diagram. *)

From Stdlib Require Import String Ascii ZArith Lia FunctionalExtensionality.
From stdpp Require Import base tactics option list strings.

Local Set Warnings "-register-all,-clear-no-such-hyp".

(** ** JavaScript [Map]: insertion-ordered, keyed by strings *)

Module JsMap.
Abbreviation t V := (list (string * V)).

Section defs.
Context {V : Type}.

(** [Map.prototype.get] *)
Fixpoint get (k : string) (m : t V) : option V :=
  match m with
  | [] => None
  | (k', v) :: m' => if decide (k = k') then Some v else get k m'
  end.

(** [Map.prototype.has] *)
Definition has (k : string) (m : t V) : bool :=
  match get k m with Some _ => true | None => false end.

(** [Map.prototype.set]: an existing key keeps its position, a new key is
    appended. *)
Fixpoint set (k : string) (v : V) (m : t V) : t V :=
  match m with
  | [] => [(k, v)]
  | (k', v') :: m' =>
      if decide (k = k') then (k, v) :: m' else (k', v') :: set k v m'
  end.

(** [Map.prototype.delete] *)
Definition delete (k : string) (m : t V) : t V :=
  filter (λ kv, kv.1 ≠ k) m.

(** [Map.prototype.clear] *)
Definition clear (m : t V) : t V := [].

(** [Map.prototype.keys] and [Map.prototype.values], in iteration order *)
Definition keys (m : t V) : list string := m.*1.
Definition values (m : t V) : list V := m.*2.

(** [m.values().next().value] *)
Definition first_value (m : t V) : option V := head (values m).
End defs.
End JsMap.

(** ** Data model *)

(** Document contents ([any] in the source): parsed JSON / YAML values. *)
Inductive Json :=
| JNull
| JBool (b : bool)
| JNum (n : Z)
| JStr (s : string)
| JArr (xs : list Json)
| JObj (fields : list (string * Json)).

(** [ValidationError] and [ValidationResult] of the shared package. *)
Module ValidationError.
Record t := mk {
    instancePath : string;
    schemaPath : string;
    keyword : string;
    message : string;
    params : list (string * Json);
    data : option Json
  }.
End ValidationError.

Record ValidationResult := { errors : list ValidationError.t }.

(** Ajv's [ErrorObject]; [message] and [data] may be missing, [params] is
    always an object. *)
Module ErrorObject.
Record t := mk {
    instancePath : string;
    schemaPath : string;
    keyword : string;
    message : option string;
    params : list (string * Json);
    data : option Json
  }.
End ErrorObject.

(** [JsonFile]: one ingested document source. *)
Module JsonFile.
Record t := mk {
    path : string;
    name : string;
    content : Json;
    validation : option ValidationResult
  }.
End JsonFile.

(** An outgoing reference of an entity. *)
Module GtsRef.
Record t := mk { id : string; sourcePath : string }.
End GtsRef.

(** The class of an entity object, as [instanceof] sees it. *)
Inductive EntityClass := IsJsonSchema | IsJsonObj | IsJsonEntity.

Global Instance EntityClass_eq_dec : EqDecision EntityClass.
Proof. solve_decision. Defined.

(** [JsonEntity] with the fields the registry reads; [isGtsEntity] is the
    result of the method of that name. *)
Module JsonEntity.
Record t := mk {
    class : EntityClass;
    id : string;
    content : Json;
    gtsRefs : list GtsRef.t;
    schemaId : option string;
    isGtsEntity : bool;
    selectedSchemaIdField : option string;
    selectedEntityIdField : option string;
    validation : option ValidationResult
  }.

(** [entity.validation = v] *)
Definition set_validation (v : option ValidationResult) (e : t) : t :=
  mk (class e) (id e) (content e) (gtsRefs e) (schemaId e) (isGtsEntity e)
     (selectedSchemaIdField e) (selectedEntityIdField e) v.

(** [entity.validation.errors.push(...errs)]; nothing to push onto when
    the result object is missing. *)
Definition push_errors (errs : list ValidationError.t) (e : t) : t :=
  match validation e with
  | Some r => set_validation (Some {| errors := errors r ++ errs |}) e
  | None => e
  end.
End JsonEntity.

(** References to entity objects and the object store. *)
Abbreviation EntRef := nat.
Abbreviation Heap := (list JsonEntity.t).

(** ** The registry *)

Record JsonRegistry := mkRegistry {
    jsonObjs : JsMap.t EntRef;
    jsonSchemas : JsMap.t EntRef;
    jsonFiles : JsMap.t JsonFile.t;
    invalidFiles : JsMap.t JsonFile.t;
    jsonFileObjs : JsMap.t (list EntRef);
    jsonFileSchemas : JsMap.t (list EntRef);
    absentGtsEntities : JsMap.t JsonEntity.t;
    fetchCache : JsMap.t Json;
    defaultFilePath : option string
  }.

(** [new JsonRegistry()] *)
Definition newRegistry : JsonRegistry :=
  mkRegistry [] [] [] [] [] [] [] [] None.

(** A registry together with the store its references point into. *)
Record World := mkWorld { heap : Heap; registry : JsonRegistry }.

(** ** Strings and the regular expressions of the source *)

Fixpoint strip_prefix (p s : string) : option string :=
  match p, s with
  | EmptyString, _ => Some s
  | String a p', String b s' =>
      if decide (a = b) then strip_prefix p' s' else None
  | String _ _, EmptyString => None
  end.

(** [s.startsWith(p)] *)
Definition startsWith (s p : string) : bool :=
  match strip_prefix p s with Some _ => true | None => false end.

(** [\d] *)
Definition is_digit (c : ascii) : bool :=
  let n := nat_of_ascii c in (48 <=? n) && (n <=? 57).

(** [\w] *)
Definition is_word (c : ascii) : bool :=
  let n := nat_of_ascii c in
  ((48 <=? n) && (n <=? 57)) || ((65 <=? n) && (n <=? 90))
  || ((97 <=? n) && (n <=? 122)) || (n =? 95).

(** The longest prefix of characters satisfying [p], and what follows. *)
Fixpoint span (p : ascii → bool) (s : string) : string * string :=
  match s with
  | EmptyString => (EmptyString, EmptyString)
  | String c s' =>
      if p c then let '(a, b) := span p s' in (String c a, b)
      else (EmptyString, s)
  end.

(** [examples(?:\[|$|\.)] matched at the start of [s]. *)
Definition examples_here (s : string) : bool :=
  match strip_prefix "examples" s with
  | Some EmptyString => true
  | Some (String c _) =>
      bool_decide (c = "["%char) || bool_decide (c = "."%char)
  | None => false
  end.

(** [(?:allOf|anyOf|oneOf)\[\d+\]\.] matched at the start of [s]; the result
    is what follows the match. *)
Definition combinator_here (s : string) : option string :=
  let after_name :=
    match strip_prefix "allOf" s with
    | Some r => Some r
    | None =>
        match strip_prefix "anyOf" s with
        | Some r => Some r
        | None => strip_prefix "oneOf" s
        end
    end in
  match after_name with
  | Some (String c r) =>
      if bool_decide (c = "["%char) then
        let '(ds, r') := span is_digit r in
        match ds with
        | EmptyString => None
        | String _ _ => strip_prefix "]." r'
        end
      else None
  | _ => None
  end.

(** Some position of [s] starts a combinator index followed by
    [examples(?:\[|$|\.)]. *)
Fixpoint combinator_examples (s : string) : bool :=
  match combinator_here s with
  | Some r => examples_here r
  | None => false
  end
  || match s with
     | EmptyString => false
     | String _ s' => combinator_examples s'
     end.

(** The test of [validateEntity]:
    [/(?:^|(?:allOf|anyOf|oneOf)\[\d+\]\.)examples(?:\[|$|\.)/.test(p) ||
     /^examples(?:\[|$|\.)/.test(p)] *)
Definition isInExamples (sourcePath : string) : bool :=
  (examples_here sourcePath || combinator_examples sourcePath)
  || examples_here sourcePath.

(** [s.replace(/\./g, '/')] *)
Fixpoint replace_dots (s : string) : string :=
  match s with
  | EmptyString => EmptyString
  | String c s' =>
      String (if bool_decide (c = "."%char) then "/"%char else c)
             (replace_dots s')
  end.

(** [s.replace(/\[(\d+)\]/g, '/$1')].  The scan goes left to right; after a
    match of [\[(\d+)\]] the matched characters are passed over, which the
    counter [skip] does (the digits and the closing bracket). *)
Fixpoint replace_indices (skip : nat) (s : string) : string :=
  match s with
  | EmptyString => EmptyString
  | String c s' =>
      match skip with
      | S k => replace_indices k s'
      | O =>
          if bool_decide (c = "["%char) then
            let '(ds, r) := span is_digit s' in
            match ds, r with
            | String _ _, String c' _ =>
                if bool_decide (c' = "]"%char)
                then "/" +:+ ds +:+ replace_indices (S (String.length ds)) s'
                else String c (replace_indices O s')
            | _, _ => String c (replace_indices O s')
            end
          else String c (replace_indices O s')
      end
  end.

(** The [instancePath] of a reference error. *)
Definition refInstancePath (sourcePath : string) : string :=
  if decide (sourcePath = "root") then "/"
  else "/" +:+ replace_indices O (replace_dots sourcePath).

(** [/(^|[\\\/])\.gts-viewer[\\\/]/.test(p)] *)
Definition is_sep (c : ascii) : bool :=
  bool_decide (c = "\"%char) || bool_decide (c = "/"%char).

Definition gts_viewer_here (s : string) : bool :=
  match strip_prefix ".gts-viewer" s with
  | Some (String c _) => is_sep c
  | _ => false
  end.

Fixpoint gts_viewer_after_sep (s : string) : bool :=
  match s with
  | EmptyString => false
  | String c s' => (is_sep c && gts_viewer_here s') || gts_viewer_after_sep s'
  end.

Definition inGtsViewerDir (p : string) : bool :=
  gts_viewer_here p || gts_viewer_after_sep p.

(** [msg.match(/data(\/[A-Za-z0-9_\-\.\[\]\/]+)\b/)], group 1.  The class
    contains every word character, so the character after a maximal run is
    never a word character and [\b] holds exactly after the last word
    character of the run. *)
Definition is_data_path_char (c : ascii) : bool :=
  is_word c || bool_decide (c = "-"%char) || bool_decide (c = "."%char)
  || bool_decide (c = "["%char) || bool_decide (c = "]"%char)
  || bool_decide (c = "/"%char).

Fixpoint upto_last_word (s : string) : option string :=
  match s with
  | EmptyString => None
  | String c s' =>
      match upto_last_word s' with
      | Some t => Some (String c t)
      | None => if is_word c then Some (String c EmptyString) else None
      end
  end.

Definition data_path_here (s : string) : option string :=
  match strip_prefix "data/" s with
  | Some r => String "/"%char <$> upto_last_word (span is_data_path_char r).1
  | None => None
  end.

Fixpoint match_data_path (s : string) : option string :=
  match data_path_here s with
  | Some p => Some p
  | None =>
      match s with
      | EmptyString => None
      | String _ s' => match_data_path s'
      end
  end.

(** ** Registry operations that need no collaborator *)

Definition with_jsonObjs (m : JsMap.t EntRef) (r : JsonRegistry) :=
  mkRegistry m (jsonSchemas r) (jsonFiles r) (invalidFiles r) (jsonFileObjs r)
    (jsonFileSchemas r) (absentGtsEntities r) (fetchCache r)
    (defaultFilePath r).
Definition with_jsonSchemas (m : JsMap.t EntRef) (r : JsonRegistry) :=
  mkRegistry (jsonObjs r) m (jsonFiles r) (invalidFiles r) (jsonFileObjs r)
    (jsonFileSchemas r) (absentGtsEntities r) (fetchCache r)
    (defaultFilePath r).
Definition with_jsonFiles (m : JsMap.t JsonFile.t) (r : JsonRegistry) :=
  mkRegistry (jsonObjs r) (jsonSchemas r) m (invalidFiles r) (jsonFileObjs r)
    (jsonFileSchemas r) (absentGtsEntities r) (fetchCache r)
    (defaultFilePath r).
Definition with_invalidFiles (m : JsMap.t JsonFile.t) (r : JsonRegistry) :=
  mkRegistry (jsonObjs r) (jsonSchemas r) (jsonFiles r) m (jsonFileObjs r)
    (jsonFileSchemas r) (absentGtsEntities r) (fetchCache r)
    (defaultFilePath r).
Definition with_jsonFileObjs (m : JsMap.t (list EntRef)) (r : JsonRegistry) :=
  mkRegistry (jsonObjs r) (jsonSchemas r) (jsonFiles r) (invalidFiles r) m
    (jsonFileSchemas r) (absentGtsEntities r) (fetchCache r)
    (defaultFilePath r).
Definition with_jsonFileSchemas (m : JsMap.t (list EntRef))
    (r : JsonRegistry) :=
  mkRegistry (jsonObjs r) (jsonSchemas r) (jsonFiles r) (invalidFiles r)
    (jsonFileObjs r) m (absentGtsEntities r) (fetchCache r)
    (defaultFilePath r).
Definition with_absentGtsEntities (m : JsMap.t JsonEntity.t)
    (r : JsonRegistry) :=
  mkRegistry (jsonObjs r) (jsonSchemas r) (jsonFiles r) (invalidFiles r)
    (jsonFileObjs r) (jsonFileSchemas r) m (fetchCache r)
    (defaultFilePath r).
Definition with_fetchCache (m : JsMap.t Json) (r : JsonRegistry) :=
  mkRegistry (jsonObjs r) (jsonSchemas r) (jsonFiles r) (invalidFiles r)
    (jsonFileObjs r) (jsonFileSchemas r) (absentGtsEntities r) m
    (defaultFilePath r).
Definition with_defaultFilePath (p : option string) (r : JsonRegistry) :=
  mkRegistry (jsonObjs r) (jsonSchemas r) (jsonFiles r) (invalidFiles r)
    (jsonFileObjs r) (jsonFileSchemas r) (absentGtsEntities r) (fetchCache r)
    p.

(** [normalizeToArray] *)
Definition normalizeToArray (content : Json) : list Json :=
  match content with
  | JArr xs => xs
  | _ => [content]
  end.

(** [Array.isArray] *)
Definition isArray (content : Json) : bool :=
  match content with JArr _ => true | _ => false end.

(** [reset]: the statements of the method, in order. *)
Definition reset (r : JsonRegistry) : JsonRegistry :=
  let r := with_jsonObjs (JsMap.clear (jsonObjs r)) r in
  let r := with_jsonSchemas (JsMap.clear (jsonSchemas r)) r in
  let r := with_jsonFiles (JsMap.clear (jsonFiles r)) r in
  let r := with_invalidFiles (JsMap.clear (invalidFiles r)) r in
  let r := with_fetchCache (JsMap.clear (fetchCache r)) r in
  let r := with_jsonFileObjs (JsMap.clear (jsonFileObjs r)) r in
  let r := with_jsonFileSchemas (JsMap.clear (jsonFileSchemas r)) r in
  with_defaultFilePath None r.

(** [for (const e of list) index.delete(e.id)]: the ids are read from the
    listed objects. *)
Definition delete_listed (h : Heap) (listed : list EntRef)
    (index : JsMap.t EntRef) : JsMap.t EntRef :=
  foldl (λ m ref,
           match h !! ref with
           | Some e => JsMap.delete (JsonEntity.id e) m
           | None => m
           end) index listed.

(** [invalidateFile].  For the two ownership maps, [has(path)] followed by
    [get(path)!] is one lookup here. *)
Definition invalidateFile (h : Heap) (path : string) (r : JsonRegistry)
    : JsonRegistry :=
  let r :=
    if JsMap.has path (jsonFiles r)
    then with_jsonFiles (JsMap.delete path (jsonFiles r)) r else r in
  let r :=
    if JsMap.has path (invalidFiles r)
    then with_invalidFiles (JsMap.delete path (invalidFiles r)) r else r in
  let r :=
    match JsMap.get path (jsonFileObjs r) with
    | Some listed =>
        let r := with_jsonObjs (delete_listed h listed (jsonObjs r)) r in
        let r := with_jsonFileObjs (JsMap.delete path (jsonFileObjs r)) r in
        with_jsonFileObjs (JsMap.set path [] (jsonFileObjs r)) r
    | None => r
    end in
  match JsMap.get path (jsonFileSchemas r) with
  | Some listed =>
      let r := with_jsonSchemas (delete_listed h listed (jsonSchemas r)) r in
      let r :=
        with_jsonFileSchemas (JsMap.delete path (jsonFileSchemas r)) r in
      with_jsonFileSchemas (JsMap.set path [] (jsonFileSchemas r)) r
  | None => r
  end.

(** [x || null] on a string that may be missing: the empty string is falsy. *)
Definition truthy (x : option string) : option string :=
  match x with
  | Some s => if decide (s = "") then None else Some s
  | None => None
  end.

(** [setDefaultFile] *)
Definition setDefaultFile (pathOrNull : option string) (r : JsonRegistry)
    : JsonRegistry :=
  match truthy pathOrNull with
  | Some p => with_defaultFilePath (Some p) r
  | None =>
      with_defaultFilePath
        (truthy (JsonFile.path <$> JsMap.first_value (jsonFiles r))) r
  end.

(** [getDefaultFilePath] *)
Definition getDefaultFilePath (r : JsonRegistry) : option string :=
  truthy (defaultFilePath r).

(** [getDefaultFile] *)
Definition getDefaultFile (r : JsonRegistry) : option JsonFile.t :=
  match truthy (defaultFilePath r) with
  | None => None
  | Some p => JsMap.get p (jsonFiles r)
  end.

(** Modelled from the spec: the "fixed vendor URI prefix" of identifiers,
    a constant of the entities module, which is not among the sources; the
    comments of [resolveSchema] name it as [gts://]. *)
Definition GTS_URI_PREFIX : string := "gts://".

(** Modelled from the spec: [normalizeGtsId] of the entities module, which is
    not among the sources.  The spec has it strip the prefix from an
    identifier, so that a reference may be written bare or fully
    qualified. *)
Definition normalizeGtsId (id : string) : string :=
  match strip_prefix GTS_URI_PREFIX id with
  | Some bare => bare
  | None => id
  end.

(** [resolveSchema]: the schema object registered under the normalized id. *)
Definition resolveSchemaRef (schemaId : string) (r : JsonRegistry)
    : option EntRef :=
  JsMap.get (normalizeGtsId schemaId) (jsonSchemas r).

Definition resolveSchema (schemaId : string) (w : World)
    : option JsonEntity.t :=
  ref ← resolveSchemaRef schemaId (registry w); heap w !! ref.

(** ** Collaborators

    The registry calls into the entities module and into Ajv; neither is part
    of the registry's own code.  Their results are taken as given. *)

(** What the [loadSchema] callback hands to Ajv for a [$ref] URI. *)
Inductive LoadResult :=
| LoadTrue
| LoadContent (schema : Json)
| LoadThrows (msg : string).

(** A value thrown by Ajv: [errors] when it carries a list, and [message]. *)
Record AjvFailure := {
    failure_errors : option (list ErrorObject.t);
    failure_message : string
  }.

(** Running a compiled validator: the boolean it returns and its [errors]. *)
Inductive ValidateOutcome :=
| Valid
| Invalid (errs : option (list ErrorObject.t))
| ValidateThrows (err : AjvFailure).

(** [ajv.compileAsync] *)
Inductive CompileOutcome :=
| Compiled (validate : Json → ValidateOutcome)
| CompileThrows (err : AjvFailure).

Record Collaborators := {
    GtsConfig : Type;
    (** [getGtsConfig] *)
    getGtsConfig : GtsConfig → GtsConfig;
    (** the [validation] that [new JsonFile(path, name, content)] leaves *)
    fileValidation : string → string → Json → option ValidationResult;
    (** [createEntity({file, listSequence, content, cfg})] *)
    createEntity :
      JsonFile.t → option nat → Json → GtsConfig → option JsonEntity.t;
    (** [createAbsentEntity] *)
    createAbsentEntity : string → JsonEntity.t;
    (** [decodeGtsId] *)
    decodeGtsId : string → string;
    (** [ajv.compileAsync], for an instance with the given [loadSchema] *)
    compileAsync : (string → LoadResult) → Json → CompileOutcome;
    (** a value inside a template literal; [None] is [undefined] *)
    template : option Json → string;
    (** [JSON.stringify] *)
    JSON_stringify : option Json → string;
    (** the host is a VS Code webview, or validation is disabled by the host *)
    validationDisabled : bool
  }.

Module FileInput.
Record t := mk { path : string; name : string; content : Json }.
End FileInput.

Definition dquote : string := String (ascii_of_nat 34) EmptyString.

Section Registry.
Context (X : Collaborators).

(** [new JsonFile(path, name, content)] *)
Definition newJsonFile (path name : string) (content : Json) : JsonFile.t :=
  JsonFile.mk path name content (fileValidation X path name content).

(** [jsonFile.validation && jsonFile.validation.errors.length > 0] *)
Definition hasParseErrors (f : JsonFile.t) : bool :=
  match JsonFile.validation f with
  | Some r => bool_decide (errors r ≠ [])
  | None => false
  end.

(** Registration of a recognized entity: the new object gets the next free
    reference, and goes into the index and the ownership list of its
    class. *)
Definition registerEntity (path : string) (w : World)
    (entity : JsonEntity.t) : World :=
  let r := registry w in
  let ref : EntRef := length (heap w) in
  let r :=
    if decide (JsonEntity.class entity = IsJsonSchema) then
      let r :=
        with_jsonSchemas
          (JsMap.set (JsonEntity.id entity) ref (jsonSchemas r)) r in
      with_jsonFileSchemas
        (JsMap.set path
           (default [] (JsMap.get path (jsonFileSchemas r)) ++ [ref])
           (jsonFileSchemas r)) r
    else
      let r :=
        with_jsonObjs
          (JsMap.set (JsonEntity.id entity) ref (jsonObjs r)) r in
      with_jsonFileObjs
        (JsMap.set path
           (default [] (JsMap.get path (jsonFileObjs r)) ++ [ref])
           (jsonFileObjs r)) r in
  mkWorld (heap w ++ [entity]) r.

(** [createEntity(...)] followed by [entity && entity.isGtsEntity()] *)
Definition recognize (jsonFile : JsonFile.t) (content : Json)
    (cfg : GtsConfig X) (elem : nat * Json) : option JsonEntity.t :=
  let seq := if isArray content then Some elem.1 else None in
  match createEntity X jsonFile seq elem.2 cfg with
  | Some entity =>
      if JsonEntity.isGtsEntity entity then Some entity else None
  | None => None
  end.

(** The body of the [forEach] callback of [processFileContent]; the
    accumulator carries the world and [hasGtsEntities]. *)
Definition registerElement (path : string) (jsonFile : JsonFile.t)
    (content : Json) (cfg : GtsConfig X)
    (acc : World * bool) (elem : nat * Json) : World * bool :=
  match recognize jsonFile content cfg elem with
  | Some entity => (registerEntity path acc.1 entity, true)
  | None => acc
  end.

(** [processFileContent] *)
Definition processFileContent (path name : string) (content : Json)
    (cfg : GtsConfig X) (w : World) : World :=
  let r := invalidateFile (heap w) path (registry w) in
  let jsonFile := newJsonFile path name content in
  if hasParseErrors jsonFile then
    mkWorld (heap w) (with_invalidFiles (JsMap.set path jsonFile (invalidFiles r)) r)
  else
    let entities := normalizeToArray content in
    let '(w, hasGtsEntities) :=
      foldl (registerElement path jsonFile content cfg)
            (mkWorld (heap w) r, false)
            (imap (λ idx entityContent, (idx, entityContent)) entities) in
    if hasGtsEntities && negb (JsMap.has path (jsonFiles (registry w))) then
      mkWorld (heap w)
        (with_jsonFiles (JsMap.set path jsonFile (jsonFiles (registry w)))
           (registry w))
    else w.

  (** *** Validation *)

(** [formatValidationErrors], one error. *)
Definition param (name : string) (err : ErrorObject.t) : option Json :=
  JsMap.get name (ErrorObject.params err).

Definition detailedMessage (err : ErrorObject.t) : string :=
  let kw := ErrorObject.keyword err in
  let kwIs k := bool_decide (kw = k) in
  if kwIs "type" then "must be " +:+ template X (param "type" err)
  else if kwIs "required" then
    "missing required property '"
      +:+ template X (param "missingProperty" err) +:+ "'"
  else if kwIs "additionalProperties" then
    "must NOT have additional property '"
      +:+ template X (param "additionalProperty" err) +:+ "'"
  else if kwIs "pattern" then
    "must match pattern " +:+ dquote
      +:+ template X (param "pattern" err) +:+ dquote
  else if kwIs "enum" then
    "must be one of: " +:+ JSON_stringify X (param "allowedValues" err)
  else if kwIs "minimum" || kwIs "maximum" then
    "must be " +:+ template X (param "comparison" err) +:+ " "
      +:+ template X (param "limit" err)
  else if kwIs "minLength" || kwIs "maxLength" then
    default "undefined" (ErrorObject.message err)
  else if kwIs "minItems" || kwIs "maxItems" then
    "must " +:+ (if kwIs "minItems" then "NOT" else "") +:+ " have "
      +:+ (if kwIs "minItems" then "fewer" else "more") +:+ " than "
      +:+ template X (param "limit" err) +:+ " items"
  else if kwIs "anyOf" || kwIs "oneOf" || kwIs "allOf" then
    "must match " +:+ kw +:+ " schema"
  else if kwIs "format" then
    "must match format " +:+ dquote
      +:+ template X (param "format" err) +:+ dquote
  else
    default "Validation failed" (truthy (ErrorObject.message err)).

Definition formatValidationError (err : ErrorObject.t)
    : ValidationError.t :=
  ValidationError.mk
    (default "/" (truthy (Some (ErrorObject.instancePath err))))
    (default "#" (truthy (Some (ErrorObject.schemaPath err))))
    (ErrorObject.keyword err)
    (detailedMessage err)
    (ErrorObject.params err)
    (ErrorObject.data err).

Definition formatValidationErrors (ajvErrors : list ErrorObject.t)
    : list ValidationError.t :=
  formatValidationError <$> ajvErrors.

(** The [loadSchema] callback of [createAjvInstance], reading the
    registry. *)
Definition loadSchema (w : World) (uri : string) : LoadResult :=
  let schemaId := decodeGtsId X uri in
  if startsWith schemaId "https://json-schema.org"
     || startsWith schemaId "http://json-schema.org"
  then LoadTrue
  else
    match resolveSchema schemaId w with
    | None => LoadThrows ("Schema not found for $ref: " +:+ schemaId)
    | Some schema => LoadContent (JsonEntity.content schema)
    end.

(** Writing to the entity object behind a reference. *)
Definition update_entity (f : JsonEntity.t → JsonEntity.t) (entity : EntRef)
    (w : World) : World :=
  mkWorld (alter f entity (heap w)) (registry w).

(** [this.jsonSchemas.has(ref.id) || this.jsonObjs.has(ref.id)] *)
Definition refExists (id : string) (r : JsonRegistry) : bool :=
  JsMap.has id (jsonSchemas r) || JsMap.has id (jsonObjs r).

(** The error pushed for a reference that is not found. *)
Definition refError (ref : GtsRef.t) : ValidationError.t :=
  ValidationError.mk
    (refInstancePath (GtsRef.sourcePath ref))
    "#"
    ""
    ("GTS reference not found: " +:+ GtsRef.id ref)
    [("gtsId", JStr (GtsRef.id ref));
     ("sourcePath", JStr (GtsRef.sourcePath ref))]
    None.

(** One iteration of the loop over [entity.gtsRefs]. *)
Definition checkRef (entity : EntRef) (w : World) (ref : GtsRef.t)
    : World :=
  if isInExamples (GtsRef.sourcePath ref) then w
  else if refExists (GtsRef.id ref) (registry w) then w
  else
    let r := registry w in
    let w :=
      mkWorld (heap w)
        (with_absentGtsEntities
           (JsMap.set (GtsRef.id ref) (createAbsentEntity X (GtsRef.id ref))
              (absentGtsEntities r)) r) in
    update_entity (JsonEntity.push_errors [refError ref]) entity w.

(** The [catch] branch of schema meta-validation. *)
Definition schemaCompileErrors (error : AjvFailure)
    : list ValidationError.t :=
  match failure_errors error with
  | Some (e :: es) =>
      (λ v, ValidationError.mk
              (ValidationError.instancePath v)
              (ValidationError.schemaPath v)
              (default "schema" (truthy (Some (ValidationError.keyword v))))
              (default "Invalid JSON Schema"
                 (truthy (Some (ValidationError.message v))))
              (ValidationError.params v)
              (ValidationError.data v))
        <$> formatValidationErrors (e :: es)
  | _ =>
      let msg :=
        default "Unknown schema error"
          (truthy (Some (failure_message error))) in
      [ValidationError.mk
         (default "" (match_data_path msg))
         "#"
         "schema"
         ("Invalid JSON Schema: " +:+ msg)
         [("error", JStr msg)]
         None]
  end.

(** The errors of the second phase for a [JsonObj]. *)
Definition objectErrors (w : World) (e : JsonEntity.t)
    : list ValidationError.t :=
  match truthy (JsonEntity.schemaId e) with
  | None => []
  | Some schemaId =>
      match resolveSchema schemaId w with
      | None =>
          let idField :=
            default
              (default "id" (truthy (JsonEntity.selectedEntityIdField e)))
              (truthy (JsonEntity.selectedSchemaIdField e)) in
          [ValidationError.mk
             ("/" +:+ idField)
             "#"
             "schema"
             ("Schema not found: " +:+ schemaId)
             [("schemaId", JStr schemaId)]
             None]
      | Some schema =>
          let thrown (error : AjvFailure) :=
            [ValidationError.mk
               ""
               "#"
               "validation"
               ("Validation error: " +:+ failure_message error)
               [("error", JStr (failure_message error))]
               None] in
          match compileAsync X (loadSchema w) (JsonEntity.content schema)
          with
          | Compiled validate =>
              match validate (JsonEntity.content e) with
              | Valid => []
              | Invalid (Some errs) => formatValidationErrors errs
              | Invalid None => []
              | ValidateThrows error => thrown error
              end
          | CompileThrows error => thrown error
          end
      end
  end.

(** The errors of the second phase, by the class of the entity. *)
Definition schemaPhaseErrors (w : World) (e : JsonEntity.t)
    : list ValidationError.t :=
  match JsonEntity.class e with
  | IsJsonSchema =>
      match compileAsync X (loadSchema w) (JsonEntity.content e) with
      | Compiled _ => []
      | CompileThrows error => schemaCompileErrors error
      end
  | IsJsonObj => objectErrors w e
  | IsJsonEntity => []
  end.

(** [validateEntity] *)
Definition validateEntity (entity : EntRef) (w : World) : World :=
  match heap w !! entity with
  | None => w
  | Some e0 =>
      let w :=
        update_entity (JsonEntity.set_validation (Some {| errors := [] |}))
          entity w in
      let w := foldl (checkRef entity) w (JsonEntity.gtsRefs e0) in
      if validationDisabled X then w
      else
        update_entity (JsonEntity.push_errors (schemaPhaseErrors w e0))
          entity w
  end.

(** What an observer of the validation pass sees. *)
Inductive Event :=
  | ValidationBegins (entity : EntRef)
  | ValidationCompleted (entity : EntRef).

(** [for (const e of map.values()) await this.validateEntity(e)] with the
    observed events.  The loop is over the values at its start:
    [validateEntity] leaves the maps as they are
    ([validateEntity_registry]). *)
Definition validateEach (entities : list EntRef)
    (st : World * list Event) : World * list Event :=
  foldl (λ st entity,
           (validateEntity entity st.1,
            st.2 ++ [ValidationBegins entity; ValidationCompleted entity]))
        st entities.

(** [validateEntities] *)
Definition validateEntitiesTraced (w : World) : World * list Event :=
  let st := validateEach (JsMap.values (jsonSchemas (registry w))) (w, []) in
  validateEach (JsMap.values (jsonObjs (registry st.1))) st.

Definition validateEntities (w : World) : World :=
  (validateEntitiesTraced w).1.

(** [ingestFiles] *)
Definition ingestFiles (files : list FileInput.t) (cfg : GtsConfig X)
    (w : World) : World :=
  let cfg := getGtsConfig X cfg in
  let w :=
    foldl (λ w file,
             if inGtsViewerDir (FileInput.path file) then w
             else processFileContent (FileInput.path file)
                    (FileInput.name file) (FileInput.content file) cfg w)
          w files in
  validateEntities w.

End Registry.

(** ** The file-name filter *)

(** [s.endsWith(suffix)]: some tail of [s] is [suffix]. *)
Fixpoint endsWith (s suffix : string) : bool :=
  bool_decide (s = suffix)
  || match s with
     | EmptyString => false
     | String _ s' => endsWith s' suffix
     end.

(** [isGtsCandidateFileName] *)
Definition isGtsCandidateFileName (fileName : string) : bool :=
  endsWith fileName ".json" || endsWith fileName ".jsonc"
  || endsWith fileName ".gts" || endsWith fileName ".yaml"
  || endsWith fileName ".yml".

(** ** A small instance of the collaborators, to run the registry on *)

Module Sample.

(** Fields other than [type] that hold a string are references. *)
Definition refsOf (fields : list (string * Json)) : list GtsRef.t :=
  omap (λ kv, match kv.2 with
              | JStr v =>
                  if decide (kv.1 = "type") then None
                  else Some (GtsRef.mk v kv.1)
              | _ => None
              end) fields.

Definition typeOf (fields : list (string * Json)) : option string :=
  match JsMap.get "type" fields with
  | Some (JStr s) => Some s
  | _ => None
  end.

(** An object whose first field is [$id] is a schema, one whose first
    field is [id] is an instance; nothing else is an entity. *)
Definition extract (file : JsonFile.t) (seq : option nat)
    (content : Json) (cfg : unit) : option JsonEntity.t :=
  match content with
  | JObj ((k, JStr i) :: rest) =>
      if decide (k = "$id") then
        Some (JsonEntity.mk IsJsonSchema (normalizeGtsId i) content
                (refsOf rest) None true None (Some "$id") None)
      else if decide (k = "id") then
        Some (JsonEntity.mk IsJsonObj (normalizeGtsId i) content
                (refsOf rest) (typeOf rest) true (Some "type") (Some "id")
                None)
      else None
  | _ => None
  end.

Definition placeholder (id : string) : JsonEntity.t :=
  JsonEntity.mk IsJsonEntity id JNull [] None false None None None.

(** A document that is a bare string stands for text that did not parse. *)
Definition parseCheck (path name : string) (content : Json)
    : option ValidationResult :=
  match content with
  | JStr text =>
      Some {| errors :=
                [ValidationError.mk "" "#" "parse" text [] None] |}
  | _ => None
  end.

Definition show (v : option Json) : string :=
  match v with
  | Some (JStr s) => s
  | Some _ => "[value]"
  | None => "undefined"
  end.

(** Every schema compiles and every instance conforms. *)
Definition X : Collaborators := {|
    GtsConfig := unit;
    getGtsConfig := λ cfg, cfg;
    fileValidation := parseCheck;
    createEntity := extract;
    createAbsentEntity := placeholder;
    decodeGtsId := λ uri, uri;
    compileAsync := λ _ _, Compiled (λ _, Valid);
    template := show;
    JSON_stringify := show;
    validationDisabled := false
  |}.

Definition emptyWorld : World := mkWorld [] newRegistry.

Definition fileA : FileInput.t :=
  FileInput.mk "a.json" "a.json" (JObj [("id", JStr "X")]).
Definition fileB : FileInput.t :=
  FileInput.mk "b.json" "b.json" (JObj [("id", JStr "X")]).
Definition fileC : FileInput.t :=
  FileInput.mk "c.json" "c.json"
    (JArr [JObj [("$id", JStr "gts://S1")];
           JObj [("id", JStr "O1"); ("type", JStr "S1");
                 ("contact.gtsIid", JStr "S2");
                 ("examples[0].gtsIid", JStr "S3")]]).

(** A schema declared under the prefixed id, and two instances that point
    at it, one with the prefixed id and one with the bare id. *)
Definition fileS : FileInput.t :=
  FileInput.mk "s.json" "s.json" (JObj [("$id", JStr "gts://S1")]).
Definition fileP : FileInput.t :=
  FileInput.mk "p.json" "p.json"
    (JObj [("id", JStr "P"); ("type", JStr "gts://S1");
           ("link", JStr "gts://S1")]).
Definition fileQ : FileInput.t :=
  FileInput.mk "q.json" "q.json"
    (JObj [("id", JStr "Q"); ("type", JStr "S1"); ("link", JStr "S1")]).

(** The world after [c.json] is processed, and its instance [O1] as created. *)
Definition worldC : World :=
  processFileContent X "c.json" "c.json" (FileInput.content fileC) tt emptyWorld.

Definition refS2 : GtsRef.t := GtsRef.mk "S2" "contact.gtsIid".
Definition refS3 : GtsRef.t := GtsRef.mk "S3" "examples[0].gtsIid".

Definition entityO1 : JsonEntity.t :=
  JsonEntity.mk IsJsonObj "O1"
    (JObj [("id", JStr "O1"); ("type", JStr "S1");
           ("contact.gtsIid", JStr "S2"); ("examples[0].gtsIid", JStr "S3")])
    [refS2; refS3] (Some "S1") true (Some "type") (Some "id") None.

(** Text that did not parse, and a document that holds no entity. *)
Definition fileBroken : FileInput.t :=
  FileInput.mk "broken.json" "broken.json" (JStr "unexpected token").
Definition filePlain : FileInput.t :=
  FileInput.mk "plain.json" "plain.json" (JObj [("title", JStr "notes")]).

End Sample.

(** ** Calls of the public methods *)

Section Calls.
Context (X : Collaborators).

(** The public methods that change the registry, as calls.  The entity
    handed to [validateEntity] is an object of the store. *)
Inductive Call :=
| CallReset
| CallInvalidateFile (path : string)
| CallSetDefaultFile (pathOrNull : option string)
| CallIngestFiles (files : list FileInput.t) (cfg : GtsConfig X)
| CallValidateEntities
| CallValidateEntity (entity : EntRef).

Definition call (w : World) (c : Call) : World :=
  match c with
  | CallReset => mkWorld (heap w) (reset (registry w))
  | CallInvalidateFile path =>
      mkWorld (heap w) (invalidateFile (heap w) path (registry w))
  | CallSetDefaultFile pathOrNull =>
      mkWorld (heap w) (setDefaultFile pathOrNull (registry w))
  | CallIngestFiles files cfg => ingestFiles X files cfg w
  | CallValidateEntities => validateEntities X w
  | CallValidateEntity entity => validateEntity X entity w
  end.

(** The worlds a new registry gets to by calls of its public methods. *)
Definition reachable (w : World) : Prop :=
  ∃ calls, w = foldl call (mkWorld [] newRegistry) calls.

End Calls.

Arguments CallReset {X}.
Arguments CallInvalidateFile {X} path.
Arguments CallSetDefaultFile {X} pathOrNull.
Arguments CallIngestFiles {X} files cfg.
Arguments CallValidateEntities {X}.
Arguments CallValidateEntity {X} entity.

(** A short session on the sample documents: three files are ingested and
    the first is invalidated. *)
Definition sampleSession : list (Call Sample.X) :=
  [CallIngestFiles (X:=Sample.X)
     [Sample.fileA; Sample.fileB; Sample.fileC] tt;
   CallInvalidateFile "a.json"].

Definition sampleWorld : World :=
  foldl (call Sample.X) (mkWorld [] newRegistry) sampleSession.

(** The sample worlds after [a.json] alone and after [q.json] alone are
    processed, and the entity objects of the samples as created. *)
Definition sampleWorldA : World :=
  processFileContent Sample.X "a.json" "a.json"
    (FileInput.content Sample.fileA) tt Sample.emptyWorld.

Definition sampleWorldQ : World :=
  processFileContent Sample.X "q.json" "q.json"
    (FileInput.content Sample.fileQ) tt Sample.emptyWorld.

Definition sampleEntityX : JsonEntity.t :=
  JsonEntity.mk IsJsonObj "X" (JObj [("id", JStr "X")]) [] None true
    (Some "type") (Some "id") None.

Definition sampleEntityQ : JsonEntity.t :=
  JsonEntity.mk IsJsonObj "Q"
    (JObj [("id", JStr "Q"); ("type", JStr "S1"); ("link", JStr "S1")])
    [GtsRef.mk "S1" "link"] (Some "S1") true (Some "type") (Some "id") None.

Definition sampleSchemaS1 : JsonEntity.t :=
  JsonEntity.mk IsJsonSchema "S1" (JObj [("$id", JStr "gts://S1")]) [] None
    true None (Some "$id") None.

(** ** Notions used to state the properties *)

(** The ids read off a list of references. *)
Definition listed_ids (h : Heap) (listed : list EntRef) : list string :=
  omap (λ ref, JsonEntity.id <$> h !! ref) listed.


(** Which index an entity goes to. *)
Definition is_schema (e : JsonEntity.t) : bool :=
  bool_decide (JsonEntity.class e = IsJsonSchema).
Definition is_object (e : JsonEntity.t) : bool := negb (is_schema e).

(** The position, in a list of entities registered one after the other, of
    the last one of a class that has the id [k]: the one whose reference is
    left under the key [k]. *)
Fixpoint last_registered (sel : JsonEntity.t → bool) (k : string)
      (es : list JsonEntity.t) : option nat :=
  match es with
  | [] => None
  | e :: es' =>
      match last_registered sel k es' with
      | Some i => Some (S i)
      | None =>
          if sel e && bool_decide (JsonEntity.id e = k) then Some 0 else None
      end
  end.

(** The positions of the entities of a class. *)
Fixpoint positions (sel : JsonEntity.t → bool) (es : list JsonEntity.t)
      : list nat :=
  match es with
  | [] => []
  | e :: es' => (if sel e then [0] else []) ++ (S <$> positions sel es')
  end.

(** A registry as JavaScript has it: a key occurs once in a [Map], and
    every reference points to an object of the store. *)
Definition well_formed (w : World) : Prop :=
  NoDup (JsMap.keys (jsonSchemas (registry w)))
  ∧ NoDup (JsMap.keys (jsonObjs (registry w)))
  ∧ (∀ k ref, JsMap.get k (jsonSchemas (registry w)) = Some ref →
              ref < length (heap w))
  ∧ (∀ k ref, JsMap.get k (jsonObjs (registry w)) = Some ref →
              ref < length (heap w))
  ∧ (∀ p refs ref, JsMap.get p (jsonFileObjs (registry w)) = Some refs →
                   ref ∈ refs → ref < length (heap w))
  ∧ (∀ p refs ref, JsMap.get p (jsonFileSchemas (registry w)) = Some refs →
                   ref ∈ refs → ref < length (heap w)).

(** What a lookup in an index gives: the entity object under the key, and
    under a path the entity objects it owns, in order. *)
Definition entityAt (w : World) (index : JsMap.t EntRef) (k : string)
      : option (option JsonEntity.t) :=
  (λ ref, heap w !! ref) <$> JsMap.get k index.

Definition ownedAt (w : World) (owned : JsMap.t (list EntRef)) (p : string)
      : option (list (option JsonEntity.t)) :=
  (λ refs : list EntRef, (λ ref, heap w !! ref) <$> refs)
    <$> JsMap.get p owned.

(** Two worlds with the same index state: every lookup, in every map of
    the registry, gives the same entities and files, results of validation
    included, and the default-file pointer is the same.  (Object identity
    and the iteration order of the maps are not part of it.) *)
Definition same_index_state (w1 w2 : World) : Prop :=
  (∀ k, entityAt w1 (jsonSchemas (registry w1)) k
        = entityAt w2 (jsonSchemas (registry w2)) k)
  ∧ (∀ k, entityAt w1 (jsonObjs (registry w1)) k
          = entityAt w2 (jsonObjs (registry w2)) k)
  ∧ (∀ p, JsMap.get p (jsonFiles (registry w1))
          = JsMap.get p (jsonFiles (registry w2)))
  ∧ (∀ p, JsMap.get p (invalidFiles (registry w1))
          = JsMap.get p (invalidFiles (registry w2)))
  ∧ (∀ p, ownedAt w1 (jsonFileObjs (registry w1)) p
          = ownedAt w2 (jsonFileObjs (registry w2)) p)
  ∧ (∀ p, ownedAt w1 (jsonFileSchemas (registry w1)) p
          = ownedAt w2 (jsonFileSchemas (registry w2)) p)
  ∧ (∀ k, JsMap.get k (absentGtsEntities (registry w1))
          = JsMap.get k (absentGtsEntities (registry w2)))
  ∧ (∀ k, JsMap.get k (fetchCache (registry w1))
          = JsMap.get k (fetchCache (registry w2)))
  ∧ defaultFilePath (registry w1) = defaultFilePath (registry w2).

(** The references below [n] stay, the others move up by [m]. *)
Definition shift (n m : nat) (ref : EntRef) : EntRef :=
  if decide (ref < n) then ref else ref + m.

Section Notions.
Context (X : Collaborators).

(** A reference is reported when it is outside the examples regions and
    its id is in neither index. *)
Definition reported (r : JsonRegistry) (ref : GtsRef.t) : bool :=
  negb (isInExamples (GtsRef.sourcePath ref))
  && negb (refExists (GtsRef.id ref) r).

(** The errors of the first phase, in the order of [gtsRefs]. *)
Definition refErrors (r : JsonRegistry) (refs : list GtsRef.t)
    : list ValidationError.t :=
  refError <$> filter (λ ref, reported r ref) refs.

(** The identifiers the first phase records as absent. *)
Definition missingIds (r : JsonRegistry) (refs : list GtsRef.t)
    : list string :=
  GtsRef.id <$> filter (λ ref, reported r ref) refs.

Definition recordAbsent (ids : list string) (m : JsMap.t JsonEntity.t)
    : JsMap.t JsonEntity.t :=
  foldl (λ m id, JsMap.set id (createAbsentEntity X id) m) m ids.

(** The entity as [validateEntity] leaves it: a fresh result holding the
    errors of the first phase and then those of the second. *)
Definition validated (w : World) (e : JsonEntity.t) : JsonEntity.t :=
  JsonEntity.set_validation
    (Some {| errors :=
               refErrors (registry w) (JsonEntity.gtsRefs e)
               ++ (if validationDisabled X then []
                   else schemaPhaseErrors X w e) |})
    e.

(** The second phase reads the world through the schema contents it can
    resolve, and through nothing else. *)
Definition schemaContent (w : World) (schemaId : string) : option Json :=
  JsonEntity.content <$> resolveSchema schemaId w.

(** Validation changes nothing of an entity but its [validation]. *)
Definition revalidated (e e' : JsonEntity.t) : Prop :=
  e' = JsonEntity.set_validation (JsonEntity.validation e') e.

(** Validation leaves the registry as it is, but for the placeholders. *)
Definition same_indices (r r' : JsonRegistry) : Prop :=
  jsonSchemas r' = jsonSchemas r ∧ jsonObjs r' = jsonObjs r
  ∧ jsonFiles r' = jsonFiles r ∧ invalidFiles r' = invalidFiles r
  ∧ jsonFileObjs r' = jsonFileObjs r ∧ jsonFileSchemas r' = jsonFileSchemas r
  ∧ fetchCache r' = fetchCache r ∧ defaultFilePath r' = defaultFilePath r.

(** The frame of a validation step: the same entity objects under the same
    references, each changed in its [validation] at most, and the same
    indices. *)
Definition validation_frame (w w' : World) : Prop :=
  same_indices (registry w) (registry w')
  ∧ length (heap w') = length (heap w)
  ∧ ∀ ref e, heap w !! ref = Some e →
      ∃ e', heap w' !! ref = Some e' ∧ revalidated e e'.

(** The entities a document yields, in the order of its elements. *)
Definition recognizedEntities (path name : string) (content : Json)
      (cfg : GtsConfig X) : list JsonEntity.t :=
  omap (recognize X (newJsonFile X path name content) content cfg)
       (imap (λ idx entityContent, (idx, entityContent))
             (normalizeToArray content)).

(** The entities [processFileContent] registers: none for a document that
    did not parse. *)
Definition registeredEntities (path name : string) (content : Json)
      (cfg : GtsConfig X) : list JsonEntity.t :=
  if hasParseErrors (newJsonFile X path name content) then []
  else recognizedEntities path name content cfg.

(** The references a full validation pass visits. *)
Definition indexedRefs (w : World) : list EntRef :=
  JsMap.values (jsonSchemas (registry w)) ++ JsMap.values (jsonObjs (registry w)).

(** The identifiers a pass over the given entities records as absent. *)
Definition missingOf (w : World) (entities : list EntRef) : list string :=
  entities ≫= λ ref,
    match heap w !! ref with
    | Some e => missingIds (registry w) (JsonEntity.gtsRefs e)
    | None => []
    end.

(** A world in the course of a validation pass over [w]: the entities
    [visited] hold their result, the others are as they were, and the
    identifiers missed so far have their placeholder. *)
Definition partly_validated (w : World) (visited : list EntRef)
      (w' : World) : Prop :=
  same_indices (registry w) (registry w')
  ∧ (∀ ref, heap w' !! ref
            = if decide (ref ∈ visited) then validated w <$> heap w !! ref
              else heap w !! ref)
  ∧ (∀ k, JsMap.get k (absentGtsEntities (registry w'))
          = if decide (k ∈ missingOf w visited)
            then Some (createAbsentEntity X k)
            else JsMap.get k (absentGtsEntities (registry w))).

(** The world [c] is the world [a] with its objects under other
    references ([φ]), where an object of the main maps of [a] may already
    hold the result a pass over [a] gives it, and an identifier such a pass
    misses may already have its placeholder. *)
Definition renamed (φ : EntRef → EntRef) (a c : World) : Prop :=
  (∀ k, JsMap.get k (jsonSchemas (registry c))
        = φ <$> JsMap.get k (jsonSchemas (registry a)))
  ∧ (∀ k, JsMap.get k (jsonObjs (registry c))
          = φ <$> JsMap.get k (jsonObjs (registry a)))
  ∧ (∀ p, JsMap.get p (jsonFileObjs (registry c))
          = (λ refs : list EntRef, φ <$> refs)
              <$> JsMap.get p (jsonFileObjs (registry a)))
  ∧ (∀ p, JsMap.get p (jsonFileSchemas (registry c))
          = (λ refs : list EntRef, φ <$> refs)
              <$> JsMap.get p (jsonFileSchemas (registry a)))
  ∧ (∀ p, JsMap.get p (jsonFiles (registry c))
          = JsMap.get p (jsonFiles (registry a)))
  ∧ (∀ p, JsMap.get p (invalidFiles (registry c))
          = JsMap.get p (invalidFiles (registry a)))
  ∧ (∀ k, JsMap.get k (fetchCache (registry c))
          = JsMap.get k (fetchCache (registry a)))
  ∧ defaultFilePath (registry c) = defaultFilePath (registry a)
  ∧ (∀ r1 r2, r1 < length (heap a) → r2 < length (heap a) →
              φ r1 = φ r2 → r1 = r2)
  ∧ (∀ ref e, heap a !! ref = Some e →
       heap c !! φ ref = Some e
       ∨ (ref ∈ indexedRefs a ∧ heap c !! φ ref = Some (validated a e)))
  ∧ (∀ k, JsMap.get k (absentGtsEntities (registry c))
          = JsMap.get k (absentGtsEntities (registry a))
          ∨ (k ∈ missingOf a (indexedRefs a)
             ∧ JsMap.get k (absentGtsEntities (registry c))
               = Some (createAbsentEntity X k))).

End Notions.

(** The events of validating the given entities one after the other. *)
Definition validationEvents (entities : list EntRef) : list Event :=
  entities ≫= λ entity, [ValidationBegins entity; ValidationCompleted entity].

(** The typing of the two main maps: [jsonSchemas] holds [JsonSchema]
    objects and [jsonObjs] holds objects that are not. *)
Definition typed_indices (w : World) : Prop :=
  (∀ ref, ref ∈ JsMap.values (jsonSchemas (registry w)) →
     ∃ e, heap w !! ref = Some e ∧ JsonEntity.class e = IsJsonSchema)
  ∧ (∀ ref, ref ∈ JsMap.values (jsonObjs (registry w)) →
       ∃ e, heap w !! ref = Some e ∧ JsonEntity.class e ≠ IsJsonSchema).

(** What may follow the word [examples] in a path that names an examples
    region: nothing, an index, or a member. *)
Definition region_tail (tail : string) : Prop :=
  tail = "" ∨ ∃ t, tail = "[" +:+ t ∨ tail = "." +:+ t.

(** Every character of the string is a decimal digit. *)
Fixpoint all_digits (s : string) : bool :=
  match s with
  | EmptyString => true
  | String c s' => is_digit c && all_digits s'
  end.

(** The examples regions, as the spec describes them: [examples] at the
    root, or [examples] right under an indexed [allOf], [anyOf] or [oneOf],
    wherever that combinator is. *)
Inductive examples_region : string → Prop :=
| region_root tail :
    region_tail tail → examples_region ("examples" +:+ tail)
| region_combinator before name digits tail :
    name ∈ ["allOf"; "anyOf"; "oneOf"] →
    digits ≠ "" → all_digits digits = true →
    region_tail tail →
    examples_region
      (before +:+ name +:+ "[" +:+ digits +:+ "]." +:+ "examples" +:+ tail).

(** [sub] occurs in [s]. *)
Fixpoint occurs (sub s : string) : bool :=
  startsWith s sub
  || match s with
     | EmptyString => false
     | String _ s' => occurs sub s'
     end.

(** A path into a schema property named [examples]: the word follows
    [properties.], at any depth, and the path is not in an examples region
    on other grounds (it does not begin with [examples], and no [examples]
    in it follows an index). *)
Definition property_named_examples (p : string) : Prop :=
  ∃ before rest,
    p = before +:+ "properties.examples" +:+ rest
    ∧ startsWith p "examples" = false
    ∧ occurs "].examples" p = false.

(** Source paths as they are written: a first member, then members
    ([.name]) and indices ([[digits]]); and the pointer with the same
    steps, each after a slash. *)
Inductive Step := Member (name : string) | Index (digits : string).

Fixpoint plain_name (s : string) : bool :=
  match s with
  | EmptyString => true
  | String c s' =>
      negb (bool_decide (c = "."%char)) && negb (bool_decide (c = "["%char))
      && plain_name s'
  end.

Definition step_ok (st : Step) : bool :=
  match st with
  | Member name => plain_name name
  | Index digits => negb (bool_decide (digits = "")) && all_digits digits
  end.

Fixpoint dotted (steps : list Step) : string :=
  match steps with
  | [] => ""
  | Member name :: rest => "." +:+ name +:+ dotted rest
  | Index digits :: rest => "[" +:+ digits +:+ "]" +:+ dotted rest
  end.

Fixpoint slashed (steps : list Step) : string :=
  match steps with
  | [] => ""
  | Member name :: rest => "/" +:+ name +:+ slashed rest
  | Index digits :: rest => "/" +:+ digits +:+ slashed rest
  end.

(** A path with a directory named [.gts-viewer] on it: the name stands at
    the start of the path or right after a separator, and a separator
    follows it. *)
Definition in_viewer_directory (p : string) : Prop :=
  ∃ before sep rest,
    p = before +:+ ".gts-viewer" +:+ String sep rest
    ∧ is_sep sep = true
    ∧ (before = ""
       ∨ ∃ dir sep', before = dir +:+ String sep' "" ∧ is_sep sep' = true).

(** The entities listed under a path, objects first. *)
Definition ownedBy (r : JsonRegistry) (p : string) : list EntRef :=
  default [] (JsMap.get p (jsonFileObjs r))
  ++ default [] (JsMap.get p (jsonFileSchemas r)).

(** Each key of the two indices is the id of the entity under it, and the
    entity is of the class of its index. *)
Definition keyed_by_id (w : World) : Prop :=
  (∀ k ref, JsMap.get k (jsonSchemas (registry w)) = Some ref →
     ∃ e, heap w !! ref = Some e ∧ JsonEntity.id e = k
          ∧ JsonEntity.class e = IsJsonSchema)
  ∧ (∀ k ref, JsMap.get k (jsonObjs (registry w)) = Some ref →
       ∃ e, heap w !! ref = Some e ∧ JsonEntity.id e = k
            ∧ JsonEntity.class e ≠ IsJsonSchema).

(** Every entity of an index is listed under some path. *)
Definition no_orphans (w : World) : Prop :=
  (∀ k ref, JsMap.get k (jsonSchemas (registry w)) = Some ref →
     ∃ p, ref ∈ default [] (JsMap.get p (jsonFileSchemas (registry w))))
  ∧ (∀ k ref, JsMap.get k (jsonObjs (registry w)) = Some ref →
       ∃ p, ref ∈ default [] (JsMap.get p (jsonFileObjs (registry w)))).

(** A path is tracked in [jsonFiles] exactly when entities are listed
    under it. *)
Definition tracked_files_own_entities (w : World) : Prop :=
  ∀ p, JsMap.has p (jsonFiles (registry w)) = true
       ↔ ownedBy (registry w) p ≠ [].

(** The two file maps: a file is under its own path, [jsonFiles] holds
    documents that parsed and [invalidFiles] documents that did not, and no
    path is in both. *)
Definition files_by_path (w : World) : Prop :=
  (∀ p f, JsMap.get p (jsonFiles (registry w)) = Some f →
     JsonFile.path f = p ∧ hasParseErrors f = false)
  ∧ (∀ p f, JsMap.get p (invalidFiles (registry w)) = Some f →
       JsonFile.path f = p ∧ hasParseErrors f = true)
  ∧ (∀ p, JsMap.has p (jsonFiles (registry w)) = true →
          JsMap.has p (invalidFiles (registry w)) = false).

(** Every entity of an index holds a result of validation. *)
Definition indexed_validated (w : World) : Prop :=
  ∀ k ref e,
    JsMap.get k (jsonSchemas (registry w)) = Some ref
    ∨ JsMap.get k (jsonObjs (registry w)) = Some ref →
    heap w !! ref = Some e → JsonEntity.validation e ≠ None.

(** The invariants that read the six maps, and of each entity object its
    identifier and class. *)
Definition consistent (w : World) : Prop :=
  well_formed w ∧ keyed_by_id w ∧ files_by_path w
  ∧ tracked_files_own_entities w ∧ no_orphans w.

(** The placeholder under an identifier is the one made for it. *)
Definition placeholders_by_id (X : Collaborators) (w : World) : Prop :=
  ∀ k e, JsMap.get k (absentGtsEntities (registry w)) = Some e →
         e = createAbsentEntity X k.

(** The world without what validation writes: the results held by the
    entity objects, and the placeholders. *)
Definition unvalidated (w : World) : World :=
  mkWorld (JsonEntity.set_validation None <$> heap w)
    (with_absentGtsEntities [] (registry w)).

(** ** The node model of the diagram

    [SchemaNodeModel] keeps, beside the state of a node on the canvas, the
    state it had when the layout was last loaded or saved, and tells
    whether the two differ.  The fields below are those its layout methods
    read and write.  Numbers come with their strict equality ([===]), which
    need not hold of a number and itself; a [Record<string, boolean>] is a
    map from keys to booleans. *)

Module SchemaNodeModel.
Section model.
Context {Number : Type} (strictEq : Number → Number → bool).

Record Position := mkPosition { x : Number; y : Number }.

Record t := mk {
    position : Position;
    expanded : bool;
    rawView : bool;
    showExamples : bool;
    sections : JsMap.t bool;
    snapshotChecked : bool;
    origExpanded : bool;
    origRawView : bool;
    origShowExamples : bool;
    origPosition : Position;
    origSections : JsMap.t bool
  }.

(** [initLayout] *)
Definition initLayout (position : Position) (expanded rawView : bool)
    (sections : JsMap.t bool) (showExamples : option bool) (m : t) : t :=
  mk (mkPosition (x position) (y position)) expanded rawView
     (default false showExamples) sections true
     expanded rawView (default false showExamples)
     (mkPosition (x position) (y position)) sections.

(** [updatePosition] *)
Definition updatePosition (p : Position) (m : t) : t :=
  mk (mkPosition (x p) (y p)) (expanded m) (rawView m) (showExamples m)
     (sections m) (snapshotChecked m) (origExpanded m) (origRawView m)
     (origShowExamples m) (origPosition m) (origSections m).

(** [this.sections[key] !== this.origSections[key]] *)
Definition sectionDiffers (m : t) (key : string) : bool :=
  negb (bool_decide (JsMap.get key (sections m)
                     = JsMap.get key (origSections m))).

(** [isDirty] *)
Definition isDirty (m : t) : bool :=
  if negb (Bool.eqb (rawView m) (origRawView m)) then true
  else if negb (Bool.eqb (showExamples m) (origShowExamples m)) then true
  else if negb (strictEq (x (position m)) (x (origPosition m)))
          || negb (strictEq (y (position m)) (y (origPosition m)))
  then true
  else if negb (Bool.eqb (expanded m) (origExpanded m)) then true
  else
    let sectionsKeys := JsMap.keys (sections m) in
    let origSectionsKeys := JsMap.keys (origSections m) in
    if negb (length sectionsKeys =? length origSectionsKeys) then true
    else if existsb (sectionDiffers m) sectionsKeys then true
    else if existsb (sectionDiffers m) origSectionsKeys then true
    else false.

(** [resetDirtyBaseline] *)
Definition resetDirtyBaseline (m : t) : t :=
  mk (position m) (expanded m) (rawView m) (showExamples m) (sections m)
     (snapshotChecked m) (expanded m) (rawView m) (showExamples m)
     (mkPosition (x (position m)) (y (position m))) (sections m).

End model.
End SchemaNodeModel.

(** * Properties *)

(** ** The regular expressions on sample paths *)

Example refInstancePath_contact :
  refInstancePath "contact.gtsIid" = "/contact/gtsIid".
Proof. reflexivity. Qed.

Example refInstancePath_index :
  refInstancePath "allOf[12].items[0].gtsIid" = "/allOf/12/items/0/gtsIid".
Proof. reflexivity. Qed.

Example refInstancePath_open_bracket :
  refInstancePath "a[b].c[3" = "/a[b]/c[3".
Proof. reflexivity. Qed.

Example match_data_path_trims :
  match_data_path "strict mode: data/properties/x. is bad"
  = Some "/properties/x".
Proof. reflexivity. Qed.

Example inGtsViewerDir_examples :
  inGtsViewerDir ".gts-viewer/layout.json" = true
  ∧ inGtsViewerDir "repo\.gts-viewer\a.json" = true
  ∧ inGtsViewerDir "repo/x.gts-viewer/a.json" = false.
Proof. repeat split; reflexivity. Qed.

(** ** Lookups in a [JsMap] *)

Section JsMapFacts.
Context {V : Type}.
Implicit Types (m : JsMap.t V) (k : string) (v : V).

Lemma get_set m k v k' :
  JsMap.get k' (JsMap.set k v m)
  = if decide (k = k') then Some v else JsMap.get k' m.
Proof.
  induction m as [|[k0 v0] m IH]; simpl.
  - repeat case_decide; congruence.
  - destruct (decide (k = k0)) as [-> |Hne]; simpl.
    + repeat case_decide; congruence.
    + rewrite IH. repeat case_decide; congruence.
Qed.

Lemma get_set_eq m k v : JsMap.get k (JsMap.set k v m) = Some v.
Proof. rewrite get_set. by rewrite decide_True. Qed.

Lemma get_set_ne m k v k' :
  k ≠ k' → JsMap.get k' (JsMap.set k v m) = JsMap.get k' m.
Proof. intros. rewrite get_set. by rewrite decide_False. Qed.

Lemma get_delete m k k' :
  JsMap.get k' (JsMap.delete k m)
  = if decide (k = k') then None else JsMap.get k' m.
Proof.
  unfold JsMap.delete.
  induction m as [|[k0 v0] m IH].
  - simpl. by case_decide.
  - rewrite filter_cons. cbn [fst].
    destruct (decide (k0 ≠ k)) as [Hne|Heq].
    + cbn [JsMap.get]. rewrite IH. repeat case_decide; congruence.
    + apply dec_stable in Heq. subst k0.
      rewrite IH. cbn [JsMap.get]. repeat case_decide; congruence.
Qed.

Lemma get_delete_eq m k : JsMap.get k (JsMap.delete k m) = None.
Proof. rewrite get_delete. by rewrite decide_True. Qed.

Lemma get_delete_ne m k k' :
  k ≠ k' → JsMap.get k' (JsMap.delete k m) = JsMap.get k' m.
Proof. intros. rewrite get_delete. by rewrite decide_False. Qed.

Lemma has_false_get m k : JsMap.has k m = false ↔ JsMap.get k m = None.
Proof. unfold JsMap.has. destruct (JsMap.get k m); naive_solver. Qed.

Lemma has_true_get m k : JsMap.has k m = true ↔ is_Some (JsMap.get k m).
Proof.
  unfold JsMap.has. destruct (JsMap.get k m); naive_solver.
Qed.

(** Deleting a key that is not there changes nothing, so the guard
    [if (m.has(k)) m.delete(k)] is [m.delete(k)]. *)
Lemma delete_absent m k : JsMap.get k m = None → JsMap.delete k m = m.
Proof.
  unfold JsMap.delete.
  induction m as [|[k0 v0] m IH]; [done|].
  cbn [JsMap.get]. case_decide; [done|]. intros Hg.
  rewrite filter_cons. cbn [fst]. rewrite decide_True by congruence.
  by rewrite IH.
Qed.

Lemma get_values m k v : JsMap.get k m = Some v → v ∈ JsMap.values m.
Proof.
  unfold JsMap.values.
  induction m as [|[k0 v0] m IH]; simpl; [done|].
  case_decide.
  - intros [= ->]. left.
  - intros. right. by apply IH.
Qed.
End JsMapFacts.

(** ** [invalidateFile], field by field *)

Ltac invalidate_cases r :=
  destruct r as [o s f i fo fs a c d];
  cbv [invalidateFile with_jsonObjs with_jsonSchemas with_jsonFiles
       with_invalidFiles with_jsonFileObjs with_jsonFileSchemas
       jsonObjs jsonSchemas jsonFiles invalidFiles jsonFileObjs
       jsonFileSchemas absentGtsEntities fetchCache defaultFilePath];
  destruct (JsMap.has _ f) eqn:Hf; destruct (JsMap.has _ i) eqn:Hi;
  destruct (JsMap.get _ fo); destruct (JsMap.get _ fs); try done.

Section InvalidateFacts.
Implicit Types (h : Heap) (p : string) (r : JsonRegistry).

Lemma invalidateFile_jsonFiles h p r :
  jsonFiles (invalidateFile h p r) = JsMap.delete p (jsonFiles r).
Proof.
  invalidate_cases r; symmetry; apply delete_absent; by apply has_false_get.
Qed.

Lemma invalidateFile_invalidFiles h p r :
  invalidFiles (invalidateFile h p r) = JsMap.delete p (invalidFiles r).
Proof.
  invalidate_cases r; symmetry; apply delete_absent; by apply has_false_get.
Qed.

Lemma invalidateFile_jsonObjs h p r :
  jsonObjs (invalidateFile h p r)
  = match JsMap.get p (jsonFileObjs r) with
    | Some listed => delete_listed h listed (jsonObjs r)
    | None => jsonObjs r
    end.
Proof.
  invalidate_cases r.
Qed.

Lemma invalidateFile_jsonSchemas h p r :
  jsonSchemas (invalidateFile h p r)
  = match JsMap.get p (jsonFileSchemas r) with
    | Some listed => delete_listed h listed (jsonSchemas r)
    | None => jsonSchemas r
    end.
Proof.
  invalidate_cases r.
Qed.

Lemma invalidateFile_jsonFileObjs h p r :
  jsonFileObjs (invalidateFile h p r)
  = match JsMap.get p (jsonFileObjs r) with
    | Some _ => JsMap.set p [] (JsMap.delete p (jsonFileObjs r))
    | None => jsonFileObjs r
    end.
Proof.
  invalidate_cases r.
Qed.

Lemma invalidateFile_jsonFileSchemas h p r :
  jsonFileSchemas (invalidateFile h p r)
  = match JsMap.get p (jsonFileSchemas r) with
    | Some _ => JsMap.set p [] (JsMap.delete p (jsonFileSchemas r))
    | None => jsonFileSchemas r
    end.
Proof.
  invalidate_cases r.
Qed.

Lemma invalidateFile_absentGtsEntities h p r :
  absentGtsEntities (invalidateFile h p r) = absentGtsEntities r.
Proof.
  invalidate_cases r.
Qed.

Lemma invalidateFile_fetchCache h p r :
  fetchCache (invalidateFile h p r) = fetchCache r.
Proof.
  invalidate_cases r.
Qed.

Lemma invalidateFile_defaultFilePath h p r :
  defaultFilePath (invalidateFile h p r) = defaultFilePath r.
Proof.
  invalidate_cases r.
Qed.

(** The ownership list of the invalidated path is reset to empty when there
    was one, and stays missing otherwise. *)
Lemma invalidateFile_owned_objs h p r :
  JsMap.get p (jsonFileObjs (invalidateFile h p r))
  = (λ _, []) <$> JsMap.get p (jsonFileObjs r).
Proof.
  rewrite invalidateFile_jsonFileObjs.
  destruct (JsMap.get p (jsonFileObjs r)) eqn:E; simpl; [|done].
  apply get_set_eq.
Qed.

Lemma invalidateFile_owned_schemas h p r :
  JsMap.get p (jsonFileSchemas (invalidateFile h p r))
  = (λ _, []) <$> JsMap.get p (jsonFileSchemas r).
Proof.
  rewrite invalidateFile_jsonFileSchemas.
  destruct (JsMap.get p (jsonFileSchemas r)) eqn:E; simpl; [|done].
  apply get_set_eq.
Qed.

(** [delete_listed] removes exactly the keys that are ids of listed
    objects. *)
Lemma get_delete_listed h listed (index : JsMap.t EntRef) k :
  JsMap.get k (delete_listed h listed index)
  = if decide (k ∈ listed_ids h listed) then None else JsMap.get k index.
Proof.
  unfold delete_listed, listed_ids.
  revert index. induction listed as [|ref listed IH]; intros index.
  - done.
  - cbn [foldl omap list_omap]. rewrite IH.
    destruct (h !! ref) as [e|] eqn:E; cbn [fmap option_fmap option_map];
      [|done].
    rewrite get_delete.
    set (ids := omap (λ ref0 : EntRef, JsonEntity.id <$> h !! ref0) listed).
    destruct (decide (k ∈ ids)) as [Hin|Hnin].
    * rewrite decide_True; [done|by right].
    * destruct (decide (JsonEntity.id e = k)) as [<- |Hne].
      -- rewrite decide_True; [done|left].
      -- rewrite decide_False; [done|].
         intros [?|?]%elem_of_cons; congruence.
Qed.
End InvalidateFacts.

(** ** [reset] and the default-file pointer *)

(** What [reset] clears, and the one map it passes over: the method has no
    statement for [absentGtsEntities]. *)
Lemma reset_fields (r : JsonRegistry) :
  reset r
  = mkRegistry [] [] [] [] [] [] (absentGtsEntities r) [] None.
Proof. by destruct r. Qed.

(** C7, evaluated on the code: after a validation pass has recorded a
    placeholder for the missing identifier [S2], [reset] empties the six
    entity and file maps and the pointer, and the placeholder map still holds
    [S2]. *)
Theorem reset_keeps_absent_placeholder :
  let r :=
    registry (ingestFiles Sample.X [Sample.fileC] tt Sample.emptyWorld) in
  JsMap.has "S2" (absentGtsEntities r) = true
  ∧ jsonSchemas (reset r) = [] ∧ jsonObjs (reset r) = []
  ∧ jsonFiles (reset r) = [] ∧ invalidFiles (reset r) = []
  ∧ jsonFileObjs (reset r) = [] ∧ jsonFileSchemas (reset r) = []
  ∧ defaultFilePath (reset r) = None
  ∧ JsMap.has "S2" (absentGtsEntities (reset r)) = true
  ∧ absentGtsEntities (reset r) ≠ [].
Proof. vm_compute. repeat split; done. Qed.

Lemma truthy_Some (p : string) : p ≠ "" → truthy (Some p) = Some p.
Proof. intros. unfold truthy. by rewrite decide_False. Qed.

(** C10: [invalidateFile] leaves the default-file pointer alone.  After
    [setDefaultFile(p)] and [invalidateFile(p)] (for a path [p], a non-empty
    string), [getDefaultFilePath()] is still [p] and [getDefaultFile()] is
    [undefined]; invalidating any path keeps the pointer; [reset] clears it;
    [setDefaultFile(null)] puts the path of the first tracked file, or
    [null], in its place. *)
Theorem invalidateFile_keeps_default_pointer
    (h : Heap) (p : string) (r : JsonRegistry) :
  p ≠ "" →
  let r1 := invalidateFile h p (setDefaultFile (Some p) r) in
  getDefaultFilePath r1 = Some p
  ∧ getDefaultFile r1 = None
  ∧ (∀ q, defaultFilePath (invalidateFile h q r1) = defaultFilePath r1)
  ∧ getDefaultFilePath (reset r1) = None
  ∧ defaultFilePath (setDefaultFile None r1)
    = truthy (JsonFile.path <$> head (JsMap.values (jsonFiles r1))).
Proof.
  intros Hp r1.
  assert (Hd : defaultFilePath r1 = Some p).
  { unfold r1. rewrite invalidateFile_defaultFilePath.
    unfold setDefaultFile. rewrite truthy_Some by done. by destruct r. }
  split_and!.
  - unfold getDefaultFilePath. rewrite Hd. by apply truthy_Some.
  - unfold getDefaultFile. rewrite Hd, truthy_Some by done.
    unfold r1. rewrite invalidateFile_jsonFiles. apply get_delete_eq.
  - intros q. apply invalidateFile_defaultFilePath.
  - by rewrite reset_fields.
  - unfold setDefaultFile. cbn [truthy]. by destruct r1.
Qed.

(** An empty string is falsy: [setDefaultFile("")] is [setDefaultFile(null)]. *)
Lemma setDefaultFile_empty_string (r : JsonRegistry) :
  setDefaultFile (Some "") r = setDefaultFile None r.
Proof. reflexivity. Qed.

Lemma invalidateFile_keeps_default_pointer_witness :
  let r1 :=
    invalidateFile [] "a.json" (setDefaultFile (Some "a.json") newRegistry) in
  getDefaultFilePath r1 = Some "a.json"
  ∧ getDefaultFile r1 = None
  ∧ (∀ q, defaultFilePath (invalidateFile [] q r1) = defaultFilePath r1)
  ∧ getDefaultFilePath (reset r1) = None
  ∧ defaultFilePath (setDefaultFile None r1)
    = truthy (JsonFile.path <$> head (JsMap.values (jsonFiles r1))).
Proof.
  apply (invalidateFile_keeps_default_pointer [] "a.json" newRegistry).
  done.
Defined.

(** ** One entity's validation, in closed form *)

Lemma push_errors_nil (e : JsonEntity.t) : JsonEntity.push_errors [] e = e.
Proof.
  unfold JsonEntity.push_errors, JsonEntity.set_validation.
  destruct e as [? ? ? ? ? ? ? ? [[errs]|]]; simpl; [|done].
  by rewrite app_nil_r.
Qed.

Lemma push_errors_app (a b : list ValidationError.t) (e : JsonEntity.t) :
  JsonEntity.push_errors b (JsonEntity.push_errors a e)
  = JsonEntity.push_errors (a ++ b) e.
Proof.
  unfold JsonEntity.push_errors, JsonEntity.set_validation.
  destruct e as [? ? ? ? ? ? ? ? [[errs]|]]; simpl; [|done].
  by rewrite app_assoc.
Qed.

Section ValidationFacts.
Context (X : Collaborators).
Implicit Types (w : World) (r : JsonRegistry) (e : JsonEntity.t).

Lemma refErrors_cons r ref refs :
  refErrors r (ref :: refs)
  = if reported r ref then refError ref :: refErrors r refs
    else refErrors r refs.
Proof.
  unfold refErrors. rewrite filter_cons.
  destruct (reported r ref); [by rewrite decide_True|].
  by rewrite decide_False by (by intros []).
Qed.

Lemma missingIds_cons r ref refs :
  missingIds r (ref :: refs)
  = if reported r ref then GtsRef.id ref :: missingIds r refs
    else missingIds r refs.
Proof.
  unfold missingIds. rewrite filter_cons.
  destruct (reported r ref); [by rewrite decide_True|].
  by rewrite decide_False by (by intros []).
Qed.

Lemma refErrors_app r refs1 refs2 :
  refErrors r (refs1 ++ refs2) = refErrors r refs1 ++ refErrors r refs2.
Proof. unfold refErrors. by rewrite filter_app, fmap_app. Qed.

(** The loop over [entity.gtsRefs]. *)
Lemma checkRefs_closed entity refs w :
  foldl (checkRef X entity) w refs
  = mkWorld
      (alter (JsonEntity.push_errors (refErrors (registry w) refs)) entity
         (heap w))
      (with_absentGtsEntities
         (recordAbsent X (missingIds (registry w) refs)
            (absentGtsEntities (registry w)))
         (registry w)).
Proof.
  revert w. induction refs as [|ref refs IH]; intros [h r].
  - cbn [foldl heap registry].
    change (refErrors r []) with (@nil ValidationError.t).
    rewrite list_alter_id by apply push_errors_nil. by destruct r.
  - cbn [foldl]. rewrite IH. clear IH.
    cbn [heap registry]. rewrite refErrors_cons, missingIds_cons.
    unfold checkRef. cbn [heap registry]. unfold reported.
    destruct (isInExamples (GtsRef.sourcePath ref)); cbn [negb andb];
      [done|].
    destruct (refExists (GtsRef.id ref) r) eqn:Hex; cbn [negb]; [done|].
    unfold update_entity. cbn [heap registry].
    rewrite list_alter_alter_eq. f_equal.
    apply list_alter_ext; [|done]. intros e _.
    unfold compose. rewrite push_errors_app. by destruct r.
Qed.

Lemma loadSchema_ext w1 w2 :
  (∀ i, schemaContent w1 i = schemaContent w2 i) →
  loadSchema X w1 = loadSchema X w2.
Proof.
  intros Hc. apply functional_extensionality. intros uri.
  unfold loadSchema. case_match; [done|].
  specialize (Hc (decodeGtsId X uri)). unfold schemaContent in Hc.
  destruct (resolveSchema _ w1), (resolveSchema _ w2);
    simpl in Hc; congruence.
Qed.

Lemma schemaPhaseErrors_ext w1 w2 e :
  (∀ i, schemaContent w1 i = schemaContent w2 i) →
  schemaPhaseErrors X w1 e = schemaPhaseErrors X w2 e.
Proof.
  intros Hc. unfold schemaPhaseErrors, objectErrors.
  rewrite (loadSchema_ext w1 w2 Hc).
  destruct (JsonEntity.class e); try done.
  destruct (truthy (JsonEntity.schemaId e)) as [sid|]; [|done].
  specialize (Hc sid). unfold schemaContent in Hc.
  destruct (resolveSchema sid w1), (resolveSchema sid w2);
    simpl in Hc; try congruence.
  assert (JsonEntity.content t = JsonEntity.content t0) as -> by congruence.
  done.
Qed.
End ValidationFacts.

(** ** Validation: closed form of [validateEntity] and its frame *)

Section ValidateEntityFacts.
Context (X : Collaborators).
Implicit Types (w : World) (r : JsonRegistry) (e : JsonEntity.t).

Lemma schemaContent_alter f entity h r r' i :
  (∀ e, JsonEntity.content (f e) = JsonEntity.content e) →
  jsonSchemas r' = jsonSchemas r →
  schemaContent (mkWorld (alter f entity h) r') i
  = schemaContent (mkWorld h r) i.
Proof.
  intros Hf Hs. unfold schemaContent, resolveSchema, resolveSchemaRef.
  cbn [heap registry]. rewrite Hs.
  destruct (JsMap.get _ (jsonSchemas r)) as [ref|]; [|done].
  cbn. rewrite list_lookup_alter. case_decide; [|done]. subst.
  destruct (h !! ref); [|done]. cbn. by rewrite Hf.
Qed.

Lemma content_push_errors errs e :
  JsonEntity.content (JsonEntity.push_errors errs e) = JsonEntity.content e.
Proof. unfold JsonEntity.push_errors. by case_match. Qed.

Lemma push_errors_set_validation errs v e :
  JsonEntity.push_errors errs
    (JsonEntity.set_validation (Some {| errors := v |}) e)
  = JsonEntity.set_validation (Some {| errors := v ++ errs |}) e.
Proof. reflexivity. Qed.

Lemma validateEntity_closed entity w e :
  heap w !! entity = Some e →
  validateEntity X entity w
  = mkWorld
      (<[entity := validated X w e]> (heap w))
      (with_absentGtsEntities
         (recordAbsent X (missingIds (registry w) (JsonEntity.gtsRefs e))
            (absentGtsEntities (registry w)))
         (registry w)).
Proof.
  intros He. unfold validateEntity. rewrite He.
  rewrite checkRefs_closed. unfold update_entity. cbn [heap registry].
  rewrite list_alter_alter_eq.
  set (errsA := refErrors (registry w) (JsonEntity.gtsRefs e)).
  destruct (validationDisabled X) eqn:Hd.
  - f_equal. rewrite list_insert_alter.
    apply list_alter_ext; [|done]. intros e1 He1.
    assert (e1 = e) as -> by congruence.
    unfold compose. rewrite push_errors_set_validation.
    unfold validated. rewrite Hd. by rewrite app_nil_r.
  - cbn [heap registry]. rewrite list_alter_alter_eq. f_equal.
    rewrite list_insert_alter.
    apply list_alter_ext; [|done]. intros e1 He1.
    assert (e1 = e) as -> by congruence.
    unfold compose. rewrite !push_errors_set_validation.
    unfold validated. rewrite Hd. cbn [app].
    do 4 f_equal.
    apply schemaPhaseErrors_ext. intros i.
    destruct w as [h r]. cbn [heap registry].
    apply schemaContent_alter; [|done].
    intros e2. unfold compose. by rewrite content_push_errors.
Qed.

Lemma validateEntity_dangling entity w :
  heap w !! entity = None → validateEntity X entity w = w.
Proof. intros He. unfold validateEntity. by rewrite He. Qed.

Lemma revalidated_refl e : revalidated e e.
Proof. unfold revalidated. by destruct e. Qed.

Lemma revalidated_trans e1 e2 e3 :
  revalidated e1 e2 → revalidated e2 e3 → revalidated e1 e3.
Proof. unfold revalidated. intros -> ->. done. Qed.

Lemma validation_frame_refl w : validation_frame w w.
Proof.
  repeat split. intros ref e He. exists e. split; [done|].
  apply revalidated_refl.
Qed.

Lemma validation_frame_trans w1 w2 w3 :
  validation_frame w1 w2 → validation_frame w2 w3 → validation_frame w1 w3.
Proof.
  unfold validation_frame, same_indices.
  intros (Hr1 & Hl1 & He1) (Hr2 & Hl2 & He2).
  split; [|split].
  - destruct_and!. repeat split; congruence.
  - congruence.
  - intros ref e He. destruct (He1 _ _ He) as (e' & He' & Hre).
    destruct (He2 _ _ He') as (e'' & He'' & Hre').
    exists e''. split; [done|]. by eapply revalidated_trans.
Qed.

Lemma validateEntity_frame entity w :
  validation_frame w (validateEntity X entity w).
Proof.
  destruct (heap w !! entity) as [e|] eqn:He.
  - rewrite (validateEntity_closed _ _ _ He).
    split; [|split]; cbn [heap registry].
    + by destruct (registry w).
    + by rewrite length_insert.
    + intros ref e1 He1.
      destruct (decide (entity = ref)) as [-> |Hne].
      * assert (e1 = e) as -> by congruence.
        eexists. split.
        { apply list_lookup_insert_eq. by eapply lookup_lt_Some. }
        done.
      * exists e1. rewrite list_lookup_insert_ne by done.
        split; [done|]. apply revalidated_refl.
  - rewrite validateEntity_dangling by done. apply validation_frame_refl.
Qed.

(** The registry after [validateEntity]: the maps of before
    (the loops of [validateEntities] iterate over unchanging maps). *)
Lemma validateEntity_registry entity w :
  same_indices (registry w) (registry (validateEntity X entity w)).
Proof. apply validateEntity_frame. Qed.

Lemma validateEach_frame entities w t :
  validation_frame w (validateEach X entities (w, t)).1.
Proof.
  unfold validateEach.
  revert w t. induction entities as [|ref refs IH]; intros w t; cbn [foldl].
  - apply validation_frame_refl.
  - eapply validation_frame_trans; [|apply IH].
    cbn [fst]. apply validateEntity_frame.
Qed.

Lemma validateEntities_frame w :
  validation_frame w (validateEntities X w).
Proof.
  unfold validateEntities, validateEntitiesTraced. cbv zeta.
  destruct (validateEach X _ (w, [])) as [w1 t1] eqn:E. cbn [fst].
  eapply validation_frame_trans; [|apply validateEach_frame].
  change w1 with (w1, t1).1. rewrite <- E. apply validateEach_frame.
Qed.

End ValidateEntityFacts.

(** ** The validation pass *)

Section ValidationPass.
Context (X : Collaborators).
Implicit Types (w : World) (r : JsonRegistry) (e : JsonEntity.t).

(** C9: validation neither creates nor deletes entities.  After
    [validateEntities], and after [validateEntity] on any entity, the maps
    [jsonSchemas], [jsonObjs], [jsonFiles], [invalidFiles], [jsonFileObjs]
    and [jsonFileSchemas] are what they were, keys and entries alike (so
    are the fetch cache and the default-file pointer); the store holds the
    same objects under the same references, and an object differs from what
    it was in its [validation] at most. *)
Theorem validation_only_attaches_results (w : World) (entity : EntRef) :
  validation_frame w (validateEntities X w)
  ∧ validation_frame w (validateEntity X entity w).
Proof. split; [apply validateEntities_frame|apply validateEntity_frame]. Qed.

Lemma validateEach_events entities w t :
  (validateEach X entities (w, t)).2 = t ++ validationEvents entities.
Proof.
  unfold validateEach, validationEvents.
  revert w t. induction entities as [|ref refs IH]; intros w t; cbn [foldl].
  - cbn. by rewrite app_nil_r.
  - rewrite IH. cbn [snd]. rewrite <- app_assoc. done.
Qed.

(** The events of a full pass: the schemas in the order of [jsonSchemas],
    then the objects in the order of [jsonObjs]. *)
Lemma validateEntitiesTraced_events w :
  (validateEntitiesTraced X w).2
  = validationEvents (JsMap.values (jsonSchemas (registry w)))
    ++ validationEvents (JsMap.values (jsonObjs (registry w))).
Proof.
  unfold validateEntitiesTraced. cbv zeta.
  pose proof (validateEach_frame X
                (JsMap.values (jsonSchemas (registry w))) w []) as Hf.
  pose proof (validateEach_events
                (JsMap.values (jsonSchemas (registry w))) w []) as Ht.
  destruct (validateEach X _ (w, [])) as [w1 t1]. cbn [fst snd] in *.
  rewrite validateEach_events. subst t1. cbn [app].
  destruct Hf as ((_ & -> & _) & _). done.
Qed.

Lemma elem_of_validationEvents ev entities :
  ev ∈ validationEvents entities ↔
  ∃ ref, ref ∈ entities
         ∧ (ev = ValidationBegins ref ∨ ev = ValidationCompleted ref).
Proof.
  unfold validationEvents. rewrite list_elem_of_bind.
  split.
  - intros (ref & Hev & Hin). exists ref. split; [done|].
    apply elem_of_cons in Hev as [-> |Hev]; [by left|].
    apply elem_of_cons in Hev as [-> |Hev]; [by right|].
    by apply elem_of_nil in Hev.
  - intros (ref & Hin & [-> | ->]); exists ref; split; try done.
    + left.
    + right. left.
Qed.

(** In a typed registry no object is in both main maps. *)
Lemma typed_indices_disjoint w ref :
  typed_indices w →
  ref ∈ JsMap.values (jsonSchemas (registry w)) →
  ref ∈ JsMap.values (jsonObjs (registry w)) → False.
Proof.
  intros [Hs Ho] Hin1 Hin2.
  destruct (Hs _ Hin1) as (e1 & He1 & Hc1).
  destruct (Ho _ Hin2) as (e2 & He2 & Hc2). congruence.
Qed.


End ValidationPass.

(** ** Examples regions and the paths of reference errors *)

Lemma strip_prefix_app (p s : string) : strip_prefix p (p +:+ s) = Some s.
Proof.
  induction p as [|c p IH]; [done|].
  change (String c p +:+ s) with (String c (p +:+ s)).
  cbn [strip_prefix]. by rewrite decide_True.
Qed.

Lemma examples_here_tail (tail : string) :
  region_tail tail → examples_here ("examples" +:+ tail) = true.
Proof.
  intros [-> |(t & [-> | ->])]; reflexivity.
Qed.

Lemma span_digits_app (digits rest : string) (c : ascii) :
  all_digits digits = true → is_digit c = false →
  span is_digit (digits +:+ String c rest) = (digits, String c rest).
Proof.
  intros Hd Hc. induction digits as [|d ds IH].
  - change ("" +:+ String c rest) with (String c rest).
    cbn [span]. by rewrite Hc.
  - change (String d ds +:+ String c rest)
      with (String d (ds +:+ String c rest)).
    cbn [all_digits] in Hd. apply andb_prop in Hd as [Hd1 Hd2].
    cbn [span]. rewrite Hd1. by rewrite IH.
Qed.

Lemma combinator_name_stripped (name s : string) :
  name ∈ ["allOf"; "anyOf"; "oneOf"] →
  match strip_prefix "allOf" (name +:+ s) with
  | Some r => Some r
  | None =>
      match strip_prefix "anyOf" (name +:+ s) with
      | Some r => Some r
      | None => strip_prefix "oneOf" (name +:+ s)
      end
  end = Some s.
Proof.
  intros Hn.
  repeat (apply elem_of_cons in Hn as [-> |Hn]);
    [reflexivity..|by apply elem_of_nil in Hn].
Qed.

Lemma combinator_here_index (name digits rest : string) :
  name ∈ ["allOf"; "anyOf"; "oneOf"] →
  digits ≠ "" → all_digits digits = true →
  combinator_here (name +:+ "[" +:+ digits +:+ "]." +:+ rest) = Some rest.
Proof.
  intros Hn Hne Hd.
  assert (Hs : span is_digit (digits +:+ "]." +:+ rest)
               = (digits, "]." +:+ rest)).
  { apply (span_digits_app digits ("." +:+ rest) "]"%char); done. }
  unfold combinator_here. cbv zeta.
  rewrite (combinator_name_stripped name _ Hn).
  change ("[" +:+ digits +:+ "]." +:+ rest)
    with (String "["%char (digits +:+ "]." +:+ rest)).
  cbv iota. rewrite bool_decide_eq_true_2 by done. rewrite Hs.
  destruct digits; [done|]. apply strip_prefix_app.
Qed.

Lemma combinator_examples_app (before s : string) :
  combinator_examples s = true → combinator_examples (before +:+ s) = true.
Proof.
  intros Hs. induction before as [|c before IH]; [done|].
  change (String c before +:+ s) with (String c (before +:+ s)).
  cbn [combinator_examples]. rewrite IH.
  apply orb_true_r.
Qed.

Lemma combinator_examples_here (s r : string) :
  combinator_here s = Some r → examples_here r = true →
  combinator_examples s = true.
Proof.
  intros Hc He. destruct s; cbn [combinator_examples]; rewrite Hc, He; done.
Qed.

(** The test of the source accepts every path of an examples region. *)
Lemma isInExamples_region (p : string) :
  examples_region p → isInExamples p = true.
Proof.
  intros [tail Ht|before name digits tail Hn Hne Hd Ht]; unfold isInExamples.
  - by rewrite examples_here_tail.
  - rewrite (combinator_examples_app before).
    + by rewrite orb_true_r.
    + eapply combinator_examples_here.
      * by apply combinator_here_index.
      * by apply examples_here_tail.
Qed.

Lemma strip_prefix_Some (p s r : string) :
  strip_prefix p s = Some r → s = p +:+ r.
Proof.
  revert s. induction p as [|c p IH]; intros s; cbn [strip_prefix].
  - by intros [= ->].
  - destruct s as [|d s]; [done|]. case_decide; [|done]. subst d.
    intros Hs%IH. subst s. done.
Qed.

Lemma span_app (f : ascii → bool) (s a b : string) :
  span f s = (a, b) → s = a +:+ b.
Proof.
  revert a b. induction s as [|c s IH]; intros a b; cbn [span].
  - by intros [= <- <-].
  - destruct (f c); [|by intros [= <- <-]].
    destruct (span f s) as [a' b'] eqn:Hs. intros [= <- <-].
    change (String c a' +:+ b') with (String c (a' +:+ b')).
    f_equal. by apply IH.
Qed.

Lemma startsWith_app (sub s : string) : startsWith (sub +:+ s) sub = true.
Proof. unfold startsWith. by rewrite strip_prefix_app. Qed.

Lemma occurs_app (sub a b : string) :
  occurs sub (a +:+ sub +:+ b) = true.
Proof.
  induction a as [|c a IH].
  - change ("" +:+ sub +:+ b) with (sub +:+ b).
    destruct (sub +:+ b) eqn:E; cbn [occurs]; rewrite <- E;
      by rewrite startsWith_app.
  - change (String c a +:+ sub +:+ b) with (String c (a +:+ sub +:+ b)).
    cbn [occurs]. rewrite IH. apply orb_true_r.
Qed.

Lemma examples_here_starts (s : string) :
  examples_here s = true → ∃ tail, s = "examples" +:+ tail.
Proof.
  unfold examples_here.
  destruct (strip_prefix "examples" s) as [tail|] eqn:Hs; [|done].
  intros _. exists tail. by apply strip_prefix_Some.
Qed.

Lemma combinator_here_closing (s r : string) :
  combinator_here s = Some r → ∃ a, s = a +:+ "]." +:+ r.
Proof.
  unfold combinator_here.
  set (after_name := match strip_prefix "allOf" s with
                     | Some r => Some r
                     | None => _
                     end).
  assert (Hname : ∀ t, after_name = Some t → ∃ name, s = name +:+ t).
  { intros t. unfold after_name.
    destruct (strip_prefix "allOf" s) as [t1|] eqn:H1.
    { intros [= ->]. exists "allOf". by apply strip_prefix_Some. }
    destruct (strip_prefix "anyOf" s) as [t2|] eqn:H2.
    { intros [= ->]. exists "anyOf". by apply strip_prefix_Some. }
    intros H3. exists "oneOf". by apply strip_prefix_Some. }
  destruct after_name as [[|c t]|]; [done| |done].
  destruct (Hname _ eq_refl) as [name ->].
  case_bool_decide; [subst c|done].
  destruct (span is_digit t) as [ds t'] eqn:Hspan.
  apply span_app in Hspan as ->.
  destruct ds as [|d ds]; [done|].
  intros ->%strip_prefix_Some.
  exists (name +:+ String "["%char (String d ds)).
  clear. induction name as [|x name IH]; [|].
  - change ("" +:+ ?u) with u.
    change (String "[" (String d ds +:+ "]." +:+ r)
            = String "[" ((String d ds) +:+ "]." +:+ r)). done.
  - change (String x name +:+ ?u) with (String x (name +:+ u)).
    by rewrite IH.
Qed.

Lemma combinator_examples_occurs (s : string) :
  combinator_examples s = true → occurs "].examples" s = true.
Proof.
  induction s as [|c s IH].
  - intros H. vm_compute in H. discriminate.
  - cbn [combinator_examples occurs].
    intros [Hhere|Hrest%IH]%orb_prop; [|rewrite Hrest; apply orb_true_r].
    destruct (combinator_here (String c s)) as [r|] eqn:Hc; [|done].
    apply examples_here_starts in Hhere as (tail & ->).
    apply combinator_here_closing in Hc as [a Ha].
    pose proof (occurs_app "].examples" a tail) as Ho.
    change ("].examples" +:+ tail) with ("]." +:+ "examples" +:+ tail) in Ho.
    rewrite <- Ha in Ho. cbn [occurs] in Ho. exact Ho.
Qed.

Lemma examples_here_startsWith (s : string) :
  startsWith s "examples" = false → examples_here s = false.
Proof.
  unfold startsWith, examples_here.
  by destruct (strip_prefix "examples" s).
Qed.

(** ... and rejects the paths into a property named [examples]. *)
Lemma isInExamples_property (p : string) :
  property_named_examples p → isInExamples p = false.
Proof.
  intros (before & rest & _ & Hstart & Hocc). unfold isInExamples.
  rewrite (examples_here_startsWith p Hstart).
  destruct (combinator_examples p) eqn:Hc; [|done].
  apply combinator_examples_occurs in Hc. congruence.
Qed.

(** ** The slash conversion of source paths *)

Lemma replace_dots_app (a b : string) :
  replace_dots (a +:+ b) = replace_dots a +:+ replace_dots b.
Proof.
  induction a as [|x a IH]; [done|].
  change (String x a +:+ b) with (String x (a +:+ b)).
  cbn [replace_dots]. rewrite IH. done.
Qed.

Lemma plain_name_cons c s :
  plain_name (String c s) = true →
  c ≠ "."%char ∧ c ≠ "["%char ∧ plain_name s = true.
Proof.
  cbn [plain_name]. intros [[H1 H2]%andb_prop H3]%andb_prop.
  apply negb_true_iff, bool_decide_eq_false in H1, H2. done.
Qed.

Lemma is_digit_not_special c :
  is_digit c = true → c ≠ "."%char ∧ c ≠ "["%char.
Proof. intros H. split; intros ->; vm_compute in H; discriminate. Qed.

Lemma all_digits_plain d : all_digits d = true → plain_name d = true.
Proof.
  induction d as [|c d IH]; [done|]. cbn [all_digits plain_name].
  intros [Hc Hd]%andb_prop. apply is_digit_not_special in Hc as [H1 H2].
  rewrite !bool_decide_eq_false_2 by done. cbn. by apply IH.
Qed.

Lemma replace_dots_plain s : plain_name s = true → replace_dots s = s.
Proof.
  induction s as [|c s IH]; [done|].
  intros (H1 & H2 & H3)%plain_name_cons. cbn [replace_dots].
  rewrite bool_decide_eq_false_2 by done. by rewrite IH.
Qed.

(** A stretch without an opening bracket is copied. *)
Lemma replace_indices_plain u s :
  plain_name u = true →
  replace_indices 0 (u +:+ s) = u +:+ replace_indices 0 s.
Proof.
  induction u as [|c u IH]; [done|].
  intros (H1 & H2 & H3)%plain_name_cons.
  change (String c u +:+ s) with (String c (u +:+ s)).
  cbn [replace_indices]. rewrite bool_decide_eq_false_2 by done.
  rewrite IH by done. done.
Qed.

(** The counter passes over as many characters as it says. *)
Lemma replace_indices_skip t k s :
  replace_indices (String.length t + k) (t +:+ s) = replace_indices k s.
Proof.
  induction t as [|c t IH]; [done|].
  change (String c t +:+ s) with (String c (t +:+ s)).
  cbn [String.length Nat.add replace_indices]. apply IH.
Qed.

(** An index becomes a slash and its digits. *)
Lemma replace_indices_index d s :
  d ≠ "" → all_digits d = true →
  replace_indices 0 ("[" +:+ d +:+ "]" +:+ s)
  = "/" +:+ d +:+ replace_indices 0 s.
Proof.
  intros Hne Hd.
  change ("[" +:+ d +:+ "]" +:+ s) with (String "["%char (d +:+ String "]"%char s)).
  cbn [replace_indices]. rewrite bool_decide_eq_true_2 by done.
  rewrite (span_digits_app d s "]"%char) by done.
  destruct d as [|c d]; [done|].
  rewrite bool_decide_eq_true_2 by done.
  replace (S (String.length (String c d)))
    with (String.length (String c d) + 1) by lia.
  rewrite replace_indices_skip.
  change (replace_indices 1 (String "]"%char s)) with (replace_indices 0 s).
  done.
Qed.

Lemma slash_conversion_steps steps :
  forallb step_ok steps = true →
  replace_indices 0 (replace_dots (dotted steps)) = slashed steps.
Proof.
  induction steps as [|[name|digits] steps IH]; [done|..];
    cbn [forallb step_ok dotted slashed]; intros [Hok Hrest]%andb_prop.
  - rewrite !replace_dots_app, (replace_dots_plain name) by done.
    change (replace_dots ".") with "/".
    change ("/" +:+ name +:+ replace_dots (dotted steps))
      with (String "/"%char (name +:+ replace_dots (dotted steps))).
    cbn [replace_indices]. rewrite bool_decide_eq_false_2 by done.
    rewrite replace_indices_plain, IH by done. done.
  - apply andb_prop in Hok as [Hne%negb_true_iff%bool_decide_eq_false Hd].
    rewrite !replace_dots_app.
    rewrite (replace_dots_plain digits) by (by apply all_digits_plain).
    change (replace_dots "[") with "[". change (replace_dots "]") with "]".
    rewrite replace_indices_index, IH by done. done.
Qed.

(** The [instancePath] of a reference error is the pointer of its source
    path: for a path written as a first member followed by members and
    indices, each step after a slash. *)
Lemma refInstancePath_pointer first steps :
  plain_name first = true → forallb step_ok steps = true →
  first +:+ dotted steps ≠ "root" →
  refInstancePath (first +:+ dotted steps)
  = "/" +:+ first +:+ slashed steps.
Proof.
  intros Hfirst Hsteps Hroot. unfold refInstancePath.
  rewrite decide_False by done.
  rewrite replace_dots_app, replace_dots_plain by done.
  rewrite replace_indices_plain by done.
  by rewrite slash_conversion_steps.
Qed.

Example refInstancePath_root : refInstancePath "root" = "/".
Proof. reflexivity. Qed.

(** ** Reference integrity *)

Section ReferenceIntegrity.
Context (X : Collaborators).
Implicit Types (w : World) (r : JsonRegistry) (e : JsonEntity.t).

(** The entity after [validateEntity]: its result holds the errors of the
    references, in their order, and then the errors of the second phase. *)
Lemma validateEntity_result entity w e :
  heap w !! entity = Some e →
  ∃ phaseB,
    heap (validateEntity X entity w) !! entity
    = Some (JsonEntity.set_validation
              (Some {| errors :=
                         refErrors (registry w) (JsonEntity.gtsRefs e)
                         ++ phaseB |}) e).
Proof.
  intros He. rewrite (validateEntity_closed X _ _ _ He). cbn [heap].
  eexists. rewrite list_lookup_insert_eq by (by eapply lookup_lt_Some).
  reflexivity.
Qed.

Lemma refErrors_reported r ref :
  isInExamples (GtsRef.sourcePath ref) = false →
  refExists (GtsRef.id ref) r = false →
  refErrors r [ref] = [refError ref].
Proof.
  intros Hex Hno. rewrite refErrors_cons. unfold reported.
  by rewrite Hex, Hno.
Qed.

Lemma refErrors_exempt r ref :
  isInExamples (GtsRef.sourcePath ref) = true → refErrors r [ref] = [].
Proof.
  intros Hex. rewrite refErrors_cons. unfold reported. by rewrite Hex.
Qed.



End ReferenceIntegrity.

(** The paths the spec gives as examples. *)
Example examples_region_paths :
  examples_region "examples"
  ∧ examples_region "examples[0].gtsIid"
  ∧ examples_region "allOf[0].examples"
  ∧ examples_region "anyOf[1].examples[0]"
  ∧ property_named_examples "properties.examples.gtsIid"
  ∧ property_named_examples "properties.address.properties.examples.gtsIid"
  ∧ isInExamples "properties.examples" = false
  ∧ isInExamples "examplesOf.gtsIid" = false
  ∧ isInExamples "properties.x.oneOf[2].examples.gtsIid" = true.
Proof.
  split_and!; try reflexivity.
  - apply (region_root ""). by left.
  - apply (region_root "[0].gtsIid"). right. exists "0].gtsIid". by left.
  - apply (region_combinator "" "allOf" "0" ""); try done.
    + left.
    + by left.
  - apply (region_combinator "" "anyOf" "1" "[0]"); try done.
    + right. left.
    + right. exists "0]". by left.
  - by exists "", ".gtsIid".
  - by exists "properties.address.", ".gtsIid".
Qed.

(** ** Resolution and the vendor prefix *)

Lemma normalizeGtsId_prefixed (id : string) :
  normalizeGtsId (GTS_URI_PREFIX +:+ id) = id.
Proof. unfold normalizeGtsId. by rewrite strip_prefix_app. Qed.

Lemma normalizeGtsId_bare (id : string) :
  startsWith id GTS_URI_PREFIX = false → normalizeGtsId id = id.
Proof.
  unfold normalizeGtsId, startsWith.
  by destruct (strip_prefix GTS_URI_PREFIX id).
Qed.

(** [resolveSchema] gives the same schema for the prefixed and for the bare
    form of an identifier. *)
Lemma resolveSchema_prefix_insensitive (id : string) (w : World) :
  startsWith id GTS_URI_PREFIX = false →
  resolveSchema (GTS_URI_PREFIX +:+ id) w = resolveSchema id w.
Proof.
  intros Hbare. unfold resolveSchema, resolveSchemaRef.
  by rewrite normalizeGtsId_prefixed, normalizeGtsId_bare.
Qed.

(** C6, evaluated on the code: the schema [S1] is registered; the instance
    [P] names it as [gts://S1] and the instance [Q] as [S1].  [resolveSchema]
    finds the schema under both forms; the reference check of
    [validateEntity] looks up the id as it stands, finds [S1] for [Q] and
    reports [gts://S1] as not found for [P]. *)
Theorem prefixed_reference_reported_missing :
  let w :=
    ingestFiles Sample.X [Sample.fileS; Sample.fileP; Sample.fileQ] tt
      Sample.emptyWorld in
  resolveSchema "gts://S1" w = resolveSchema "S1" w
  ∧ (JsonEntity.id <$> resolveSchema "S1" w) = Some "S1"
  ∧ (JsonEntity.validation <$> heap w !! 1)
    = Some (Some {| errors := [refError (GtsRef.mk "gts://S1" "link")] |})
  ∧ (JsonEntity.validation <$> heap w !! 2)
    = Some (Some {| errors := [] |})
  ∧ JsMap.has "gts://S1" (absentGtsEntities (registry w)) = true.
Proof. vm_compute. split_and!; reflexivity. Qed.

(** ** Invalidation and ownership *)

(** What [invalidateFile] removes from the main indices: the keys that are
    ids of the objects listed for the path, whoever registered the entry
    that the key now holds. *)
Lemma invalidateFile_removes_listed_ids (h : Heap) (p k : string)
    (r : JsonRegistry) :
  JsMap.get k (jsonObjs (invalidateFile h p r))
  = (if decide (k ∈ listed_ids h (default [] (JsMap.get p (jsonFileObjs r))))
     then None else JsMap.get k (jsonObjs r))
  ∧ JsMap.get k (jsonSchemas (invalidateFile h p r))
    = (if decide (k ∈ listed_ids h
                        (default [] (JsMap.get p (jsonFileSchemas r))))
       then None else JsMap.get k (jsonSchemas r)).
Proof.
  rewrite invalidateFile_jsonObjs, invalidateFile_jsonSchemas.
  split.
  - destruct (JsMap.get p (jsonFileObjs r)); cbn [default].
    + apply get_delete_listed.
    + by rewrite decide_False by (by intros ?%elem_of_nil).
  - destruct (JsMap.get p (jsonFileSchemas r)); cbn [default].
    + apply get_delete_listed.
    + by rewrite decide_False by (by intros ?%elem_of_nil).
Qed.

(** C1, evaluated on the code: [a.json] and then [b.json] register an
    object with the id [X], so the entry [X] of [jsonObjs] is the object of
    [b.json] (reference 1), which [b.json] lists as its own.  Invalidating
    [a.json] deletes the key [X]: the object of [b.json] is gone from
    [jsonObjs] while [b.json] is still tracked and still lists it. *)
Theorem invalidating_a_file_removes_a_clobbering_entity :
  let w :=
    ingestFiles Sample.X [Sample.fileA; Sample.fileB] tt Sample.emptyWorld in
  let r' := invalidateFile (heap w) "a.json" (registry w) in
  JsMap.get "a.json" (jsonFileObjs (registry w)) = Some [0]
  ∧ JsMap.get "b.json" (jsonFileObjs (registry w)) = Some [1]
  ∧ JsMap.get "X" (jsonObjs (registry w)) = Some 1
  ∧ JsMap.get "X" (jsonObjs r') = None
  ∧ JsMap.get "b.json" (jsonFileObjs r') = Some [1]
  ∧ JsMap.has "b.json" (jsonFiles r') = true.
Proof. vm_compute. split_and!; reflexivity. Qed.

(** ** Registration of the entities of a file *)

Section RegisterFacts.
Implicit Types (w : World) (r : JsonRegistry) (e : JsonEntity.t).

Lemma registerEntity_heap p w e :
  heap (registerEntity p w e) = heap w ++ [e].
Proof. done. Qed.

Lemma registerEntity_jsonObjs p w e :
  jsonObjs (registry (registerEntity p w e))
  = if is_object e
    then JsMap.set (JsonEntity.id e) (length (heap w)) (jsonObjs (registry w))
    else jsonObjs (registry w).
Proof.
  unfold registerEntity, is_object, is_schema.
  destruct (registry w). case_decide.
  - by rewrite bool_decide_eq_true_2.
  - by rewrite bool_decide_eq_false_2.
Qed.

Lemma registerEntity_jsonSchemas p w e :
  jsonSchemas (registry (registerEntity p w e))
  = if is_schema e
    then JsMap.set (JsonEntity.id e) (length (heap w))
           (jsonSchemas (registry w))
    else jsonSchemas (registry w).
Proof.
  unfold registerEntity, is_schema.
  destruct (registry w). case_decide.
  - by rewrite bool_decide_eq_true_2.
  - by rewrite bool_decide_eq_false_2.
Qed.

Lemma registerEntity_jsonFileObjs p w e :
  jsonFileObjs (registry (registerEntity p w e))
  = if is_object e
    then JsMap.set p
           (default [] (JsMap.get p (jsonFileObjs (registry w)))
            ++ [length (heap w)])
           (jsonFileObjs (registry w))
    else jsonFileObjs (registry w).
Proof.
  unfold registerEntity, is_object, is_schema.
  destruct (registry w). case_decide.
  - by rewrite bool_decide_eq_true_2.
  - by rewrite bool_decide_eq_false_2.
Qed.

Lemma registerEntity_jsonFileSchemas p w e :
  jsonFileSchemas (registry (registerEntity p w e))
  = if is_schema e
    then JsMap.set p
           (default [] (JsMap.get p (jsonFileSchemas (registry w)))
            ++ [length (heap w)])
           (jsonFileSchemas (registry w))
    else jsonFileSchemas (registry w).
Proof.
  unfold registerEntity, is_schema.
  destruct (registry w). case_decide.
  - by rewrite bool_decide_eq_true_2.
  - by rewrite bool_decide_eq_false_2.
Qed.

(** Registration touches nothing else. *)
Lemma registerEntity_rest p w e :
  jsonFiles (registry (registerEntity p w e)) = jsonFiles (registry w)
  ∧ invalidFiles (registry (registerEntity p w e)) = invalidFiles (registry w)
  ∧ absentGtsEntities (registry (registerEntity p w e))
    = absentGtsEntities (registry w)
  ∧ fetchCache (registry (registerEntity p w e)) = fetchCache (registry w)
  ∧ defaultFilePath (registry (registerEntity p w e))
    = defaultFilePath (registry w).
Proof.
  unfold registerEntity. destruct (registry w). by case_decide.
Qed.

Lemma registerAll_heap p es w :
  heap (foldl (registerEntity p) w es) = heap w ++ es.
Proof.
  revert w. induction es as [|e es IH]; intros w; cbn [foldl].
  - by rewrite app_nil_r.
  - rewrite IH, registerEntity_heap. by rewrite <- app_assoc.
Qed.

Lemma registerAll_rest p es w :
  jsonFiles (registry (foldl (registerEntity p) w es)) = jsonFiles (registry w)
  ∧ invalidFiles (registry (foldl (registerEntity p) w es))
    = invalidFiles (registry w)
  ∧ absentGtsEntities (registry (foldl (registerEntity p) w es))
    = absentGtsEntities (registry w)
  ∧ fetchCache (registry (foldl (registerEntity p) w es))
    = fetchCache (registry w)
  ∧ defaultFilePath (registry (foldl (registerEntity p) w es))
    = defaultFilePath (registry w).
Proof.
  revert w. induction es as [|e es IH]; intros w; cbn [foldl]; [done|].
  destruct (IH (registerEntity p w e)) as (-> & -> & -> & -> & ->).
  apply registerEntity_rest.
Qed.

(** A keyed index after the registration of [es]: a key holds the reference
    of the last entity of its class with that id, or what it held. *)
Lemma registerAll_index (index : World → JsMap.t EntRef)
    (sel : JsonEntity.t → bool) p es w k :
  (∀ w e, index (registerEntity p w e)
          = if sel e
            then JsMap.set (JsonEntity.id e) (length (heap w)) (index w)
            else index w) →
  JsMap.get k (index (foldl (registerEntity p) w es))
  = match last_registered sel k es with
    | Some i => Some (length (heap w) + i)
    | None => JsMap.get k (index w)
    end.
Proof.
  intros Hstep. revert w. induction es as [|e es IH]; intros w.
  - done.
  - cbn [foldl last_registered]. rewrite IH.
    rewrite registerEntity_heap, length_app. cbn [length].
    destruct (last_registered sel k es) as [i|].
    + f_equal. lia.
    + rewrite Hstep. destruct (sel e); cbn [andb]; [|done].
      rewrite get_set. case_decide.
      * rewrite bool_decide_eq_true_2 by done. f_equal. lia.
      * by rewrite bool_decide_eq_false_2.
Qed.

(** An ownership map after the registration of [es] for the path [p]. *)
Lemma registerAll_owned (owned : World → JsMap.t (list EntRef))
    (sel : JsonEntity.t → bool) p es w q :
  (∀ w e, owned (registerEntity p w e)
          = if sel e
            then JsMap.set p
                   (default [] (JsMap.get p (owned w)) ++ [length (heap w)])
                   (owned w)
            else owned w) →
  JsMap.get q (owned (foldl (registerEntity p) w es))
  = if decide (q = p) then
      match positions sel es with
      | [] => JsMap.get p (owned w)
      | ps =>
          Some (default [] (JsMap.get p (owned w))
                ++ ((λ i, length (heap w) + i) <$> ps))
      end
    else JsMap.get q (owned w).
Proof.
  intros Hstep. revert w. induction es as [|e es IH]; intros w.
  - cbn. by case_decide; subst.
  - cbn [foldl positions]. rewrite IH. clear IH.
    rewrite registerEntity_heap, length_app, Hstep. cbn [length].
    assert (Hshift : ∀ ps : list nat,
              (λ i, length (heap w) + 1 + i) <$> ps
              = (λ i, length (heap w) + i) <$> (S <$> ps)).
    { intros ps. rewrite <- list_fmap_compose. apply list_fmap_ext.
      intros ? ? _. cbn. lia. }
    destruct (decide (q = p)) as [->|Hne].
    + destruct (sel e); cbn [app].
      * rewrite get_set_eq. cbn [default].
        destruct (positions sel es) as [|i ps] eqn:Hps.
        -- cbn. by rewrite Nat.add_0_r.
        -- rewrite Hshift. cbn [fmap list_fmap]. unfold id.
           rewrite <- app_assoc. cbn [app]. by rewrite Nat.add_0_r.
      * destruct (positions sel es) as [|i ps]; [done|].
        by rewrite Hshift.
    + destruct (sel e); [|done]. by rewrite get_set_ne.
Qed.

End RegisterFacts.

(** ** [processFileContent] in closed form *)

Section ProcessFacts.
Context (X : Collaborators).
Implicit Types (w : World) (r : JsonRegistry) (e : JsonEntity.t).

Lemma foldl_registerElement p jsonFile content cfg elems w b :
  foldl (registerElement X p jsonFile content cfg) (w, b) elems
  = (foldl (registerEntity p) w
       (omap (recognize X jsonFile content cfg) elems),
     b || bool_decide (omap (recognize X jsonFile content cfg) elems ≠ [])).
Proof.
  revert w b. induction elems as [|elem elems IH]; intros w b.
  - cbn. by rewrite orb_false_r.
  - cbn [foldl omap list_omap]. unfold registerElement at 2.
    destruct (recognize X jsonFile content cfg elem) as [e|]; cbn [fst].
    + rewrite IH. cbn [foldl]. f_equal.
      rewrite orb_true_l, orb_true_r. done.
    + by rewrite IH.
Qed.

(** The world after [processFileContent]: the path is invalidated, the
    entities of the document are registered one after the other, and the
    file goes to [invalidFiles] when it did not parse and to [jsonFiles]
    when it yielded an entity. *)
Lemma processFileContent_closed p name content cfg w :
  let jsonFile := newJsonFile X p name content in
  let es := registeredEntities X p name content cfg in
  let w1 :=
    foldl (registerEntity p)
      (mkWorld (heap w) (invalidateFile (heap w) p (registry w))) es in
  processFileContent X p name content cfg w
  = mkWorld (heap w1)
      (with_jsonFiles
         (if bool_decide (es ≠ [])
          then JsMap.set p jsonFile (jsonFiles (registry w1))
          else jsonFiles (registry w1))
         (with_invalidFiles
            (if hasParseErrors jsonFile
             then JsMap.set p jsonFile (invalidFiles (registry w1))
             else invalidFiles (registry w1))
            (registry w1))).
Proof.
  intros jsonFile es w1. subst jsonFile es w1.
  unfold processFileContent, registeredEntities.
  destruct (hasParseErrors (newJsonFile X p name content)) eqn:Hparse.
  - cbn [foldl heap registry]. rewrite bool_decide_eq_false_2 by (by intros []).
    by destruct (invalidateFile (heap w) p (registry w)).
  - rewrite foldl_registerElement.
    change (omap (recognize X (newJsonFile X p name content) content cfg)
              (imap (λ idx entityContent, (idx, entityContent))
                 (normalizeToArray content)))
      with (recognizedEntities X p name content cfg).
    set (es := recognizedEntities X p name content cfg).
    set (w1 := foldl (registerEntity p) _ es).
    cbn [orb].
    assert (Hnot : JsMap.has p (jsonFiles (registry w1)) = false).
    { apply has_false_get. unfold w1.
      destruct (registerAll_rest p es
                  (mkWorld (heap w) (invalidateFile (heap w) p (registry w))))
        as (-> & _).
      cbn [registry]. rewrite invalidateFile_jsonFiles. apply get_delete_eq. }
    rewrite Hnot. cbn [negb]. rewrite andb_true_r.
    destruct (bool_decide (es ≠ [])); destruct w1 as [h1 r1];
      cbn [heap registry]; by destruct r1.
Qed.

Lemma invalidateFile_owned_objs_other h p q r :
  q ≠ p →
  JsMap.get q (jsonFileObjs (invalidateFile h p r))
  = JsMap.get q (jsonFileObjs r).
Proof.
  intros Hne. rewrite invalidateFile_jsonFileObjs.
  destruct (JsMap.get p (jsonFileObjs r)); [|done].
  rewrite get_set_ne by done. by rewrite get_delete_ne.
Qed.

Lemma invalidateFile_owned_schemas_other h p q r :
  q ≠ p →
  JsMap.get q (jsonFileSchemas (invalidateFile h p r))
  = JsMap.get q (jsonFileSchemas r).
Proof.
  intros Hne. rewrite invalidateFile_jsonFileSchemas.
  destruct (JsMap.get p (jsonFileSchemas r)); [|done].
  rewrite get_set_ne by done. by rewrite get_delete_ne.
Qed.

Section fields.
Context (p name : string) (content : Json) (cfg : GtsConfig X) (w : World).
Let jsonFile := newJsonFile X p name content.
Let es := registeredEntities X p name content cfg.
Let w' := processFileContent X p name content cfg w.

Lemma processFileContent_heap : heap w' = heap w ++ es.
Proof.
  unfold w'. rewrite processFileContent_closed. cbn [heap].
  by rewrite registerAll_heap.
Qed.

Lemma processFileContent_jsonFiles q :
  JsMap.get q (jsonFiles (registry w'))
  = if decide (q = p)
    then (if bool_decide (es ≠ []) then Some jsonFile else None)
    else JsMap.get q (jsonFiles (registry w)).
Proof.
  unfold w'. rewrite processFileContent_closed. cbn [registry].
  cbn [with_jsonFiles jsonFiles].
  destruct (registerAll_rest p
              (registeredEntities X p name content cfg)
              (mkWorld (heap w) (invalidateFile (heap w) p (registry w))))
    as (-> & _).
  cbn [registry]. rewrite invalidateFile_jsonFiles.
  fold es jsonFile.
  destruct (bool_decide (es ≠ [])).
  - rewrite get_set, get_delete. repeat case_decide; congruence.
  - rewrite get_delete. repeat case_decide; congruence.
Qed.

Lemma processFileContent_invalidFiles q :
  JsMap.get q (invalidFiles (registry w'))
  = if decide (q = p)
    then (if hasParseErrors jsonFile then Some jsonFile else None)
    else JsMap.get q (invalidFiles (registry w)).
Proof.
  unfold w'. rewrite processFileContent_closed. cbn [registry].
  cbn [with_jsonFiles with_invalidFiles invalidFiles].
  destruct (registerAll_rest p
              (registeredEntities X p name content cfg)
              (mkWorld (heap w) (invalidateFile (heap w) p (registry w))))
    as (_ & -> & _).
  cbn [registry]. rewrite invalidateFile_invalidFiles.
  fold jsonFile.
  destruct (hasParseErrors jsonFile).
  - rewrite get_set, get_delete. repeat case_decide; congruence.
  - rewrite get_delete. repeat case_decide; congruence.
Qed.

Lemma processFileContent_jsonObjs k :
  JsMap.get k (jsonObjs (registry w'))
  = match last_registered is_object k es with
    | Some i => Some (length (heap w) + i)
    | None =>
        if decide (k ∈ listed_ids (heap w)
                         (default [] (JsMap.get p (jsonFileObjs (registry w)))))
        then None else JsMap.get k (jsonObjs (registry w))
    end.
Proof.
  unfold w'. rewrite processFileContent_closed. cbn [registry].
  cbn [with_jsonFiles with_invalidFiles jsonObjs].
  rewrite (registerAll_index (λ w, jsonObjs (registry w)) is_object)
    by apply registerEntity_jsonObjs.
  cbn [heap registry]. fold es.
  destruct (last_registered is_object k es); [done|].
  apply invalidateFile_removes_listed_ids.
Qed.

Lemma processFileContent_jsonSchemas k :
  JsMap.get k (jsonSchemas (registry w'))
  = match last_registered is_schema k es with
    | Some i => Some (length (heap w) + i)
    | None =>
        if decide (k ∈ listed_ids (heap w)
                         (default []
                            (JsMap.get p (jsonFileSchemas (registry w)))))
        then None else JsMap.get k (jsonSchemas (registry w))
    end.
Proof.
  unfold w'. rewrite processFileContent_closed. cbn [registry].
  cbn [with_jsonFiles with_invalidFiles jsonSchemas].
  rewrite (registerAll_index (λ w, jsonSchemas (registry w)) is_schema)
    by apply registerEntity_jsonSchemas.
  cbn [heap registry]. fold es.
  destruct (last_registered is_schema k es); [done|].
  apply invalidateFile_removes_listed_ids.
Qed.

Lemma processFileContent_jsonFileObjs q :
  JsMap.get q (jsonFileObjs (registry w'))
  = if decide (q = p) then
      match positions is_object es with
      | [] => (λ _, []) <$> JsMap.get p (jsonFileObjs (registry w))
      | ps => Some ((λ i, length (heap w) + i) <$> ps)
      end
    else JsMap.get q (jsonFileObjs (registry w)).
Proof.
  unfold w'. rewrite processFileContent_closed. cbn [registry].
  cbn [with_jsonFiles with_invalidFiles jsonFileObjs].
  rewrite (registerAll_owned (λ w, jsonFileObjs (registry w)) is_object)
    by apply registerEntity_jsonFileObjs.
  cbn [heap registry]. fold es.
  case_decide.
  - rewrite invalidateFile_owned_objs.
    destruct (positions is_object es); [done|].
    by destruct (JsMap.get p (jsonFileObjs (registry w))).
  - by apply invalidateFile_owned_objs_other.
Qed.

Lemma processFileContent_jsonFileSchemas q :
  JsMap.get q (jsonFileSchemas (registry w'))
  = if decide (q = p) then
      match positions is_schema es with
      | [] => (λ _, []) <$> JsMap.get p (jsonFileSchemas (registry w))
      | ps => Some ((λ i, length (heap w) + i) <$> ps)
      end
    else JsMap.get q (jsonFileSchemas (registry w)).
Proof.
  unfold w'. rewrite processFileContent_closed. cbn [registry].
  cbn [with_jsonFiles with_invalidFiles jsonFileSchemas].
  rewrite (registerAll_owned (λ w, jsonFileSchemas (registry w)) is_schema)
    by apply registerEntity_jsonFileSchemas.
  cbn [heap registry]. fold es.
  case_decide.
  - rewrite invalidateFile_owned_schemas.
    destruct (positions is_schema es); [done|].
    by destruct (JsMap.get p (jsonFileSchemas (registry w))).
  - by apply invalidateFile_owned_schemas_other.
Qed.

Lemma processFileContent_rest :
  absentGtsEntities (registry w') = absentGtsEntities (registry w)
  ∧ fetchCache (registry w') = fetchCache (registry w)
  ∧ defaultFilePath (registry w') = defaultFilePath (registry w).
Proof.
  unfold w'. rewrite processFileContent_closed. cbn [registry].
  cbn [with_jsonFiles with_invalidFiles absentGtsEntities fetchCache
       defaultFilePath].
  destruct (registerAll_rest p
              (registeredEntities X p name content cfg)
              (mkWorld (heap w) (invalidateFile (heap w) p (registry w))))
    as (_ & _ & -> & -> & ->).
  cbn [registry].
  by rewrite invalidateFile_absentGtsEntities, invalidateFile_fetchCache,
    invalidateFile_defaultFilePath.
Qed.

(** The ownership lists of the path hold the new objects and nothing else. *)
Lemma processFileContent_owned :
  default [] (JsMap.get p (jsonFileObjs (registry w')))
  = (λ i, length (heap w) + i) <$> positions is_object es
  ∧ default [] (JsMap.get p (jsonFileSchemas (registry w')))
    = (λ i, length (heap w) + i) <$> positions is_schema es.
Proof.
  rewrite processFileContent_jsonFileObjs, processFileContent_jsonFileSchemas.
  rewrite !decide_True by done. split.
  - destruct (positions is_object es); [|done].
    by destruct (JsMap.get p (jsonFileObjs (registry w))).
  - destruct (positions is_schema es); [|done].
    by destruct (JsMap.get p (jsonFileSchemas (registry w))).
Qed.

End fields.

Lemma positions_length (es : list JsonEntity.t) :
  length (positions is_object es) + length (positions is_schema es)
  = length es.
Proof.
  induction es as [|e es IH]; [done|].
  cbn [positions]. rewrite !length_app, !length_fmap.
  assert (is_object e = negb (is_schema e)) as -> by done.
  destruct (is_schema e); cbn [negb length]; lia.
Qed.

(** C8: the classification of a file.  After [processFileContent] for the
    path [p]: [p] is a key of [jsonFiles] exactly when the document parsed
    and yielded at least one recognized entity; when the document did not
    parse, [p] is in [invalidFiles] with its file record, no object is
    created and the ownership lists of [p] are empty; when it parsed and
    yielded no entity, [p] is in neither map; and whenever it parsed, [p]
    is not in [invalidFiles] and owns exactly the entities it yielded. *)
Theorem file_classification (p name : string) (content : Json)
    (cfg : GtsConfig X) (w : World) :
  let jsonFile := newJsonFile X p name content in
  let recognized := recognizedEntities X p name content cfg in
  let w' := processFileContent X p name content cfg w in
  let owned :=
    default [] (JsMap.get p (jsonFileObjs (registry w')))
    ++ default [] (JsMap.get p (jsonFileSchemas (registry w'))) in
  (JsMap.has p (jsonFiles (registry w')) = true
   ↔ hasParseErrors jsonFile = false ∧ recognized ≠ [])
  ∧ (hasParseErrors jsonFile = true →
     JsMap.get p (invalidFiles (registry w')) = Some jsonFile
     ∧ JsMap.has p (jsonFiles (registry w')) = false
     ∧ owned = []
     ∧ heap w' = heap w)
  ∧ (hasParseErrors jsonFile = false → recognized = [] →
     JsMap.has p (jsonFiles (registry w')) = false
     ∧ JsMap.has p (invalidFiles (registry w')) = false)
  ∧ (hasParseErrors jsonFile = false →
     JsMap.has p (invalidFiles (registry w')) = false
     ∧ length owned = length recognized
     ∧ heap w' = heap w ++ recognized).
Proof.
  intros jsonFile recognized w' owned.
  pose proof (processFileContent_jsonFiles p name content cfg w p) as Hf.
  pose proof (processFileContent_invalidFiles p name content cfg w p) as Hi.
  pose proof (processFileContent_owned p name content cfg w) as [Ho Hs].
  pose proof (processFileContent_heap p name content cfg w) as Hh.
  rewrite decide_True in Hf, Hi by done.
  fold w' in Hf, Hi, Ho, Hs, Hh.
  unfold registeredEntities in Hf, Ho, Hs, Hh.
  fold jsonFile in Hf, Hi, Ho, Hs, Hh.
  fold recognized in Hf, Ho, Hs, Hh.
  assert (Hown : owned
                 = ((λ i, length (heap w) + i) <$> positions is_object
                      (if hasParseErrors jsonFile then [] else recognized))
                   ++ ((λ i, length (heap w) + i) <$> positions is_schema
                         (if hasParseErrors jsonFile then [] else recognized))).
  { unfold owned. by rewrite Ho, Hs. }
  clearbody owned. clear Ho Hs.
  unfold JsMap.has. rewrite Hf, Hi.
  destruct (hasParseErrors jsonFile) eqn:Hparse.
  - rewrite bool_decide_eq_false_2 by (by intros []).
    split_and!; try done.
    + naive_solver.
    + intros _. split_and!; try done. by rewrite app_nil_r in Hh.
  - split_and!; try done.
    + destruct (decide (recognized = [])) as [Hnil|Hnil].
      * rewrite bool_decide_eq_false_2 by (by intros []). naive_solver.
      * rewrite bool_decide_eq_true_2 by done. naive_solver.
    + intros _ Hnil. by rewrite bool_decide_eq_false_2 by (by intros []).
    + intros _. split_and!; try done.
      rewrite Hown, length_app, !length_fmap. apply positions_length.
Qed.

End ProcessFacts.

(** The three classes on sample files: text that did not parse, a document
    without entities, and a document with a schema and an instance. *)
Example file_classification_samples :
  let ingest file :=
    registry (ingestFiles Sample.X [file] tt Sample.emptyWorld) in
  (JsMap.has "broken.json" (jsonFiles (ingest Sample.fileBroken)) = false
   ∧ JsMap.has "broken.json" (invalidFiles (ingest Sample.fileBroken)) = true
   ∧ jsonObjs (ingest Sample.fileBroken) = []
   ∧ jsonSchemas (ingest Sample.fileBroken) = [])
  ∧ (JsMap.has "plain.json" (jsonFiles (ingest Sample.filePlain)) = false
     ∧ JsMap.has "plain.json" (invalidFiles (ingest Sample.filePlain)) = false)
  ∧ (JsMap.has "c.json" (jsonFiles (ingest Sample.fileC)) = true
     ∧ JsMap.has "c.json" (invalidFiles (ingest Sample.fileC)) = false
     ∧ JsMap.keys (jsonSchemas (ingest Sample.fileC)) = ["S1"]
     ∧ JsMap.keys (jsonObjs (ingest Sample.fileC)) = ["O1"]).
Proof. vm_compute. split_and!; reflexivity. Qed.

(** ** The whole validation pass in closed form *)

Section ValidationClosed.
Context (X : Collaborators).
Implicit Types (w : World) (r : JsonRegistry) (e : JsonEntity.t).

Lemma get_recordAbsent ids (m : JsMap.t JsonEntity.t) k :
  JsMap.get k (recordAbsent X ids m)
  = if decide (k ∈ ids) then Some (createAbsentEntity X k)
    else JsMap.get k m.
Proof.
  unfold recordAbsent. revert m.
  induction ids as [|i ids IH]; intros m; cbn [foldl].
  - by rewrite decide_False by (by intros ?%elem_of_nil).
  - rewrite IH, get_set.
    destruct (decide (k ∈ ids)) as [Hin|Hnin].
    + by rewrite decide_True by (by right).
    + destruct (decide (i = k)) as [->|Hne].
      * by rewrite decide_True by left.
      * rewrite decide_False; [done|].
        intros [?|?]%elem_of_cons; congruence.
Qed.

(** The result of an entity depends on the world through the keys of the
    two main maps and the contents of the schemas, and not on the result
    the entity held. *)
Lemma validated_ext w1 w2 e v :
  (∀ i, refExists i (registry w1) = refExists i (registry w2)) →
  (∀ i, schemaContent w1 i = schemaContent w2 i) →
  validated X w1 (JsonEntity.set_validation v e) = validated X w2 e.
Proof.
  intros Hex Hc. unfold validated.
  assert (Hr : ∀ refs,
            refErrors (registry w1) refs = refErrors (registry w2) refs).
  { intros refs. induction refs as [|ref refs IH]; [done|].
    rewrite !refErrors_cons, IH. unfold reported. by rewrite Hex. }
  cbn [JsonEntity.gtsRefs JsonEntity.set_validation].
  rewrite Hr.
  assert (Hs : schemaPhaseErrors X w1 (JsonEntity.set_validation v e)
               = schemaPhaseErrors X w2 e).
  { rewrite (schemaPhaseErrors_ext X w1 w2) by done. reflexivity. }
  rewrite Hs. reflexivity.
Qed.

Lemma set_validation_validation e :
  JsonEntity.set_validation (JsonEntity.validation e) e = e.
Proof. by destruct e. Qed.

Lemma validated_ext' w1 w2 e :
  (∀ i, refExists i (registry w1) = refExists i (registry w2)) →
  (∀ i, schemaContent w1 i = schemaContent w2 i) →
  validated X w1 e = validated X w2 e.
Proof.
  intros. rewrite <- (set_validation_validation e) at 1.
  by apply validated_ext.
Qed.

Lemma validated_validated w1 w2 e :
  (∀ i, refExists i (registry w1) = refExists i (registry w2)) →
  (∀ i, schemaContent w1 i = schemaContent w2 i) →
  validated X w1 (validated X w2 e) = validated X w2 e.
Proof. intros. unfold validated at 2. by apply validated_ext. Qed.

Lemma missingIds_ext r1 r2 refs :
  (∀ i, refExists i r1 = refExists i r2) →
  missingIds r1 refs = missingIds r2 refs.
Proof.
  intros Hex. induction refs as [|ref refs IH]; [done|].
  rewrite !missingIds_cons, IH. unfold reported. by rewrite Hex.
Qed.

Lemma same_indices_refExists r r' i :
  same_indices r r' → refExists i r' = refExists i r.
Proof. intros (Hs & Ho & _). unfold refExists. by rewrite Hs, Ho. Qed.

Lemma partly_validated_entity w visited w' ref e :
  partly_validated X w visited w' →
  heap w !! ref = Some e →
  heap w' !! ref = Some e ∨ heap w' !! ref = Some (validated X w e).
Proof.
  intros (_ & Hh & _) He. rewrite Hh, He. case_decide; [by right|by left].
Qed.

Lemma partly_validated_schemaContent w visited w' i :
  partly_validated X w visited w' →
  schemaContent w' i = schemaContent w i.
Proof.
  intros Hp. pose proof Hp as ((Hs & _) & Hh & _).
  unfold schemaContent, resolveSchema, resolveSchemaRef. rewrite Hs.
  destruct (JsMap.get _ (jsonSchemas (registry w))) as [ref|]; [|done].
  cbn. rewrite Hh. case_decide; [|done].
  by destruct (heap w !! ref).
Qed.

Lemma partly_validated_start w : partly_validated X w [] w.
Proof.
  split_and!.
  - done.
  - intros ref. by rewrite decide_False by (by intros ?%elem_of_nil).
  - intros k. by rewrite decide_False by (by intros ?%elem_of_nil).
Qed.

Lemma missingOf_snoc w visited ref :
  missingOf w (visited ++ [ref])
  = missingOf w visited
    ++ match heap w !! ref with
       | Some e => missingIds (registry w) (JsonEntity.gtsRefs e)
       | None => []
       end.
Proof.
  unfold missingOf. rewrite bind_app. cbn. by rewrite app_nil_r.
Qed.

Lemma validateEntity_partly w visited w0 ref :
  partly_validated X w visited w0 →
  partly_validated X w (visited ++ [ref]) (validateEntity X ref w0).
Proof.
  intros Hp. pose proof Hp as (Hr & Hh & Ha).
  destruct (heap w !! ref) as [e|] eqn:He.
  - assert (∃ e0, heap w0 !! ref = Some e0
                  ∧ validated X w0 e0 = validated X w e
                  ∧ JsonEntity.gtsRefs e0 = JsonEntity.gtsRefs e)
      as (e0 & He0 & Hv & Hg).
    { destruct (partly_validated_entity _ _ _ _ _ Hp He) as [H0|H0];
        eexists; (split; [exact H0|]); split; try done.
      - apply validated_ext'.
        + intros. by apply same_indices_refExists.
        + intros. by eapply partly_validated_schemaContent.
      - apply validated_validated.
        + intros. by apply same_indices_refExists.
        + intros. by eapply partly_validated_schemaContent. }
    rewrite (validateEntity_closed X _ _ _ He0). rewrite Hv, Hg.
    split_and!; cbn [heap registry].
    + by destruct (registry w0).
    + intros ref'. destruct (decide (ref = ref')) as [<-|Hne].
      * rewrite list_lookup_insert_eq by (by eapply lookup_lt_Some).
        rewrite decide_True by (apply elem_of_app; right; left).
        by rewrite He.
      * rewrite list_lookup_insert_ne by done. rewrite Hh.
        destruct (decide (ref' ∈ visited)) as [Hin|Hnin].
        -- by rewrite decide_True by (apply elem_of_app; by left).
        -- rewrite decide_False; [done|].
           intros [?|Hin]%elem_of_app; [done|].
           apply list_elem_of_singleton in Hin. congruence.
    + intros k.
      assert (absentGtsEntities
                (with_absentGtsEntities
                   (recordAbsent X
                      (missingIds (registry w0) (JsonEntity.gtsRefs e))
                      (absentGtsEntities (registry w0))) (registry w0))
              = recordAbsent X
                  (missingIds (registry w0) (JsonEntity.gtsRefs e))
                  (absentGtsEntities (registry w0))) as ->
        by (by destruct (registry w0)).
      rewrite get_recordAbsent, Ha, missingOf_snoc, He.
      rewrite (missingIds_ext (registry w0) (registry w))
        by (intros; by apply same_indices_refExists).
      destruct (decide (k ∈ missingIds (registry w) (JsonEntity.gtsRefs e)))
        as [Hin|Hnin].
      * by rewrite decide_True by (apply elem_of_app; by right).
      * destruct (decide (k ∈ missingOf w visited)) as [Hin'|Hnin'].
        -- by rewrite decide_True by (apply elem_of_app; by left).
        -- rewrite decide_False; [done|].
           by intros [?|?]%elem_of_app.
  - assert (heap w0 !! ref = None) as He0.
    { rewrite Hh, He. by case_decide. }
    rewrite validateEntity_dangling by done.
    split_and!; [done|..].
    + intros ref'. rewrite Hh.
      destruct (decide (ref' ∈ visited)) as [Hin|Hnin].
      * by rewrite decide_True by (apply elem_of_app; by left).
      * destruct (decide (ref' = ref)) as [->|Hne].
        -- rewrite He. by case_decide.
        -- rewrite decide_False; [done|].
           intros [?|Hin]%elem_of_app; [done|].
           by apply list_elem_of_singleton in Hin.
    + intros k. rewrite Ha, missingOf_snoc, He. by rewrite app_nil_r.
Qed.

Lemma validateEach_partly w visited refs w0 t :
  partly_validated X w visited w0 →
  partly_validated X w (visited ++ refs) (validateEach X refs (w0, t)).1.
Proof.
  unfold validateEach.
  revert visited w0 t. induction refs as [|ref refs IH]; intros visited w0 t Hp.
  - cbn [foldl fst]. by rewrite app_nil_r.
  - cbn [foldl fst]. rewrite (assoc_L (++) visited [ref] refs : visited ++ ref :: refs = (visited ++ [ref]) ++ refs).
    apply IH. by apply validateEntity_partly.
Qed.

(** The world after a full pass: every entity of the two main maps holds
    its result, computed against the world at the start of the pass. *)
Lemma validateEntities_closed w :
  partly_validated X w (indexedRefs w) (validateEntities X w).
Proof.
  unfold validateEntities, validateEntitiesTraced, indexedRefs. cbv zeta.
  pose proof (validateEach_partly w []
                (JsMap.values (jsonSchemas (registry w))) w []
                (partly_validated_start w)) as Hp1.
  destruct (validateEach X _ (w, [])) as [w1 t1]. cbn [fst app] in *.
  pose proof Hp1 as ((_ & <- & _) & _).
  by apply validateEach_partly.
Qed.

End ValidationClosed.

(** ** Keys and values of a [JsMap] *)

Section JsMapKeys.
Context {V : Type}.
Implicit Types (m : JsMap.t V) (k : string) (v : V).

Lemma get_None_keys m k : JsMap.get k m = None ↔ k ∉ JsMap.keys m.
Proof.
  unfold JsMap.keys. induction m as [|[k0 v0] m IH]; cbn.
  - split; [intros _ ?%elem_of_nil; done|done].
  - case_decide as Hk.
    + subst. split; [done|]. intros Hn. destruct Hn. left.
    + rewrite IH. rewrite not_elem_of_cons. naive_solver.
Qed.

Lemma values_get m v :
  NoDup (JsMap.keys m) →
  v ∈ JsMap.values m ↔ ∃ k, JsMap.get k m = Some v.
Proof.
  intros Hnd. split; [|intros [k Hk]; by eapply get_values].
  unfold JsMap.values, JsMap.keys in *.
  induction m as [|[k0 v0] m IH]; cbn in *.
  - by intros ?%elem_of_nil.
  - apply NoDup_cons in Hnd as [Hk0 Hnd].
    intros [->|Hin]%elem_of_cons.
    + exists k0. by rewrite decide_True.
    + destruct (IH Hnd Hin) as [k Hk]. exists k.
      rewrite decide_False; [done|]. intros ->.
      apply get_None_keys in Hk0. unfold JsMap.keys in Hk0. congruence.
Qed.

Lemma keys_set m k v :
  JsMap.keys (JsMap.set k v m)
  = if decide (k ∈ JsMap.keys m) then JsMap.keys m
    else JsMap.keys m ++ [k].
Proof.
  unfold JsMap.keys. induction m as [|[k0 v0] m IH]; cbn.
  - by rewrite decide_False by (by intros ?%elem_of_nil).
  - destruct (decide (k = k0)) as [->|Hne]; cbn.
    + by rewrite decide_True by left.
    + rewrite IH. destruct (decide (k ∈ m.*1)) as [Hin|Hnin].
      * by rewrite decide_True by (by right).
      * rewrite decide_False; [done|].
        intros [?|?]%elem_of_cons; done.
Qed.

Lemma NoDup_keys_set m k v :
  NoDup (JsMap.keys m) → NoDup (JsMap.keys (JsMap.set k v m)).
Proof.
  intros Hnd. rewrite keys_set. case_decide; [done|].
  apply NoDup_app. split_and!; [done| |apply NoDup_singleton].
  intros x Hx ->%list_elem_of_singleton. done.
Qed.

Lemma NoDup_keys_delete m k :
  NoDup (JsMap.keys m) → NoDup (JsMap.keys (JsMap.delete k m)).
Proof.
  unfold JsMap.keys, JsMap.delete.
  induction m as [|[k0 v0] m IH]; [done|].
  rewrite filter_cons. cbn [fst fmap list_fmap].
  intros [Hk0 Hnd]%NoDup_cons.
  case_decide; [|by apply IH].
  cbn [fmap list_fmap fst]. apply NoDup_cons. split; [|by apply IH].
  intros Hin. apply Hk0.
  apply list_elem_of_fmap in Hin as ([k1 v1] & -> & Hin).
  apply list_elem_of_filter in Hin as [_ Hin].
  apply list_elem_of_fmap. by exists (k1, v1).
Qed.
End JsMapKeys.

(** ** Validation does not see references *)

Section Renaming.
Context (X : Collaborators).
Implicit Types (w a c : World) (e : JsonEntity.t) (φ : EntRef → EntRef).

Lemma elem_of_missingOf w refs k :
  k ∈ missingOf w refs ↔
  ∃ ref e, ref ∈ refs ∧ heap w !! ref = Some e
           ∧ k ∈ missingIds (registry w) (JsonEntity.gtsRefs e).
Proof.
  unfold missingOf. rewrite list_elem_of_bind. split.
  - intros (ref & Hk & Hin). destruct (heap w !! ref) as [e|] eqn:He.
    + by exists ref, e.
    + by apply elem_of_nil in Hk.
  - intros (ref & e & Hin & He & Hk). exists ref. by rewrite He.
Qed.

Lemma elem_of_indexedRefs w ref :
  well_formed w →
  ref ∈ indexedRefs w ↔
  ∃ k, JsMap.get k (jsonSchemas (registry w)) = Some ref
       ∨ JsMap.get k (jsonObjs (registry w)) = Some ref.
Proof.
  intros (Hs & Ho & _). unfold indexedRefs.
  rewrite elem_of_app, (values_get _ _ Hs), (values_get _ _ Ho).
  naive_solver.
Qed.

Section renamed.
Context (φ : EntRef → EntRef) (a c : World).
Context (Hwa : well_formed a) (Hwc : well_formed c).
Context (Hren : renamed X φ a c).

Lemma renamed_refExists i :
  refExists i (registry c) = refExists i (registry a).
Proof.
  destruct Hren as (Hs & Ho & _). unfold refExists, JsMap.has.
  rewrite Hs, Ho.
  by destruct (JsMap.get i (jsonSchemas (registry a))),
    (JsMap.get i (jsonObjs (registry a))).
Qed.

Lemma renamed_entity ref e :
  heap a !! ref = Some e →
  ∃ e', heap c !! φ ref = Some e'
        ∧ (e' = e ∨ (ref ∈ indexedRefs a ∧ e' = validated X a e)).
Proof.
  intros He. destruct Hren as (_&_&_&_&_&_&_&_&_& Hh & _).
  destruct (Hh _ _ He) as [H1|[Hin H1]]; eexists; (split; [exact H1|]);
    [by left|by right].
Qed.

Lemma renamed_schemaContent i : schemaContent c i = schemaContent a i.
Proof.
  pose proof Hren as (Hs & _).
  unfold schemaContent, resolveSchema, resolveSchemaRef. rewrite Hs.
  destruct (JsMap.get _ (jsonSchemas (registry a))) as [ref|] eqn:Hg;
    [|done].
  cbn. destruct Hwa as (_ & _ & Hb & _).
  destruct (lookup_lt_is_Some_2 (heap a) ref (Hb _ _ Hg)) as [e He].
  destruct (renamed_entity ref e He) as (e' & -> & [->|[_ ->]]);
    by rewrite He.
Qed.

Lemma renamed_validated_entity ref e :
  heap a !! ref = Some e →
  validated X c <$> heap c !! φ ref = Some (validated X a e).
Proof.
  intros He.
  destruct (renamed_entity ref e He) as (e' & -> & [->|[_ ->]]); cbn;
    f_equal.
  - apply validated_ext'; [apply renamed_refExists|apply renamed_schemaContent].
  - apply validated_validated;
      [apply renamed_refExists|apply renamed_schemaContent].
Qed.

Lemma renamed_indexed ref :
  ref < length (heap a) →
  φ ref ∈ indexedRefs c ↔ ref ∈ indexedRefs a.
Proof.
  intros Hlt. pose proof Hren as (Hs & Ho & _&_&_&_&_&_& Hinj & _).
  rewrite !elem_of_indexedRefs by done.
  pose proof Hwa as (_ & _ & Hbs & Hbo & _).
  split.
  - intros (k & [Hk|Hk]); exists k.
    + rewrite Hs in Hk.
      destruct (JsMap.get k (jsonSchemas (registry a))) as [r0|] eqn:Hg;
        [|done].
      left. f_equal. apply Hinj; [by eapply Hbs|done|].
      cbn in Hk. congruence.
    + rewrite Ho in Hk.
      destruct (JsMap.get k (jsonObjs (registry a))) as [r0|] eqn:Hg;
        [|done].
      right. f_equal. apply Hinj; [by eapply Hbo|done|].
      cbn in Hk. congruence.
  - intros (k & [Hk|Hk]); exists k.
    + left. by rewrite Hs, Hk.
    + right. by rewrite Ho, Hk.
Qed.

(** After a pass over each world, an object of [a] and its counterpart in
    [c] are the same. *)
Lemma renamed_after_pass ref :
  ref < length (heap a) →
  heap (validateEntities X c) !! φ ref = heap (validateEntities X a) !! ref.
Proof.
  intros Hlt.
  destruct (lookup_lt_is_Some_2 (heap a) ref Hlt) as [e He].
  pose proof (validateEntities_closed X a) as (_ & Hha & _).
  pose proof (validateEntities_closed X c) as (_ & Hhc & _).
  rewrite Hha, Hhc, He.
  destruct (decide (ref ∈ indexedRefs a)) as [Hin|Hnin].
  - rewrite decide_True by (by apply renamed_indexed).
    by apply renamed_validated_entity.
  - rewrite decide_False by (by rewrite renamed_indexed).
    destruct (renamed_entity ref e He) as (e' & -> & [->|[? _]]); done.
Qed.

Lemma renamed_missing k :
  k ∈ missingOf c (indexedRefs c) ↔ k ∈ missingOf a (indexedRefs a).
Proof.
  rewrite !elem_of_missingOf.
  pose proof Hren as (Hs & Ho & _).
  pose proof Hwa as (_ & _ & Hbs & Hbo & _).
  assert (Hm : ∀ refs, missingIds (registry c) refs
                       = missingIds (registry a) refs).
  { intros. apply missingIds_ext. apply renamed_refExists. }
  split.
  - intros (r & e' & Hin & He' & Hk).
    assert (∃ r0, r = φ r0 ∧ r0 < length (heap a) ∧ r0 ∈ indexedRefs a)
      as (r0 & -> & Hlt & Hin0).
    { apply (elem_of_indexedRefs c r Hwc) in Hin as (key & [Hg|Hg]).
      - rewrite Hs in Hg.
        destruct (JsMap.get key (jsonSchemas (registry a))) as [r0|] eqn:Hg0;
          [|done].
        exists r0. split_and!; [cbn in Hg; congruence|by eapply Hbs|].
        apply elem_of_indexedRefs; [done|]. exists key. by left.
      - rewrite Ho in Hg.
        destruct (JsMap.get key (jsonObjs (registry a))) as [r0|] eqn:Hg0;
          [|done].
        exists r0. split_and!; [cbn in Hg; congruence|by eapply Hbo|].
        apply elem_of_indexedRefs; [done|]. exists key. by right. }
    destruct (lookup_lt_is_Some_2 (heap a) r0 Hlt) as [e He].
    exists r0, e. split_and!; [done..|].
    rewrite <- Hm.
    destruct (renamed_entity r0 e He) as (e2 & He2 & [->|[_ ->]]);
      rewrite He2 in He'; by simplify_eq.
  - intros (r0 & e & Hin & He & Hk).
    destruct (renamed_entity r0 e He) as (e2 & He2 & Hcase).
    exists (φ r0), e2. split_and!; [|done|].
    + apply renamed_indexed; [by eapply lookup_lt_Some|done].
    + rewrite Hm. by destruct Hcase as [->|[_ ->]].
Qed.

(** Two such worlds have the same index state after a validation pass. *)
Lemma renamed_same_after_pass :
  same_index_state (validateEntities X c) (validateEntities X a).
Proof.
  pose proof (validateEntities_closed X a)
    as ((Hsa & Hoa & Hfa & Hia & Hfoa & Hfsa & Hca & Hda) & _ & Haa).
  pose proof (validateEntities_closed X c)
    as ((Hsc & Hoc & Hfc & Hic & Hfoc & Hfsc & Hcc & Hdc) & _ & Hac).
  pose proof Hren as (Hs & Ho & Hfo & Hfs & Hf & Hi & Hc & Hd & _ & _ & Ha).
  pose proof Hwa as (_ & _ & Hbs & Hbo & Hbfo & Hbfs).
  unfold same_index_state, entityAt, ownedAt.
  rewrite Hsa, Hoa, Hfa, Hia, Hfoa, Hfsa, Hca, Hda.
  rewrite Hsc, Hoc, Hfc, Hic, Hfoc, Hfsc, Hcc, Hdc.
  split_and!; try done.
  - intros k. rewrite Hs.
    destruct (JsMap.get k (jsonSchemas (registry a))) as [r|] eqn:Hg; [|done].
    cbn. f_equal. apply renamed_after_pass. by eapply Hbs.
  - intros k. rewrite Ho.
    destruct (JsMap.get k (jsonObjs (registry a))) as [r|] eqn:Hg; [|done].
    cbn. f_equal. apply renamed_after_pass. by eapply Hbo.
  - intros p. rewrite Hfo.
    destruct (JsMap.get p (jsonFileObjs (registry a))) as [refs|] eqn:Hg;
      [|done].
    cbn. f_equal. rewrite <- list_fmap_compose.
    apply list_fmap_ext. intros i r Hr. cbn.
    apply renamed_after_pass. eapply Hbfo; [done|].
    by eapply list_elem_of_lookup_2.
  - intros p. rewrite Hfs.
    destruct (JsMap.get p (jsonFileSchemas (registry a))) as [refs|] eqn:Hg;
      [|done].
    cbn. f_equal. rewrite <- list_fmap_compose.
    apply list_fmap_ext. intros i r Hr. cbn.
    apply renamed_after_pass. eapply Hbfs; [done|].
    by eapply list_elem_of_lookup_2.
  - intros k. rewrite Hac, Haa.
    destruct (decide (k ∈ missingOf a (indexedRefs a))) as [Hin|Hnin].
    + by rewrite decide_True by (by apply renamed_missing).
    + rewrite decide_False by (by rewrite renamed_missing).
      destruct (Ha k) as [?|[? _]]; done.
Qed.

End renamed.
End Renaming.

(** ** Well-formed worlds *)

Section WellFormed.
Context (X : Collaborators).
Implicit Types (w : World) (e : JsonEntity.t) (sel : JsonEntity.t → bool).

Lemma last_registered_Some sel k es i :
  last_registered sel k es = Some i →
  ∃ e, es !! i = Some e ∧ sel e = true ∧ JsonEntity.id e = k.
Proof.
  revert i. induction es as [|e es IH]; intros i; cbn [last_registered];
    [done|].
  destruct (last_registered sel k es) as [j|].
  - intros [= <-]. by apply IH.
  - destruct (sel e) eqn:Hsel; cbn [andb]; [|done].
    case_bool_decide; [|done]. intros [= <-]. by exists e.
Qed.

Lemma last_registered_None sel k es i e :
  last_registered sel k es = None →
  es !! i = Some e → sel e = true → JsonEntity.id e ≠ k.
Proof.
  revert i. induction es as [|e0 es IH]; intros i; cbn [last_registered];
    [done|].
  destruct (last_registered sel k es) as [j|] eqn:Hl; [done|].
  destruct i as [|i]; cbn.
  - intros Hn [= ->] Hsel. rewrite Hsel in Hn. cbn in Hn.
    by case_bool_decide.
  - intros _. by apply IH.
Qed.

Lemma elem_of_positions sel es i :
  i ∈ positions sel es ↔ ∃ e, es !! i = Some e ∧ sel e = true.
Proof.
  revert i. induction es as [|e es IH]; intros i; cbn [positions].
  - split; [by intros ?%elem_of_nil|by intros (? & ? & _)].
  - rewrite elem_of_app, list_elem_of_fmap. split.
    + intros [Hin|(j & -> & Hj)].
      * destruct (sel e) eqn:Hsel; [|by apply elem_of_nil in Hin].
        apply list_elem_of_singleton in Hin as ->. by exists e.
      * by apply IH in Hj.
    + intros (e' & He' & Hsel). destruct i as [|i]; cbn in He'.
      * simplify_eq. left. rewrite Hsel. by apply list_elem_of_singleton.
      * right. exists i. split; [done|]. apply IH. by exists e'.
Qed.

Lemma NoDup_keys_delete_listed h listed (index : JsMap.t EntRef) :
  NoDup (JsMap.keys index) → NoDup (JsMap.keys (delete_listed h listed index)).
Proof.
  unfold delete_listed. revert index.
  induction listed as [|ref listed IH]; intros index Hnd; cbn [foldl];
    [done|].
  apply IH. destruct (h !! ref); [|done]. by apply NoDup_keys_delete.
Qed.

Lemma NoDup_keys_registerAll (index : World → JsMap.t EntRef) sel p es w :
  (∀ w e, index (registerEntity p w e)
          = if sel e
            then JsMap.set (JsonEntity.id e) (length (heap w)) (index w)
            else index w) →
  NoDup (JsMap.keys (index w)) →
  NoDup (JsMap.keys (index (foldl (registerEntity p) w es))).
Proof.
  intros Hstep. revert w. induction es as [|e es IH]; intros w Hnd;
    cbn [foldl]; [done|].
  apply IH. rewrite Hstep. destruct (sel e); [|done].
  by apply NoDup_keys_set.
Qed.

Lemma validateEntities_well_formed w :
  well_formed w → well_formed (validateEntities X w).
Proof.
  pose proof (validateEntities_frame X w)
    as ((Hs & Ho & _ & _ & Hfo & Hfs & _) & Hl & _).
  unfold well_formed. by rewrite Hs, Ho, Hfo, Hfs, Hl.
Qed.

Lemma processFileContent_well_formed p name content cfg w :
  well_formed w →
  well_formed (processFileContent X p name content cfg w).
Proof.
  intros (Hns & Hno & Hbs & Hbo & Hbfo & Hbfs).
  set (es := registeredEntities X p name content cfg).
  split_and!.
  - rewrite processFileContent_closed. cbn [registry with_jsonFiles
      with_invalidFiles jsonSchemas].
    apply (NoDup_keys_registerAll (λ w, jsonSchemas (registry w)) is_schema);
      [apply registerEntity_jsonSchemas|].
    cbn [registry]. rewrite invalidateFile_jsonSchemas.
    destruct (JsMap.get p _); [|done]. by apply NoDup_keys_delete_listed.
  - rewrite processFileContent_closed. cbn [registry with_jsonFiles
      with_invalidFiles jsonObjs].
    apply (NoDup_keys_registerAll (λ w, jsonObjs (registry w)) is_object);
      [apply registerEntity_jsonObjs|].
    cbn [registry]. rewrite invalidateFile_jsonObjs.
    destruct (JsMap.get p _); [|done]. by apply NoDup_keys_delete_listed.
  - intros k ref. rewrite processFileContent_jsonSchemas,
      processFileContent_heap, length_app. fold es.
    destruct (last_registered is_schema k es) as [i|] eqn:Hl.
    + intros [= <-]. apply last_registered_Some in Hl as (e & He & _).
      apply lookup_lt_Some in He. lia.
    + case_decide; [done|]. intros Hg. apply Hbs in Hg. lia.
  - intros k ref. rewrite processFileContent_jsonObjs,
      processFileContent_heap, length_app. fold es.
    destruct (last_registered is_object k es) as [i|] eqn:Hl.
    + intros [= <-]. apply last_registered_Some in Hl as (e & He & _).
      apply lookup_lt_Some in He. lia.
    + case_decide; [done|]. intros Hg. apply Hbo in Hg. lia.
  - intros q refs ref. rewrite processFileContent_heap, length_app. fold es.
    destruct (decide (q = p)) as [->|Hne].
    + intros Hg.
      pose proof (processFileContent_owned X p name content cfg w) as [Ho _].
      rewrite Hg in Ho. cbn [default] in Ho. unfold id in Ho.
      subst refs. fold es.
      intros (i & -> & Hin)%list_elem_of_fmap.
      apply elem_of_positions in Hin as (e & He & _).
      apply lookup_lt_Some in He. lia.
    + rewrite processFileContent_jsonFileObjs. rewrite decide_False by done.
      intros Hg Hin. pose proof (Hbfo _ _ _ Hg Hin). lia.
  - intros q refs ref. rewrite processFileContent_heap, length_app. fold es.
    destruct (decide (q = p)) as [->|Hne].
    + intros Hg.
      pose proof (processFileContent_owned X p name content cfg w) as [_ Ho].
      rewrite Hg in Ho. cbn [default] in Ho. unfold id in Ho.
      subst refs. fold es.
      intros (i & -> & Hin)%list_elem_of_fmap.
      apply elem_of_positions in Hin as (e & He & _).
      apply lookup_lt_Some in He. lia.
    + rewrite processFileContent_jsonFileSchemas. rewrite decide_False by done.
      intros Hg Hin. pose proof (Hbfs _ _ _ Hg Hin). lia.
Qed.

End WellFormed.

(** ** Processing a file again *)

Lemma length_eq_lookup {A} (l1 l2 : list A) :
  (∀ i, is_Some (l1 !! i) ↔ is_Some (l2 !! i)) → length l1 = length l2.
Proof.
  intros H.
  destruct (decide (length l1 < length l2)) as [Hlt|Hge].
  - apply lookup_lt_is_Some_2, H, lookup_lt_is_Some_1 in Hlt. lia.
  - destruct (decide (length l2 < length l1)) as [Hlt|Hge']; [|lia].
    apply lookup_lt_is_Some_2, H, lookup_lt_is_Some_1 in Hlt. lia.
Qed.

Lemma not_listed_new sel k (h es : list JsonEntity.t) :
  last_registered sel k es = None →
  k ∉ listed_ids (h ++ es) ((λ i, length h + i) <$> positions sel es).
Proof.
  intros Hl. unfold listed_ids.
  intros (ref & Hin & Hid)%list_elem_of_omap.
  apply list_elem_of_fmap in Hin as (i & -> & Hi).
  apply elem_of_positions in Hi as (e & He & Hsel).
  rewrite lookup_app_r in Hid by lia.
  replace (length h + i - length h) with i in Hid by lia.
  rewrite He in Hid. cbn in Hid. simplify_eq.
  by eapply last_registered_None.
Qed.

Lemma listed_ids_ext (h1 h2 : Heap) listed :
  (∀ ref, JsonEntity.id <$> h1 !! ref = JsonEntity.id <$> h2 !! ref) →
  listed_ids h1 listed = listed_ids h2 listed.
Proof.
  intros Hid. unfold listed_ids.
  induction listed as [|ref listed IH]; [done|].
  cbn [omap list_omap]. by rewrite Hid, IH.
Qed.

Lemma shift_injective n m r1 r2 :
  r1 < n + m → r2 < n + m → shift n m r1 = shift n m r2 → r1 = r2.
Proof. unfold shift. repeat case_decide; lia. Qed.

Lemma fmap_shift_below n m (refs : list EntRef) :
  (∀ ref, ref ∈ refs → ref < n) → shift n m <$> refs = refs.
Proof.
  intros Hb. induction refs as [|ref refs IH]; [done|].
  cbn [fmap list_fmap]. unfold shift at 1.
  rewrite decide_True by (apply Hb; left).
  f_equal. apply IH. intros. apply Hb. by right.
Qed.

Section Reingest.
Context (X : Collaborators).
Context (p name : string) (content : Json) (cfg : GtsConfig X).
Let es := registeredEntities X p name content cfg.

Lemma partly_validated_length a visited a' :
  partly_validated X a visited a' → length (heap a') = length (heap a).
Proof.
  intros (_ & Hh & _). apply length_eq_lookup. intros i. rewrite Hh.
  case_decide; [|done]. by rewrite fmap_is_Some.
Qed.

Lemma partly_validated_id a visited a' ref :
  partly_validated X a visited a' →
  JsonEntity.id <$> heap a' !! ref = JsonEntity.id <$> heap a !! ref.
Proof.
  intros (_ & Hh & _). rewrite Hh. case_decide; [|done].
  by destruct (heap a !! ref).
Qed.

(** Processing the same file in a world where it has just been processed
    (and perhaps validated) gives that world again, with the objects of the
    file under new references. *)
Lemma reprocess_renamed w a' visited :
  well_formed w →
  partly_validated X (processFileContent X p name content cfg w) visited a' →
  (∀ ref, ref ∈ visited →
          ref ∈ indexedRefs (processFileContent X p name content cfg w)) →
  renamed X (shift (length (heap w)) (length es))
    (processFileContent X p name content cfg w)
    (processFileContent X p name content cfg a').
Proof.
  intros Hw Hp Hvis.
  set (a := processFileContent X p name content cfg w) in *.
  set (n := length (heap w)). set (m := length es).
  pose proof Hw as (_ & _ & Hbs & Hbo & Hbfo & Hbfs).
  pose proof Hp as ((Hs & Ho & Hf & Hi & Hfo & Hfs & Hc & Hd) & Hh & Ha).
  assert (Hheap : heap a = heap w ++ es) by apply processFileContent_heap.
  assert (Hlen : length (heap a') = n + m).
  { rewrite (partly_validated_length _ _ _ Hp), Hheap, length_app. done. }
  pose proof (processFileContent_owned X p name content cfg w) as [Hoo Hos].
  fold a es n in Hoo, Hos.
  assert (Hids : ∀ listed, listed_ids (heap a') listed
                           = listed_ids (heap w ++ es) listed).
  { intros. rewrite <- Hheap. apply listed_ids_ext. intros.
    by eapply partly_validated_id. }
  split_and!.
  - intros k. rewrite processFileContent_jsonSchemas. fold es.
    unfold a. rewrite processFileContent_jsonSchemas. fold es n.
    rewrite Hlen, Hfs, Hs, Hos, Hids.
    destruct (last_registered is_schema k es) as [i|] eqn:Hl.
    + cbn. unfold shift. rewrite decide_False by lia. f_equal. lia.
    + rewrite decide_False by (by apply not_listed_new).
      unfold a. rewrite processFileContent_jsonSchemas. fold es n.
      rewrite Hl. case_decide; [done|].
      destruct (JsMap.get k (jsonSchemas (registry w))) as [ref|] eqn:Hg;
        [|done].
      cbn. unfold shift. by rewrite decide_True by (by eapply Hbs).
  - intros k. rewrite processFileContent_jsonObjs. fold es.
    unfold a. rewrite processFileContent_jsonObjs. fold es n.
    rewrite Hlen, Hfo, Ho, Hoo, Hids.
    destruct (last_registered is_object k es) as [i|] eqn:Hl.
    + cbn. unfold shift. rewrite decide_False by lia. f_equal. lia.
    + rewrite decide_False by (by apply not_listed_new).
      unfold a. rewrite processFileContent_jsonObjs. fold es n.
      rewrite Hl. case_decide; [done|].
      destruct (JsMap.get k (jsonObjs (registry w))) as [ref|] eqn:Hg;
        [|done].
      cbn. unfold shift. by rewrite decide_True by (by eapply Hbo).
  - intros q. rewrite processFileContent_jsonFileObjs. fold es.
    unfold a. rewrite processFileContent_jsonFileObjs. fold es n.
    rewrite Hlen, Hfo.
    destruct (decide (q = p)) as [->|Hne].
    + destruct (positions is_object es) as [|i0 ps] eqn:Hps.
      * unfold a. rewrite processFileContent_jsonFileObjs. fold es.
        rewrite decide_True by done. rewrite Hps.
        by destruct (JsMap.get p (jsonFileObjs (registry w))).
      * cbn [fmap option_fmap option_map]. f_equal.
        rewrite <- list_fmap_compose. apply list_fmap_ext.
        intros ? i _. cbn. unfold shift. rewrite decide_False by lia. lia.
    + unfold a. rewrite processFileContent_jsonFileObjs. fold es.
      rewrite decide_False by done.
      destruct (JsMap.get q (jsonFileObjs (registry w))) as [refs|] eqn:Hg;
        [|done].
      cbn. f_equal. symmetry. apply fmap_shift_below. intros. by eapply Hbfo.
  - intros q. rewrite processFileContent_jsonFileSchemas. fold es.
    unfold a. rewrite processFileContent_jsonFileSchemas. fold es n.
    rewrite Hlen, Hfs.
    destruct (decide (q = p)) as [->|Hne].
    + destruct (positions is_schema es) as [|i0 ps] eqn:Hps.
      * unfold a. rewrite processFileContent_jsonFileSchemas. fold es.
        rewrite decide_True by done. rewrite Hps.
        by destruct (JsMap.get p (jsonFileSchemas (registry w))).
      * cbn [fmap option_fmap option_map]. f_equal.
        rewrite <- list_fmap_compose. apply list_fmap_ext.
        intros ? i _. cbn. unfold shift. rewrite decide_False by lia. lia.
    + unfold a. rewrite processFileContent_jsonFileSchemas. fold es.
      rewrite decide_False by done.
      destruct (JsMap.get q (jsonFileSchemas (registry w))) as [refs|] eqn:Hg;
        [|done].
      cbn. f_equal. symmetry. apply fmap_shift_below. intros. by eapply Hbfs.
  - intros q. rewrite processFileContent_jsonFiles, Hf.
    unfold a. rewrite processFileContent_jsonFiles.
    by case_decide.
  - intros q. rewrite processFileContent_invalidFiles, Hi.
    unfold a. rewrite processFileContent_invalidFiles.
    by case_decide.
  - intros k.
    destruct (processFileContent_rest X p name content cfg a')
      as (_ & -> & _).
    by rewrite Hc.
  - destruct (processFileContent_rest X p name content cfg a')
      as (_ & _ & ->).
    done.
  - intros r1 r2. rewrite Hheap, length_app. apply shift_injective.
  - intros ref e He.
    rewrite processFileContent_heap. fold es.
    unfold shift. case_decide as Hlt.
    + rewrite lookup_app_l by lia. rewrite Hh, He.
      case_decide; [right|left]; [split|]; auto.
    + left. rewrite lookup_app_r by lia.
      rewrite Hheap, lookup_app_r in He by lia.
      rewrite <- He. f_equal. lia.
  - intros k.
    destruct (processFileContent_rest X p name content cfg a')
      as (-> & _).
    rewrite Ha. case_decide as Hin; [right|by left].
    split; [|done].
    apply elem_of_missingOf in Hin as (ref & e & Hin & He & Hk).
    apply elem_of_missingOf. exists ref, e. split_and!; auto.
Qed.

End Reingest.

(** ** Re-ingestion *)

Section Reingestion.
Context (X : Collaborators).

Lemma same_index_state_refl w : same_index_state w w.
Proof. by split_and!. Qed.

(** A world that is partly validated is the world it started from, under
    the same references. *)
Lemma partly_validated_renamed a visited a' :
  partly_validated X a visited a' →
  (∀ ref, ref ∈ visited → ref ∈ indexedRefs a) →
  renamed X id a a'.
Proof.
  intros ((Hs & Ho & Hf & Hi & Hfo & Hfs & Hc & Hd) & Hh & Ha) Hvis.
  split_and!.
  - intros k. rewrite Hs. by destruct (JsMap.get k _).
  - intros k. rewrite Ho. by destruct (JsMap.get k _).
  - intros q. rewrite Hfo. destruct (JsMap.get q _); [|done].
    cbn. by rewrite list_fmap_id.
  - intros q. rewrite Hfs. destruct (JsMap.get q _); [|done].
    cbn. by rewrite list_fmap_id.
  - intros q. by rewrite Hf.
  - intros q. by rewrite Hi.
  - intros k. by rewrite Hc.
  - done.
  - done.
  - intros ref e He. cbn. rewrite Hh, He.
    case_decide; [right|left]; [split|]; auto.
  - intros k. rewrite Ha. case_decide as Hin; [right|by left].
    split; [|done].
    apply elem_of_missingOf in Hin as (ref & e & Hin & He & Hk).
    apply elem_of_missingOf. exists ref, e. split_and!; auto.
Qed.

(** A second validation pass changes nothing. *)
Lemma validateEntities_idempotent w :
  well_formed w →
  same_index_state (validateEntities X (validateEntities X w))
    (validateEntities X w).
Proof.
  intros Hw.
  apply (renamed_same_after_pass X id w (validateEntities X w));
    [done|by apply validateEntities_well_formed|].
  eapply partly_validated_renamed; [apply validateEntities_closed|done].
Qed.


Lemma ingestFiles_well_formed files cfg w :
  well_formed w → well_formed (ingestFiles X files cfg w).
Proof.
  intros Hw. unfold ingestFiles. apply validateEntities_well_formed.
  revert w Hw. induction files as [|file files IH]; intros w Hw; [done|].
  cbn [foldl]. apply IH. case_match; [done|].
  by apply processFileContent_well_formed.
Qed.

End Reingestion.

Lemma emptyWorld_well_formed : well_formed Sample.emptyWorld.
Proof.
  split_and!; try apply NoDup_nil_2; intros; done.
Qed.

(** The iteration order of a main map is not part of the index state: when
    a file registers an id that another file holds, the first ingestion
    overwrites the entry in place, and the second one deletes the key and
    appends it. *)
Example reingestion_moves_a_clobbered_key :
  let w :=
    ingestFiles Sample.X [Sample.fileB; Sample.fileC] tt Sample.emptyWorld in
  JsMap.keys (jsonObjs (registry (ingestFiles Sample.X [Sample.fileA] tt w)))
  = ["X"; "O1"]
  ∧ JsMap.keys
      (jsonObjs
         (registry (ingestFiles Sample.X [Sample.fileA; Sample.fileA] tt w)))
    = ["O1"; "X"].
Proof. vm_compute. split; reflexivity. Qed.


(** ** The theorems at work on the sample registry *)

Lemma worldC_typed : typed_indices Sample.worldC.
Proof.
  split; intros ref Hin.
  - assert (ref = 0) as ->.
    { change (ref ∈ [0]) in Hin. by apply list_elem_of_singleton in Hin. }
    eexists. split; reflexivity.
  - assert (ref = 1) as ->.
    { change (ref ∈ [1]) in Hin. by apply list_elem_of_singleton in Hin. }
    exists Sample.entityO1. split; [reflexivity|done].
Qed.




(** * Further properties of the registry *)

(** ** Strings *)

Lemma append_cons (c : ascii) (a b : string) :
  String c a +:+ b = String c (a +:+ b).
Proof. reflexivity. Qed.

Lemma append_assoc (a b c : string) : (a +:+ b) +:+ c = a +:+ b +:+ c.
Proof.
  induction a as [|x a IH]; [done|]. by rewrite !append_cons, IH.
Qed.

Lemma append_nonempty (a b : string) : a ≠ "" → a +:+ b ≠ "".
Proof. destruct a; [done|]. intros _. discriminate. Qed.

Lemma default_truthy_nonempty (d : string) (x : option string) :
  d ≠ "" → default d (truthy x) ≠ "".
Proof.
  intros Hd. destruct x as [s|]; cbn; [|done].
  by destruct (decide (s = "")).
Qed.

Lemma default_truthy_Some (d s : string) :
  default d (truthy (Some s)) = if decide (s = "") then d else s.
Proof. cbn. by destruct (decide (s = "")). Qed.

(** ** Candidate file names *)

Lemma endsWith_suffix (s suffix : string) :
  endsWith s suffix = true ↔ ∃ base, s = base +:+ suffix.
Proof.
  induction s as [|c s IH]; cbn [endsWith].
  - rewrite orb_false_r, bool_decide_eq_true. split.
    + intros <-. by exists "".
    + intros [[|c b] Hb]; [done|]. by rewrite append_cons in Hb.
  - rewrite orb_true_iff, bool_decide_eq_true, IH. split.
    + intros [<- | [b ->]]; [by exists ""|].
      exists (String c b). by rewrite append_cons.
    + intros [[|c' b] Hb]; [by left|].
      rewrite append_cons in Hb. injection Hb as -> ->. right. by exists b.
Qed.

(** X1: [isGtsCandidateFileName] accepts exactly the names that end in one
    of the five extensions [.json], [.jsonc], [.gts], [.yaml] and [.yml];
    what stands before the extension does not matter (it may be empty, or
    hold directories), and the letters are compared as they are. *)
Theorem candidate_file_names (fileName : string) :
  isGtsCandidateFileName fileName = true ↔
  ∃ base ext,
    ext ∈ [".json"; ".jsonc"; ".gts"; ".yaml"; ".yml"]
    ∧ fileName = base +:+ ext.
Proof.
  unfold isGtsCandidateFileName.
  rewrite !orb_true_iff, !endsWith_suffix. split.
  - intros [[[[[b ->] | [b ->]] | [b ->]] | [b ->]] | [b ->]];
      eexists b, _; (split; [|done]); rewrite !elem_of_cons; tauto.
  - intros (b & ext & Hext & ->).
    rewrite !elem_of_cons, elem_of_nil in Hext.
    destruct Hext as [-> | [-> | [-> | [-> | [-> | []]]]]]; eauto 10.
Qed.

Example candidate_file_names_samples :
  isGtsCandidateFileName "schemas/order.v1.yaml" = true
  ∧ isGtsCandidateFileName ".gts" = true
  ∧ isGtsCandidateFileName "order.JSON" = false
  ∧ isGtsCandidateFileName "order.json.bak" = false.
Proof. done. Qed.

(** ** Files of the viewer's own directory *)

Lemma gts_viewer_here_spec (s : string) :
  gts_viewer_here s = true ↔
  ∃ sep rest, s = ".gts-viewer" +:+ String sep rest ∧ is_sep sep = true.
Proof.
  unfold gts_viewer_here. split.
  - destruct (strip_prefix ".gts-viewer" s) as [[|c r]|] eqn:Hs; try done.
    intros Hc. apply strip_prefix_Some in Hs. by exists c, r.
  - intros (sep & rest & -> & Hsep). by rewrite strip_prefix_app.
Qed.

Lemma gts_viewer_after_sep_spec (s : string) :
  gts_viewer_after_sep s = true ↔
  ∃ dir sep' sep rest,
    s = dir +:+ String sep' (".gts-viewer" +:+ String sep rest)
    ∧ is_sep sep' = true ∧ is_sep sep = true.
Proof.
  induction s as [|c s IH]; cbn [gts_viewer_after_sep].
  - split; [done|]. intros ([|? dir] & ? & ? & ? & H & _); done.
  - rewrite orb_true_iff, andb_true_iff, gts_viewer_here_spec, IH. split.
    + intros [[Hc (sep & rest & -> & Hsep)]
             | (dir & s' & sep & rest & -> & ? & ?)].
      * by exists "", c, sep, rest.
      * exists (String c dir), s', sep, rest. by rewrite append_cons.
    + intros ([|c' dir] & s' & sep & rest & H & Hs' & Hsep).
      * cbn in H. injection H as -> ->. left. split; [done|].
        by exists sep, rest.
      * rewrite append_cons in H. injection H as -> ->. right.
        by exists dir, s', sep, rest.
Qed.

(** X2: the test of [ingestFiles] on a path,
    [/(^|[\\\/])\.gts-viewer[\\\/]/], holds exactly of the paths with a
    directory named [.gts-viewer] on them: the name at the start of the
    path or right after a slash or backslash, and a slash or backslash
    after it. *)
Theorem viewer_directory_paths (p : string) :
  inGtsViewerDir p = true ↔ in_viewer_directory p.
Proof.
  unfold inGtsViewerDir, in_viewer_directory.
  rewrite orb_true_iff, gts_viewer_here_spec, gts_viewer_after_sep_spec.
  split.
  - intros [(sep & rest & -> & Hsep)
           | (dir & s' & sep & rest & -> & Hs' & Hsep)].
    + exists "", sep, rest. auto.
    + exists (dir +:+ String s' ""), sep, rest. split_and!; [|done|eauto].
      by rewrite append_assoc.
  - intros (before & sep & rest & -> & Hsep & [-> | (dir & s' & -> & Hs')]).
    + left. by exists sep, rest.
    + right. exists dir, s', sep, rest. by rewrite append_assoc.
Qed.

Section Skip.
Context (X : Collaborators).

(** X3: [ingestFiles] passes over the files of a [.gts-viewer] directory.
    A batch with such a file in it leaves the registry as the batch without
    the file does: the file is not registered, not filed as invalid, and
    what was recorded under its path before stays. *)
Theorem viewer_files_are_skipped (before after : list FileInput.t)
    (file : FileInput.t) (cfg : GtsConfig X) (w : World) :
  in_viewer_directory (FileInput.path file) →
  ingestFiles X (before ++ file :: after) cfg w
  = ingestFiles X (before ++ after) cfg w.
Proof.
  intros Hp%viewer_directory_paths. unfold ingestFiles.
  by rewrite !foldl_app; cbn [foldl]; rewrite Hp.
Qed.

End Skip.

Lemma viewer_files_are_skipped_witness :
  in_viewer_directory "repo/.gts-viewer/layout.json"
  ∧ ingestFiles Sample.X
      ([Sample.fileA]
       ++ FileInput.mk "repo/.gts-viewer/layout.json" "layout.json"
            (JObj [("id", JStr "L")])
          :: [Sample.fileC]) tt Sample.emptyWorld
    = ingestFiles Sample.X ([Sample.fileA] ++ [Sample.fileC]) tt
        Sample.emptyWorld.
Proof.
  assert (in_viewer_directory "repo/.gts-viewer/layout.json") as H.
  { exists "repo/", "/"%char, "layout.json". split_and!; [done..|].
    right. by exists "repo", "/"%char. }
  split; [done|].
  by apply (viewer_files_are_skipped Sample.X [Sample.fileA] [Sample.fileC]
              (FileInput.mk "repo/.gts-viewer/layout.json" "layout.json"
                 (JObj [("id", JStr "L")]))).
Defined.

(** ** More on [JsMap] *)

Section JsMapMore.
Context {V : Type}.
Implicit Types m : JsMap.t V.

Lemma has_delete_eq m k : JsMap.has k (JsMap.delete k m) = false.
Proof. apply has_false_get, get_delete_eq. Qed.

Lemma delete_delete m k :
  JsMap.delete k (JsMap.delete k m) = JsMap.delete k m.
Proof. apply delete_absent, get_delete_eq. Qed.

Lemma delete_set_absent m k v :
  JsMap.get k m = None → JsMap.delete k (JsMap.set k v m) = m.
Proof.
  induction m as [|[k' v'] m IH]; cbn [JsMap.get JsMap.set]; intros Hk.
  - unfold JsMap.delete. rewrite filter_cons. cbn.
    by rewrite decide_False by naive_solver.
  - destruct (decide (k = k')) as [->|Hne]; [done|].
    unfold JsMap.delete in *. rewrite filter_cons. cbn.
    rewrite decide_True by naive_solver. f_equal. by apply IH.
Qed.

Lemma set_same m k v : JsMap.get k m = Some v → JsMap.set k v m = m.
Proof.
  induction m as [|[k' v'] m IH]; cbn [JsMap.get JsMap.set]; [done|].
  destruct (decide (k = k')) as [->|Hne]; [by intros [= ->]|].
  intros Hk. f_equal. by apply IH.
Qed.

Lemma elem_of_keys_get m key : key ∈ JsMap.keys m ↔ JsMap.get key m ≠ None.
Proof.
  rewrite get_None_keys. split; [tauto|].
  intros H. by destruct (decide (key ∈ JsMap.keys m)).
Qed.

Lemma same_lookups_same_size m1 m2 :
  NoDup (JsMap.keys m1) → NoDup (JsMap.keys m2) →
  (∀ key, JsMap.get key m1 = JsMap.get key m2) →
  length (JsMap.keys m1) = length (JsMap.keys m2).
Proof.
  intros H1 H2 Heq. apply Permutation_length, NoDup_Permutation; [done..|].
  intros key. by rewrite !elem_of_keys_get, Heq.
Qed.

End JsMapMore.

(** ** [invalidateFile] as a whole *)

Ltac registry_fields :=
  cbv [invalidateFile with_jsonObjs with_jsonSchemas with_jsonFiles
       with_invalidFiles with_jsonFileObjs with_jsonFileSchemas
       jsonObjs jsonSchemas jsonFiles invalidFiles jsonFileObjs
       jsonFileSchemas absentGtsEntities fetchCache defaultFilePath].

Lemma registry_eq (r1 r2 : JsonRegistry) :
  jsonObjs r1 = jsonObjs r2 → jsonSchemas r1 = jsonSchemas r2 →
  jsonFiles r1 = jsonFiles r2 → invalidFiles r1 = invalidFiles r2 →
  jsonFileObjs r1 = jsonFileObjs r2 →
  jsonFileSchemas r1 = jsonFileSchemas r2 →
  absentGtsEntities r1 = absentGtsEntities r2 →
  fetchCache r1 = fetchCache r2 → defaultFilePath r1 = defaultFilePath r2 →
  r1 = r2.
Proof. destruct r1, r2; cbn; congruence. Qed.

(** X4: [invalidateFile] on a path the registry has no record of (the path
    is a key of none of [jsonFiles], [invalidFiles], [jsonFileObjs] and
    [jsonFileSchemas]) changes nothing. *)
Theorem invalidateFile_unknown_path (h : Heap) (p : string)
    (r : JsonRegistry) :
  JsMap.has p (jsonFiles r) = false →
  JsMap.has p (invalidFiles r) = false →
  JsMap.has p (jsonFileObjs r) = false →
  JsMap.has p (jsonFileSchemas r) = false →
  invalidateFile h p r = r.
Proof.
  intros Hf Hi Ho%has_false_get Hs%has_false_get.
  destruct r as [o s f i fo fs a c d].
  cbv [jsonFiles invalidFiles jsonFileObjs jsonFileSchemas] in Hf, Hi, Ho, Hs.
  registry_fields. by rewrite Hf, Hi, Ho, Hs.
Qed.

Lemma invalidateFile_unknown_path_witness :
  invalidateFile [] "a.json" newRegistry = newRegistry.
Proof. by apply invalidateFile_unknown_path. Defined.

(** X5: invalidating a path twice is invalidating it once: the second
    [invalidateFile] finds the two ownership lists of the path empty and
    nothing else under it, and leaves every map as it is, the positions of
    the keys included. *)
Theorem invalidateFile_idempotent (h : Heap) (p : string) (r : JsonRegistry) :
  invalidateFile h p (invalidateFile h p r) = invalidateFile h p r.
Proof.
  apply registry_eq.
  - rewrite (invalidateFile_jsonObjs h p (invalidateFile _ _ _)).
    rewrite invalidateFile_owned_objs.
    by destruct (JsMap.get p (jsonFileObjs r)).
  - rewrite (invalidateFile_jsonSchemas h p (invalidateFile _ _ _)).
    rewrite invalidateFile_owned_schemas.
    by destruct (JsMap.get p (jsonFileSchemas r)).
  - by rewrite !invalidateFile_jsonFiles, delete_delete.
  - by rewrite !invalidateFile_invalidFiles, delete_delete.
  - rewrite (invalidateFile_jsonFileObjs h p (invalidateFile _ _ _)).
    rewrite invalidateFile_owned_objs, invalidateFile_jsonFileObjs.
    destruct (JsMap.get p (jsonFileObjs r)) eqn:Ho; cbn; [|done].
    by rewrite delete_set_absent by apply get_delete_eq.
  - rewrite (invalidateFile_jsonFileSchemas h p (invalidateFile _ _ _)).
    rewrite invalidateFile_owned_schemas, invalidateFile_jsonFileSchemas.
    destruct (JsMap.get p (jsonFileSchemas r)) eqn:Ho; cbn; [|done].
    by rewrite delete_set_absent by apply get_delete_eq.
  - by rewrite !invalidateFile_absentGtsEntities.
  - by rewrite !invalidateFile_fetchCache.
  - by rewrite !invalidateFile_defaultFilePath.
Qed.

(** X6: what [invalidateFile(p)] leaves of the records by path.  The path
    [p] is in neither file map and its two ownership lists are empty; the
    key [p] itself stays in an ownership map that had it (the list is set
    anew, empty).  The file records and ownership lists of every other
    path, the placeholders and the fetch cache are untouched. *)
Theorem invalidateFile_forgets_the_path (h : Heap) (p : string)
    (r : JsonRegistry) :
  let r' := invalidateFile h p r in
  JsMap.has p (jsonFiles r') = false
  ∧ JsMap.has p (invalidFiles r') = false
  ∧ default [] (JsMap.get p (jsonFileObjs r')) = []
  ∧ default [] (JsMap.get p (jsonFileSchemas r')) = []
  ∧ JsMap.has p (jsonFileObjs r') = JsMap.has p (jsonFileObjs r)
  ∧ JsMap.has p (jsonFileSchemas r') = JsMap.has p (jsonFileSchemas r)
  ∧ (∀ q, q ≠ p →
       JsMap.get q (jsonFiles r') = JsMap.get q (jsonFiles r)
       ∧ JsMap.get q (invalidFiles r') = JsMap.get q (invalidFiles r)
       ∧ JsMap.get q (jsonFileObjs r') = JsMap.get q (jsonFileObjs r)
       ∧ JsMap.get q (jsonFileSchemas r') = JsMap.get q (jsonFileSchemas r))
  ∧ absentGtsEntities r' = absentGtsEntities r
  ∧ fetchCache r' = fetchCache r.
Proof.
  cbv zeta. split_and!.
  - by rewrite invalidateFile_jsonFiles, has_delete_eq.
  - by rewrite invalidateFile_invalidFiles, has_delete_eq.
  - rewrite invalidateFile_owned_objs.
    by destruct (JsMap.get p (jsonFileObjs r)).
  - rewrite invalidateFile_owned_schemas.
    by destruct (JsMap.get p (jsonFileSchemas r)).
  - unfold JsMap.has. rewrite invalidateFile_owned_objs.
    by destruct (JsMap.get p (jsonFileObjs r)).
  - unfold JsMap.has. rewrite invalidateFile_owned_schemas.
    by destruct (JsMap.get p (jsonFileSchemas r)).
  - intros q Hq. split_and!.
    + by rewrite invalidateFile_jsonFiles, get_delete_ne.
    + by rewrite invalidateFile_invalidFiles, get_delete_ne.
    + by apply invalidateFile_owned_objs_other.
    + by apply invalidateFile_owned_schemas_other.
  - apply invalidateFile_absentGtsEntities.
  - apply invalidateFile_fetchCache.
Qed.

(** ** Processing a document: what is found afterwards *)


Lemma last_registered_later sel k es j :
  last_registered sel k es = Some j →
  ∀ j' e, j < j' → es !! j' = Some e → sel e = true → JsonEntity.id e ≠ k.
Proof.
  revert j. induction es as [|e0 es IH]; intros j; cbn [last_registered];
    [done|].
  destruct (last_registered sel k es) as [i|] eqn:Hl.
  - intros [= <-] [|j'] e Hlt; [lia|]. cbn. apply (IH i); [done|lia].
  - case_match; [|done]. intros [= <-] [|j'] e Hlt; [lia|]. cbn.
    by apply (last_registered_None sel k es j' e).
Qed.

Lemma listed_ids_new sel k (h es : list JsonEntity.t) :
  k ∈ listed_ids (h ++ es) ((λ i, length h + i) <$> positions sel es)
  ↔ ∃ e, e ∈ es ∧ sel e = true ∧ JsonEntity.id e = k.
Proof.
  unfold listed_ids. rewrite list_elem_of_omap. split.
  - intros (ref & (i & -> & Hi)%list_elem_of_fmap & Hk).
    apply elem_of_positions in Hi as (e & He & Hsel).
    rewrite lookup_app_r in Hk by lia.
    replace (length h + i - length h) with i in Hk by lia.
    rewrite He in Hk. cbn in Hk. injection Hk as <-.
    exists e. split_and!; [|done..]. by eapply list_elem_of_lookup_2.
  - intros (e & [i Hi]%list_elem_of_lookup_1 & Hsel & <-).
    exists (length h + i). split.
    + apply list_elem_of_fmap. exists i. split; [done|].
      apply elem_of_positions. eauto.
    + rewrite lookup_app_r by lia.
      replace (length h + i - length h) with i by lia. by rewrite Hi.
Qed.

Section Processing.
Context (X : Collaborators).

(** X7: after a document is processed, the id of each entity it yielded
    leads, in the index of the entity's class, to an entity of this
    document: the last one of that class with that id (the entity itself
    when no later element repeats its id), whatever the id led to before.
    The reference is the one under which the entity object was stored. *)
Theorem last_entity_with_an_id_is_found (p name : string) (content : Json)
    (cfg : GtsConfig X) (w : World) (i : nat) (e : JsonEntity.t) :
  registeredEntities X p name content cfg !! i = Some e →
  let es := registeredEntities X p name content cfg in
  let w' := processFileContent X p name content cfg w in
  let index :=
    if is_schema e then jsonSchemas (registry w')
    else jsonObjs (registry w') in
  ∃ j e',
    i ≤ j ∧ es !! j = Some e'
    ∧ JsonEntity.id e' = JsonEntity.id e ∧ is_schema e' = is_schema e
    ∧ (∀ j' e'', j < j' → es !! j' = Some e'' →
         is_schema e'' = is_schema e →
         JsonEntity.id e'' ≠ JsonEntity.id e)
    ∧ JsMap.get (JsonEntity.id e) index = Some (length (heap w) + j)
    ∧ heap w' !! (length (heap w) + j) = Some e'.
Proof.
  intros He. cbv zeta.
  set (es := registeredEntities X p name content cfg) in *.
  set (sel := if is_schema e then is_schema else is_object).
  assert (sel e = true) as Hsel.
  { unfold sel, is_object. by destruct (is_schema e) eqn:Hs; rewrite ?Hs. }
  assert (∀ e', sel e' = true ↔ is_schema e' = is_schema e) as Hsel'.
  { intros e'. unfold sel, is_object.
    destruct (is_schema e); destruct (is_schema e'); naive_solver. }
  assert ((if is_schema e
           then jsonSchemas (registry (processFileContent X p name content cfg w))
           else jsonObjs (registry (processFileContent X p name content cfg w)))
          = (if is_schema e then jsonSchemas else jsonObjs)
              (registry (processFileContent X p name content cfg w))) as ->
    by by destruct (is_schema e).
  assert (JsMap.get (JsonEntity.id e)
            ((if is_schema e then jsonSchemas else jsonObjs)
               (registry (processFileContent X p name content cfg w)))
          = match last_registered sel (JsonEntity.id e) es with
            | Some j => Some (length (heap w) + j)
            | None =>
                JsMap.get (JsonEntity.id e)
                  ((if is_schema e then jsonSchemas else jsonObjs)
                     (registry (processFileContent X p name content cfg w)))
            end) as Hget.
  { unfold sel. destruct (is_schema e).
    - rewrite processFileContent_jsonSchemas. fold es.
      by destruct (last_registered is_schema _ es).
    - rewrite processFileContent_jsonObjs. fold es.
      by destruct (last_registered is_object _ es). }
  destruct (last_registered sel (JsonEntity.id e) es) as [j|] eqn:Hl.
  - pose proof (last_registered_later _ _ _ _ Hl) as Hlater.
    apply last_registered_Some in Hl as (e' & He' & Hsel1 & Hid).
    exists j, e'. split_and!; try done.
    + destruct (decide (i ≤ j)) as [|Hn]; [done|]. exfalso.
      apply (Hlater i e); [lia|done..].
    + by apply Hsel'.
    + intros j' e'' Hlt He'' Hs. apply (Hlater j' e''); [done..|].
      by apply Hsel'.
    + rewrite processFileContent_heap. fold es. rewrite lookup_app_r by lia.
      by replace (length (heap w) + j - length (heap w)) with j by lia.
  - exfalso. by apply (last_registered_None _ _ _ i e Hl He Hsel).
Qed.

(** X8: processing a document under the path [p] touches the records of no
    other path: their file records and ownership lists stay.  An id stays
    in its index as it was unless the document declares it or an entity
    listed under [p] before had it.  No existing entity object changes, and
    the placeholders and the default-file pointer stay. *)
Theorem processing_touches_one_path (p name : string) (content : Json)
    (cfg : GtsConfig X) (w : World) :
  let es := registeredEntities X p name content cfg in
  let w' := processFileContent X p name content cfg w in
  (∀ q, q ≠ p →
     JsMap.get q (jsonFiles (registry w')) = JsMap.get q (jsonFiles (registry w))
     ∧ JsMap.get q (invalidFiles (registry w'))
       = JsMap.get q (invalidFiles (registry w))
     ∧ JsMap.get q (jsonFileObjs (registry w'))
       = JsMap.get q (jsonFileObjs (registry w))
     ∧ JsMap.get q (jsonFileSchemas (registry w'))
       = JsMap.get q (jsonFileSchemas (registry w)))
  ∧ (∀ k,
       (∀ e, e ∈ es → JsonEntity.id e ≠ k) →
       (k ∉ listed_ids (heap w)
              (default [] (JsMap.get p (jsonFileObjs (registry w)))) →
        JsMap.get k (jsonObjs (registry w'))
        = JsMap.get k (jsonObjs (registry w)))
       ∧ (k ∉ listed_ids (heap w)
                (default [] (JsMap.get p (jsonFileSchemas (registry w)))) →
          JsMap.get k (jsonSchemas (registry w'))
          = JsMap.get k (jsonSchemas (registry w))))
  ∧ (∀ ref e, heap w !! ref = Some e → heap w' !! ref = Some e)
  ∧ absentGtsEntities (registry w') = absentGtsEntities (registry w)
  ∧ defaultFilePath (registry w') = defaultFilePath (registry w).
Proof.
  cbv zeta. set (es := registeredEntities X p name content cfg).
  destruct (processFileContent_rest X p name content cfg w) as (Ha & _ & Hd).
  split_and!; try done.
  - intros q Hq.
    rewrite processFileContent_jsonFiles, processFileContent_invalidFiles,
      processFileContent_jsonFileObjs, processFileContent_jsonFileSchemas.
    by rewrite !decide_False by done.
  - intros k Hk.
    assert (∀ sel, last_registered sel k es = None) as Hnone.
    { intros sel. destruct (last_registered sel k es) as [i|] eqn:Hl; [|done].
      apply last_registered_Some in Hl as (e & He & _ & Hid).
      exfalso. apply (Hk e); [|done]. by eapply list_elem_of_lookup_2. }
    split; intros Hnl.
    + rewrite processFileContent_jsonObjs. fold es.
      by rewrite Hnone, decide_False.
    + rewrite processFileContent_jsonSchemas. fold es.
      by rewrite Hnone, decide_False.
  - intros ref e He. rewrite processFileContent_heap.
    by apply lookup_app_l_Some.
Qed.

Lemma elem_of_declared sel (es : list JsonEntity.t) k :
  k ∈ JsonEntity.id <$> filter (λ e, sel e : bool) es
  ↔ ∃ e, e ∈ es ∧ sel e = true ∧ JsonEntity.id e = k.
Proof.
  rewrite list_elem_of_fmap. split.
  - intros (e & -> & [Hsel Hin]%list_elem_of_filter).
    exists e. split_and!; [done| |done]. by apply Is_true_true.
  - intros (e & Hin & Hsel & <-). exists e. split; [done|].
    apply list_elem_of_filter. split; [|done]. by apply Is_true_true.
Qed.

(** X9: ingesting a file and then invalidating its path leaves the records
    as invalidating the path alone would, with one difference: every id
    the document declared is gone from the index of its class, also when
    another file had registered that id before. *)
Theorem ingest_then_invalidate (file : FileInput.t) (cfg : GtsConfig X)
    (w : World) :
  inGtsViewerDir (FileInput.path file) = false →
  let p := FileInput.path file in
  let es :=
    registeredEntities X p (FileInput.name file) (FileInput.content file)
      (getGtsConfig X cfg) in
  let w1 := ingestFiles X [file] cfg w in
  let after := invalidateFile (heap w1) p (registry w1) in
  let without := invalidateFile (heap w) p (registry w) in
  (∀ k, JsMap.get k (jsonObjs after)
        = if decide (k ∈ JsonEntity.id <$> filter (λ e, is_object e : bool) es)
          then None else JsMap.get k (jsonObjs without))
  ∧ (∀ k, JsMap.get k (jsonSchemas after)
          = if decide (k ∈ JsonEntity.id
                             <$> filter (λ e, is_schema e : bool) es)
            then None else JsMap.get k (jsonSchemas without))
  ∧ (∀ q, JsMap.get q (jsonFiles after) = JsMap.get q (jsonFiles without))
  ∧ (∀ q, JsMap.get q (invalidFiles after)
          = JsMap.get q (invalidFiles without))
  ∧ (∀ q, default [] (JsMap.get q (jsonFileObjs after))
          = default [] (JsMap.get q (jsonFileObjs without)))
  ∧ (∀ q, default [] (JsMap.get q (jsonFileSchemas after))
          = default [] (JsMap.get q (jsonFileSchemas without))).
Proof.
  intros Hv. cbv zeta. unfold ingestFiles. cbn [foldl]. rewrite Hv.
  set (p := FileInput.path file).
  set (cfg' := getGtsConfig X cfg).
  set (es := registeredEntities X p (FileInput.name file)
               (FileInput.content file) cfg').
  set (w0 := processFileContent X p (FileInput.name file)
               (FileInput.content file) cfg' w).
  pose proof (validateEntities_closed X w0) as Hclosed.
  pose proof (λ ref, partly_validated_id X _ _ _ ref Hclosed) as Hids.
  destruct Hclosed as ((Hs & Ho & Hf & Hi & Hfo & Hfs & _) & _).
  destruct (processFileContent_owned X p (FileInput.name file)
              (FileInput.content file) cfg' w) as [Hoo Hos].
  fold es w0 in Hoo, Hos.
  assert (heap w0 = heap w ++ es) as Hheap
    by apply processFileContent_heap.
  split_and!.
  - intros k.
    destruct (invalidateFile_removes_listed_ids (heap (validateEntities X w0))
                p k (registry (validateEntities X w0))) as [-> _].
    destruct (invalidateFile_removes_listed_ids (heap w) p k (registry w))
      as [-> _].
    rewrite Hfo, Ho, Hoo, (listed_ids_ext _ (heap w0)) by done.
    rewrite Hheap.
    unfold w0. rewrite processFileContent_jsonObjs. fold es.
    destruct (decide (k ∈ JsonEntity.id <$> filter _ es)) as [Hin|Hnin].
    + rewrite decide_True; [done|].
      by apply listed_ids_new, elem_of_declared.
    + rewrite decide_False
        by (intros ?%listed_ids_new%elem_of_declared; done).
      destruct (last_registered is_object k es) as [i|] eqn:Hl; [|done].
      exfalso. apply Hnin, elem_of_declared.
      apply last_registered_Some in Hl as (e & He & ? & ?).
      exists e. split_and!; [|done..]. by eapply list_elem_of_lookup_2.
  - intros k.
    destruct (invalidateFile_removes_listed_ids (heap (validateEntities X w0))
                p k (registry (validateEntities X w0))) as [_ ->].
    destruct (invalidateFile_removes_listed_ids (heap w) p k (registry w))
      as [_ ->].
    rewrite Hfs, Hs, Hos, (listed_ids_ext _ (heap w0)) by done.
    rewrite Hheap.
    unfold w0. rewrite processFileContent_jsonSchemas. fold es.
    destruct (decide (k ∈ JsonEntity.id <$> filter _ es)) as [Hin|Hnin].
    + rewrite decide_True; [done|].
      by apply listed_ids_new, elem_of_declared.
    + rewrite decide_False
        by (intros ?%listed_ids_new%elem_of_declared; done).
      destruct (last_registered is_schema k es) as [i|] eqn:Hl; [|done].
      exfalso. apply Hnin, elem_of_declared.
      apply last_registered_Some in Hl as (e & He & ? & ?).
      exists e. split_and!; [|done..]. by eapply list_elem_of_lookup_2.
  - intros q. rewrite !invalidateFile_jsonFiles, Hf, !get_delete.
    case_decide; [done|]. unfold w0.
    by rewrite processFileContent_jsonFiles, decide_False.
  - intros q. rewrite !invalidateFile_invalidFiles, Hi, !get_delete.
    case_decide; [done|]. unfold w0.
    by rewrite processFileContent_invalidFiles, decide_False.
  - intros q. destruct (decide (q = p)) as [->|Hne].
    + rewrite !invalidateFile_owned_objs.
      by destruct (JsMap.get p (jsonFileObjs (registry (validateEntities X w0)))),
        (JsMap.get p (jsonFileObjs (registry w))).
    + rewrite !invalidateFile_owned_objs_other, Hfo by done. unfold w0.
      by rewrite processFileContent_jsonFileObjs, decide_False.
  - intros q. destruct (decide (q = p)) as [->|Hne].
    + rewrite !invalidateFile_owned_schemas.
      by destruct
           (JsMap.get p (jsonFileSchemas (registry (validateEntities X w0)))),
        (JsMap.get p (jsonFileSchemas (registry w))).
    + rewrite !invalidateFile_owned_schemas_other, Hfs by done. unfold w0.
      by rewrite processFileContent_jsonFileSchemas, decide_False.
Qed.

End Processing.

Lemma last_entity_with_an_id_is_found_witness :
  let es :=
    registeredEntities Sample.X "c.json" "c.json"
      (FileInput.content Sample.fileC) tt in
  let w' :=
    processFileContent Sample.X "c.json" "c.json"
      (FileInput.content Sample.fileC) tt Sample.emptyWorld in
  let index :=
    if is_schema Sample.entityO1 then jsonSchemas (registry w')
    else jsonObjs (registry w') in
  ∃ j e',
    1 ≤ j ∧ es !! j = Some e'
    ∧ JsonEntity.id e' = JsonEntity.id Sample.entityO1
    ∧ is_schema e' = is_schema Sample.entityO1
    ∧ (∀ j' e'', j < j' → es !! j' = Some e'' →
         is_schema e'' = is_schema Sample.entityO1 →
         JsonEntity.id e'' ≠ JsonEntity.id Sample.entityO1)
    ∧ JsMap.get (JsonEntity.id Sample.entityO1) index
      = Some (length (heap Sample.emptyWorld) + j)
    ∧ heap w' !! (length (heap Sample.emptyWorld) + j) = Some e'.
Proof.
  by apply (last_entity_with_an_id_is_found Sample.X "c.json" "c.json"
              (FileInput.content Sample.fileC) tt Sample.emptyWorld 1
              Sample.entityO1).
Defined.

Lemma ingest_then_invalidate_witness :
  let w := ingestFiles Sample.X [Sample.fileA] tt Sample.emptyWorld in
  let p := FileInput.path Sample.fileB in
  let es :=
    registeredEntities Sample.X p (FileInput.name Sample.fileB)
      (FileInput.content Sample.fileB) (getGtsConfig Sample.X tt) in
  let w1 := ingestFiles Sample.X [Sample.fileB] tt w in
  let after := invalidateFile (heap w1) p (registry w1) in
  let without := invalidateFile (heap w) p (registry w) in
  (∀ k, JsMap.get k (jsonObjs after)
        = if decide (k ∈ JsonEntity.id <$> filter (λ e, is_object e : bool) es)
          then None else JsMap.get k (jsonObjs without))
  ∧ (∀ k, JsMap.get k (jsonSchemas after)
          = if decide (k ∈ JsonEntity.id
                             <$> filter (λ e, is_schema e : bool) es)
            then None else JsMap.get k (jsonSchemas without))
  ∧ (∀ q, JsMap.get q (jsonFiles after) = JsMap.get q (jsonFiles without))
  ∧ (∀ q, JsMap.get q (invalidFiles after)
          = JsMap.get q (invalidFiles without))
  ∧ (∀ q, default [] (JsMap.get q (jsonFileObjs after))
          = default [] (JsMap.get q (jsonFileObjs without)))
  ∧ (∀ q, default [] (JsMap.get q (jsonFileSchemas after))
          = default [] (JsMap.get q (jsonFileSchemas without))).
Proof.
  by apply (ingest_then_invalidate Sample.X Sample.fileB tt
              (ingestFiles Sample.X [Sample.fileA] tt Sample.emptyWorld)).
Defined.

(** The id [X] of [a.json] is gone after [b.json], which declares it too,
    is ingested and invalidated. *)
Example ingest_then_invalidate_sample :
  let w := ingestFiles Sample.X [Sample.fileA] tt Sample.emptyWorld in
  let w1 := ingestFiles Sample.X [Sample.fileB] tt w in
  JsMap.get "X" (jsonObjs (registry w)) = Some 0
  ∧ JsMap.get "X" (jsonObjs (invalidateFile (heap w1) "b.json" (registry w1)))
    = None
  ∧ JsMap.get "X" (jsonObjs (invalidateFile (heap w) "b.json" (registry w)))
    = Some 0.
Proof. done. Qed.

(** ** Invariants of the registry

    What every call of a public method keeps, and so what holds of every
    world a new registry gets to. *)

Section Invariants.
Context (X : Collaborators).

Lemma revalidated_id_class e e' :
  revalidated e e' →
  JsonEntity.id e' = JsonEntity.id e ∧ JsonEntity.class e' = JsonEntity.class e.
Proof. intros ->. done. Qed.

Lemma consistent_ext w w' :
  jsonSchemas (registry w') = jsonSchemas (registry w) →
  jsonObjs (registry w') = jsonObjs (registry w) →
  jsonFiles (registry w') = jsonFiles (registry w) →
  invalidFiles (registry w') = invalidFiles (registry w) →
  jsonFileObjs (registry w') = jsonFileObjs (registry w) →
  jsonFileSchemas (registry w') = jsonFileSchemas (registry w) →
  length (heap w') = length (heap w) →
  (∀ ref e, heap w !! ref = Some e →
     ∃ e', heap w' !! ref = Some e' ∧ revalidated e e') →
  consistent w → consistent w'.
Proof.
  intros Hs Ho Hf Hi Hfo Hfs Hlen Hheap
    (Hwf & [Hks Hko] & (Hf1 & Hf2 & Hf3) & Htr & [Hos Hoo]).
  unfold consistent, well_formed, keyed_by_id, files_by_path,
    tracked_files_own_entities, no_orphans, ownedBy in *.
  rewrite Hs, Ho, Hf, Hi, Hfo, Hfs, Hlen. split_and!; try done; try tauto.
  - intros k ref (e & He & Hid & Hc)%Hks.
    apply Hheap in He as (e' & He' & [??]%revalidated_id_class).
    exists e'. split_and!; congruence.
  - intros k ref (e & He & Hid & Hc)%Hko.
    apply Hheap in He as (e' & He' & [??]%revalidated_id_class).
    exists e'. split_and!; congruence.
Qed.

Lemma consistent_frame w w' :
  validation_frame w w' → consistent w → consistent w'.
Proof.
  intros ((Hs & Ho & Hf & Hi & Hfo & Hfs & _ & _) & Hlen & Hheap).
  by apply consistent_ext.
Qed.

Lemma listed_ids_elem h listed ref e :
  ref ∈ listed → h !! ref = Some e → JsonEntity.id e ∈ listed_ids h listed.
Proof.
  intros Hin He. unfold listed_ids. apply list_elem_of_omap.
  exists ref. by rewrite He.
Qed.

Lemma consistent_invalidateFile p w :
  consistent w →
  consistent (mkWorld (heap w) (invalidateFile (heap w) p (registry w))).
Proof.
  intros ((Hns & Hno & Hbs & Hbo & Hbfo & Hbfs) & [Hks Hko]
          & (Hf1 & Hf2 & Hf3) & Htr & [Hos Hoo]).
  assert (∀ k ref,
            JsMap.get k (jsonSchemas (invalidateFile (heap w) p (registry w)))
            = Some ref →
            JsMap.get k (jsonSchemas (registry w)) = Some ref
            ∧ k ∉ listed_ids (heap w)
                    (default [] (JsMap.get p (jsonFileSchemas (registry w)))))
    as Hs'.
  { intros k ref.
    destruct (invalidateFile_removes_listed_ids (heap w) p k (registry w))
      as [_ ->].
    by case_decide. }
  assert (∀ k ref,
            JsMap.get k (jsonObjs (invalidateFile (heap w) p (registry w)))
            = Some ref →
            JsMap.get k (jsonObjs (registry w)) = Some ref
            ∧ k ∉ listed_ids (heap w)
                    (default [] (JsMap.get p (jsonFileObjs (registry w)))))
    as Ho'.
  { intros k ref.
    destruct (invalidateFile_removes_listed_ids (heap w) p k (registry w))
      as [-> _].
    by case_decide. }
  assert (∀ q refs,
            JsMap.get q (jsonFileObjs (invalidateFile (heap w) p (registry w)))
            = Some refs →
            (q = p ∧ refs = [])
            ∨ (q ≠ p ∧ JsMap.get q (jsonFileObjs (registry w)) = Some refs))
    as Hfo'.
  { intros q refs. destruct (decide (q = p)) as [->|Hne].
    - rewrite invalidateFile_owned_objs.
      destruct (JsMap.get p (jsonFileObjs (registry w))); naive_solver.
    - rewrite invalidateFile_owned_objs_other by done. naive_solver. }
  assert (∀ q refs,
            JsMap.get q
              (jsonFileSchemas (invalidateFile (heap w) p (registry w)))
            = Some refs →
            (q = p ∧ refs = [])
            ∨ (q ≠ p ∧ JsMap.get q (jsonFileSchemas (registry w)) = Some refs))
    as Hfs'.
  { intros q refs. destruct (decide (q = p)) as [->|Hne].
    - rewrite invalidateFile_owned_schemas.
      destruct (JsMap.get p (jsonFileSchemas (registry w))); naive_solver.
    - rewrite invalidateFile_owned_schemas_other by done. naive_solver. }
  split_and!; cbn [heap registry].
  - split_and!; cbn [heap registry].
    + rewrite invalidateFile_jsonSchemas.
      destruct (JsMap.get p (jsonFileSchemas (registry w))); [|done].
      by apply NoDup_keys_delete_listed.
    + rewrite invalidateFile_jsonObjs.
      destruct (JsMap.get p (jsonFileObjs (registry w))); [|done].
      by apply NoDup_keys_delete_listed.
    + intros k ref [Hg _]%Hs'. eauto.
    + intros k ref [Hg _]%Ho'. eauto.
    + intros q refs ref [[-> ->] | [Hne Hg]]%Hfo'; [by intros ?%elem_of_nil|].
      eauto.
    + intros q refs ref [[-> ->] | [Hne Hg]]%Hfs'; [by intros ?%elem_of_nil|].
      eauto.
  - split; cbn [heap registry].
    + intros k ref [Hg _]%Hs'. eauto.
    + intros k ref [Hg _]%Ho'. eauto.
  - split_and!; cbn [heap registry].
    + intros q f. rewrite invalidateFile_jsonFiles, get_delete.
      case_decide; [done|]. apply Hf1.
    + intros q f. rewrite invalidateFile_invalidFiles, get_delete.
      case_decide; [done|]. apply Hf2.
    + intros q. unfold JsMap.has.
      rewrite invalidateFile_jsonFiles, invalidateFile_invalidFiles, !get_delete.
      case_decide; [done|]. apply Hf3.
  - intros q. cbn [heap registry]. unfold ownedBy.
    destruct (decide (q = p)) as [->|Hne].
    + rewrite invalidateFile_jsonFiles, has_delete_eq.
      rewrite invalidateFile_owned_objs, invalidateFile_owned_schemas.
      split; [done|].
      by destruct (JsMap.get p (jsonFileObjs _)), (JsMap.get p (jsonFileSchemas _)).
    + unfold JsMap.has. rewrite invalidateFile_jsonFiles, get_delete_ne by done.
      rewrite invalidateFile_owned_objs_other, invalidateFile_owned_schemas_other
        by done.
      apply Htr.
  - split; cbn [heap registry].
    + intros k ref [Hg Hnl]%Hs'.
      destruct (Hos _ _ Hg) as [q Hq]. exists q.
      destruct (decide (q = p)) as [->|Hne].
      * exfalso. apply Hnl. destruct (Hks _ _ Hg) as (e & He & <- & _).
        by eapply listed_ids_elem.
      * by rewrite invalidateFile_owned_schemas_other.
    + intros k ref [Hg Hnl]%Ho'.
      destruct (Hoo _ _ Hg) as [q Hq]. exists q.
      destruct (decide (q = p)) as [->|Hne].
      * exfalso. apply Hnl. destruct (Hko _ _ Hg) as (e & He & <- & _).
        by eapply listed_ids_elem.
      * by rewrite invalidateFile_owned_objs_other.
Qed.

Lemma consistent_processFileContent p name content cfg w :
  consistent w → consistent (processFileContent X p name content cfg w).
Proof.
  intros (Hwf & [Hks Hko] & (Hf1 & Hf2 & Hf3) & Htr & [Hos Hoo]).
  set (es := registeredEntities X p name content cfg).
  set (jsonFile := newJsonFile X p name content).
  assert (es ≠ [] → hasParseErrors jsonFile = false) as Hparse.
  { unfold es, registeredEntities. fold jsonFile.
    by destruct (hasParseErrors jsonFile). }
  split_and!.
  - by apply processFileContent_well_formed.
  - split.
    + intros k ref.
      rewrite processFileContent_jsonSchemas, processFileContent_heap.
      fold es.
      destruct (last_registered is_schema k es) as [i|] eqn:Hl.
      * intros [= <-].
        apply last_registered_Some in Hl as (e & He & Hsel & Hid).
        exists e. split_and!; [|done|].
        -- rewrite lookup_app_r by lia.
           by replace (length (heap w) + i - length (heap w)) with i by lia.
        -- by apply bool_decide_eq_true in Hsel.
      * case_decide; [done|]. intros (e & He & ?)%Hks. exists e.
        split; [|done]. by apply lookup_app_l_Some.
    + intros k ref.
      rewrite processFileContent_jsonObjs, processFileContent_heap.
      fold es.
      destruct (last_registered is_object k es) as [i|] eqn:Hl.
      * intros [= <-].
        apply last_registered_Some in Hl as (e & He & Hsel & Hid).
        exists e. split_and!; [|done|].
        -- rewrite lookup_app_r by lia.
           by replace (length (heap w) + i - length (heap w)) with i by lia.
        -- apply negb_true_iff in Hsel. by apply bool_decide_eq_false in Hsel.
      * case_decide; [done|]. intros (e & He & ?)%Hko. exists e.
        split; [|done]. by apply lookup_app_l_Some.
  - split_and!.
    + intros q f. rewrite processFileContent_jsonFiles. fold es jsonFile.
      case_decide; [subst q|apply Hf1].
      case_bool_decide; [|done]. intros [= <-]. split; [done|]. by apply Hparse.
    + intros q f. rewrite processFileContent_invalidFiles. fold jsonFile.
      case_decide; [subst q|apply Hf2].
      destruct (hasParseErrors jsonFile) eqn:Hp; [|done]. by intros [= <-].
    + intros q. unfold JsMap.has.
      rewrite processFileContent_jsonFiles, processFileContent_invalidFiles.
      fold es jsonFile. case_decide; [|apply Hf3].
      case_bool_decide; [|done]. intros _. by rewrite Hparse.
  - intros q. unfold ownedBy, JsMap.has.
    rewrite processFileContent_jsonFiles. fold es jsonFile.
    destruct (decide (q = p)) as [->|Hne].
    + destruct (processFileContent_owned X p name content cfg w) as [-> ->].
      fold es. pose proof (positions_length es) as Hlen.
      case_bool_decide as Hes.
      * split; [intros _|done]. intros Happ.
        apply (f_equal length) in Happ.
        rewrite length_app, !length_fmap, Hlen in Happ. by destruct es.
      * assert (es = []) as -> by (destruct es; naive_solver). naive_solver.
    + rewrite processFileContent_jsonFileObjs,
        processFileContent_jsonFileSchemas, !decide_False by done.
      apply Htr.
  - split.
    + intros k ref. rewrite processFileContent_jsonSchemas. fold es.
      destruct (last_registered is_schema k es) as [i|] eqn:Hl.
      * intros [= <-]. exists p.
        destruct (processFileContent_owned X p name content cfg w) as [_ ->].
        fold es. apply list_elem_of_fmap. exists i. split; [done|].
        apply elem_of_positions.
        apply last_registered_Some in Hl as (e & He & Hsel & _). eauto.
      * case_decide as Hl'; [done|]. intros Hg.
        destruct (Hos _ _ Hg) as [q Hq].
        destruct (decide (q = p)) as [->|Hne].
        -- exfalso. apply Hl'. destruct (Hks _ _ Hg) as (e & He & <- & _).
           by eapply listed_ids_elem.
        -- exists q.
           by rewrite processFileContent_jsonFileSchemas, decide_False.
    + intros k ref. rewrite processFileContent_jsonObjs. fold es.
      destruct (last_registered is_object k es) as [i|] eqn:Hl.
      * intros [= <-]. exists p.
        destruct (processFileContent_owned X p name content cfg w) as [-> _].
        fold es. apply list_elem_of_fmap. exists i. split; [done|].
        apply elem_of_positions.
        apply last_registered_Some in Hl as (e & He & Hsel & _). eauto.
      * case_decide as Hl'; [done|]. intros Hg.
        destruct (Hoo _ _ Hg) as [q Hq].
        destruct (decide (q = p)) as [->|Hne].
        -- exfalso. apply Hl'. destruct (Hko _ _ Hg) as (e & He & <- & _).
           by eapply listed_ids_elem.
        -- exists q.
           by rewrite processFileContent_jsonFileObjs, decide_False.
Qed.

Ltac empty_maps :=
  unfold consistent, well_formed, keyed_by_id, files_by_path,
    tracked_files_own_entities, no_orphans;
  cbn; split_and!; try done; try apply NoDup_nil_2.

Lemma consistent_new : consistent (mkWorld [] newRegistry).
Proof. empty_maps. Qed.

Lemma consistent_reset w :
  consistent (mkWorld (heap w) (reset (registry w))).
Proof.
  rewrite reset_fields. empty_maps.
Qed.

Lemma setDefaultFile_maps pathOrNull r :
  jsonSchemas (setDefaultFile pathOrNull r) = jsonSchemas r
  ∧ jsonObjs (setDefaultFile pathOrNull r) = jsonObjs r
  ∧ jsonFiles (setDefaultFile pathOrNull r) = jsonFiles r
  ∧ invalidFiles (setDefaultFile pathOrNull r) = invalidFiles r
  ∧ jsonFileObjs (setDefaultFile pathOrNull r) = jsonFileObjs r
  ∧ jsonFileSchemas (setDefaultFile pathOrNull r) = jsonFileSchemas r
  ∧ absentGtsEntities (setDefaultFile pathOrNull r) = absentGtsEntities r.
Proof. unfold setDefaultFile. by destruct (truthy pathOrNull). Qed.

Lemma consistent_setDefaultFile pathOrNull w :
  consistent w →
  consistent (mkWorld (heap w) (setDefaultFile pathOrNull (registry w))).
Proof.
  destruct (setDefaultFile_maps pathOrNull (registry w))
    as (? & ? & ? & ? & ? & ? & _).
  apply consistent_ext; try done.
  intros ref e He. exists e. split; [done|]. apply revalidated_refl.
Qed.

(** The loop of [ingestFiles] before the validation pass. *)
Lemma consistent_processFiles files cfg w :
  consistent w →
  consistent
    (foldl (λ w file,
              if inGtsViewerDir (FileInput.path file) then w
              else processFileContent X (FileInput.path file)
                     (FileInput.name file) (FileInput.content file) cfg w)
       w files).
Proof.
  revert w. induction files as [|file files IH]; intros w Hw; [done|].
  cbn [foldl]. apply IH. case_match; [done|].
  by apply consistent_processFileContent.
Qed.

Lemma consistent_ingestFiles files cfg w :
  consistent w → consistent (ingestFiles X files cfg w).
Proof.
  intros Hw. unfold ingestFiles.
  eapply consistent_frame; [apply validateEntities_frame|].
  by apply consistent_processFiles.
Qed.

Lemma consistent_call w c : consistent w → consistent (call X w c).
Proof.
  intros Hw. destruct c; cbn [call].
  - apply consistent_reset.
  - by apply consistent_invalidateFile.
  - by apply consistent_setDefaultFile.
  - by apply consistent_ingestFiles.
  - eapply consistent_frame; [apply validateEntities_frame|done].
  - eapply consistent_frame; [apply validateEntity_frame|done].
Qed.

(** *** Placeholders *)

Lemma absent_processFiles files cfg w :
  absentGtsEntities
    (registry
       (foldl (λ w file,
                 if inGtsViewerDir (FileInput.path file) then w
                 else processFileContent X (FileInput.path file)
                        (FileInput.name file) (FileInput.content file) cfg w)
          w files))
  = absentGtsEntities (registry w).
Proof.
  revert w. induction files as [|file files IH]; intros w; [done|].
  cbn [foldl]. rewrite IH. case_match; [done|].
  by destruct (processFileContent_rest X (FileInput.path file)
                 (FileInput.name file) (FileInput.content file) cfg w)
    as [-> _].
Qed.

(** What a call does to the placeholders: it adds some, each the one made
    for its identifier, and removes none. *)
Lemma absent_call w c k :
  JsMap.get k (absentGtsEntities (registry (call X w c)))
  = JsMap.get k (absentGtsEntities (registry w))
  ∨ JsMap.get k (absentGtsEntities (registry (call X w c)))
    = Some (createAbsentEntity X k).
Proof.
  destruct c; cbn [call registry].
  - left. by rewrite reset_fields.
  - left. by rewrite invalidateFile_absentGtsEntities.
  - left. by destruct (setDefaultFile_maps pathOrNull (registry w))
      as (_ & _ & _ & _ & _ & _ & ->).
  - unfold ingestFiles.
    match goal with |- context [validateEntities X ?w1] =>
      destruct (validateEntities_closed X w1) as (_ & _ & ->);
      rewrite (absent_processFiles files (getGtsConfig X cfg) w)
    end.
    case_decide; auto.
  - destruct (validateEntities_closed X w) as (_ & _ & ->). case_decide; auto.
  - destruct (heap w !! entity) as [e|] eqn:He.
    + rewrite (validateEntity_closed X entity w e He). cbn.
      rewrite get_recordAbsent. case_decide; auto.
    + rewrite (validateEntity_dangling X entity w He). auto.
Qed.

Lemma placeholders_call w c :
  placeholders_by_id X w → placeholders_by_id X (call X w c).
Proof.
  intros Hw k e. destruct (absent_call w c k) as [-> | ->]; [apply Hw|].
  by intros [= <-].
Qed.

(** *** Results of validation *)

Lemma indexed_validated_pass w : indexed_validated (validateEntities X w).
Proof.
  destruct (validateEntities_closed X w)
    as ((Hs & Ho & _) & Hheap & _).
  intros k ref e. rewrite Hs, Ho, Hheap. intros Hg.
  rewrite decide_True.
  - destruct (heap w !! ref); [|done]. by intros [= <-].
  - unfold indexedRefs. apply elem_of_app.
    destruct Hg as [Hg | Hg]; [left | right]; by eapply get_values.
Qed.

Lemma indexed_validated_call w c :
  indexed_validated w → indexed_validated (call X w c).
Proof.
  intros Hw. destruct c; cbn [call].
  - intros k ref e. cbn [registry]. rewrite reset_fields. by intros [? | ?].
  - intros k ref e. cbn [registry heap].
    destruct (invalidateFile_removes_listed_ids (heap w) path k (registry w))
      as [-> ->].
    intros Hg. apply (Hw k). by destruct Hg as [Hg | Hg]; [left | right];
      case_decide.
  - intros k ref e. cbn [registry heap].
    destruct (setDefaultFile_maps pathOrNull (registry w))
      as (-> & -> & _). apply Hw.
  - apply indexed_validated_pass.
  - apply indexed_validated_pass.
  - destruct (heap w !! entity) as [e0|] eqn:He0;
      [|by rewrite (validateEntity_dangling X entity w He0)].
    rewrite (validateEntity_closed X entity w e0 He0).
    intros k ref e. cbn [registry heap jsonSchemas jsonObjs
      with_absentGtsEntities]. intros Hg.
    destruct (decide (ref = entity)) as [->|Hne].
    + rewrite list_lookup_insert_eq by by eapply lookup_lt_Some.
      by intros [= <-].
    + rewrite list_lookup_insert_ne by done. by apply (Hw k).
Qed.

(** *** Every reachable world *)

Lemma reachable_invariant w :
  reachable X w →
  consistent w ∧ placeholders_by_id X w ∧ indexed_validated w.
Proof.
  intros [calls ->].
  induction calls as [|c calls IH] using rev_ind.
  - split_and!; [apply consistent_new|done|].
    intros k ref e [Hg | Hg]; done.
  - rewrite foldl_app. cbn [foldl]. destruct IH as (H1 & H2 & H3).
    split_and!.
    + by apply consistent_call.
    + by apply placeholders_call.
    + by apply indexed_validated_call.
Qed.

End Invariants.

(** ** Ingestion in batches *)

Section Batches.
Context (X : Collaborators).

Lemma unvalidated_fields w1 w2 :
  unvalidated w1 = unvalidated w2 →
  jsonObjs (registry w1) = jsonObjs (registry w2)
  ∧ jsonSchemas (registry w1) = jsonSchemas (registry w2)
  ∧ jsonFiles (registry w1) = jsonFiles (registry w2)
  ∧ invalidFiles (registry w1) = invalidFiles (registry w2)
  ∧ jsonFileObjs (registry w1) = jsonFileObjs (registry w2)
  ∧ jsonFileSchemas (registry w1) = jsonFileSchemas (registry w2)
  ∧ fetchCache (registry w1) = fetchCache (registry w2)
  ∧ defaultFilePath (registry w1) = defaultFilePath (registry w2)
  ∧ length (heap w1) = length (heap w2)
  ∧ ∀ ref, JsonEntity.set_validation None <$> heap w1 !! ref
           = JsonEntity.set_validation None <$> heap w2 !! ref.
Proof.
  destruct w1 as [h1 [o1 s1 f1 i1 fo1 fs1 a1 c1 d1]],
    w2 as [h2 [o2 s2 f2 i2 fo2 fs2 a2 c2 d2]].
  unfold unvalidated, with_absentGtsEntities. cbn. intros [= Hh -> -> -> -> -> -> -> ->].
  split_and!; try done.
  - apply (f_equal length) in Hh. by rewrite !length_fmap in Hh.
  - intros ref. by rewrite <- !list_lookup_fmap, Hh.
Qed.

Lemma unvalidated_intro w1 w2 :
  jsonObjs (registry w1) = jsonObjs (registry w2) →
  jsonSchemas (registry w1) = jsonSchemas (registry w2) →
  jsonFiles (registry w1) = jsonFiles (registry w2) →
  invalidFiles (registry w1) = invalidFiles (registry w2) →
  jsonFileObjs (registry w1) = jsonFileObjs (registry w2) →
  jsonFileSchemas (registry w1) = jsonFileSchemas (registry w2) →
  fetchCache (registry w1) = fetchCache (registry w2) →
  defaultFilePath (registry w1) = defaultFilePath (registry w2) →
  JsonEntity.set_validation None <$> heap w1
  = JsonEntity.set_validation None <$> heap w2 →
  unvalidated w1 = unvalidated w2.
Proof.
  destruct w1 as [h1 [o1 s1 f1 i1 fo1 fs1 a1 c1 d1]],
    w2 as [h2 [o2 s2 f2 i2 fo2 fs2 a2 c2 d2]].
  unfold unvalidated, with_absentGtsEntities. cbn. by intros -> -> -> -> -> -> -> -> ->.
Qed.

Lemma unvalidated_frame w w' :
  validation_frame w w' → unvalidated w' = unvalidated w.
Proof.
  intros ((Hs & Ho & Hf & Hi & Hfo & Hfs & Hc & Hd) & Hlen & Hheap).
  apply unvalidated_intro; try done.
  apply list_eq. intros ref. rewrite !list_lookup_fmap.
  destruct (heap w !! ref) as [e|] eqn:He.
  - destruct (Hheap _ _ He) as (e' & -> & ->). done.
  - apply lookup_ge_None in He. rewrite <- Hlen in He.
    apply lookup_ge_None in He. by rewrite He.
Qed.

Lemma delete_listed_ext h1 h2 listed (index : JsMap.t EntRef) :
  (∀ ref, JsonEntity.id <$> h1 !! ref = JsonEntity.id <$> h2 !! ref) →
  delete_listed h1 listed index = delete_listed h2 listed index.
Proof.
  intros Hid. unfold delete_listed. revert index.
  induction listed as [|ref listed IH]; intros index; [done|].
  cbn [foldl]. rewrite <- IH. f_equal.
  specialize (Hid ref).
  destruct (h1 !! ref), (h2 !! ref); simplify_eq/=; congruence.
Qed.

Lemma unvalidated_entity e1 e2 :
  JsonEntity.set_validation None e1 = JsonEntity.set_validation None e2 →
  JsonEntity.id e1 = JsonEntity.id e2
  ∧ JsonEntity.content e1 = JsonEntity.content e2
  ∧ JsonEntity.gtsRefs e1 = JsonEntity.gtsRefs e2
  ∧ e1 = JsonEntity.set_validation (JsonEntity.validation e1) e2.
Proof. destruct e1, e2. cbn. by intros [= -> -> -> -> -> -> -> ->]. Qed.

Lemma unvalidated_lookup (h1 h2 : Heap) ref :
  JsonEntity.set_validation None <$> h1 !! ref
  = JsonEntity.set_validation None <$> h2 !! ref →
  (h1 !! ref = None ∧ h2 !! ref = None)
  ∨ ∃ e1 e2, h1 !! ref = Some e1 ∧ h2 !! ref = Some e2
             ∧ JsonEntity.set_validation None e1
               = JsonEntity.set_validation None e2.
Proof.
  destruct (h1 !! ref) as [e1|], (h2 !! ref) as [e2|];
    cbn [fmap option_fmap option_map]; try done.
  - intros H. right. exists e1, e2. split_and!; [done..|]. congruence.
  - by left.
Qed.

Lemma heaps_same_ids w1 w2 :
  (∀ ref, JsonEntity.set_validation None <$> heap w1 !! ref
          = JsonEntity.set_validation None <$> heap w2 !! ref) →
  ∀ ref, JsonEntity.id <$> heap w1 !! ref = JsonEntity.id <$> heap w2 !! ref.
Proof.
  intros H ref.
  destruct (unvalidated_lookup _ _ _ (H ref))
    as [[-> ->] | (e1 & e2 & -> & -> & He)]; [done|].
  cbn. by destruct (unvalidated_entity _ _ He) as (-> & _).
Qed.

Lemma unvalidated_invalidateFile p w1 w2 :
  unvalidated w1 = unvalidated w2 →
  unvalidated (mkWorld (heap w1) (invalidateFile (heap w1) p (registry w1)))
  = unvalidated (mkWorld (heap w2) (invalidateFile (heap w2) p (registry w2))).
Proof.
  intros H. pose proof H as Hu.
  apply unvalidated_fields in H
    as (Ho & Hs & Hf & Hi & Hfo & Hfs & Hc & Hd & Hlen & Hheap).
  pose proof (heaps_same_ids _ _ Hheap) as Hids.
  apply unvalidated_intro; cbn [heap registry].
  - rewrite !invalidateFile_jsonObjs, Hfo, Ho.
    destruct (JsMap.get p (jsonFileObjs (registry w2))); [|done].
    by apply delete_listed_ext.
  - rewrite !invalidateFile_jsonSchemas, Hfs, Hs.
    destruct (JsMap.get p (jsonFileSchemas (registry w2))); [|done].
    by apply delete_listed_ext.
  - by rewrite !invalidateFile_jsonFiles, Hf.
  - by rewrite !invalidateFile_invalidFiles, Hi.
  - by rewrite !invalidateFile_jsonFileObjs, Hfo.
  - by rewrite !invalidateFile_jsonFileSchemas, Hfs.
  - by rewrite !invalidateFile_fetchCache.
  - by rewrite !invalidateFile_defaultFilePath.
  - by injection Hu.
Qed.

Lemma unvalidated_registerEntity p w1 w2 e :
  unvalidated w1 = unvalidated w2 →
  unvalidated (registerEntity p w1 e) = unvalidated (registerEntity p w2 e).
Proof.
  intros H. pose proof H as Hu.
  apply unvalidated_fields in H
    as (Ho & Hs & Hf & Hi & Hfo & Hfs & Hc & Hd & Hlen & Hheap).
  destruct (registerEntity_rest p w1 e) as (Hf1 & Hi1 & _ & Hc1 & Hd1).
  destruct (registerEntity_rest p w2 e) as (Hf2 & Hi2 & _ & Hc2 & Hd2).
  apply unvalidated_intro.
  - by rewrite !registerEntity_jsonObjs, Ho, Hlen.
  - by rewrite !registerEntity_jsonSchemas, Hs, Hlen.
  - congruence.
  - congruence.
  - by rewrite !registerEntity_jsonFileObjs, Hfo, Hlen.
  - by rewrite !registerEntity_jsonFileSchemas, Hfs, Hlen.
  - congruence.
  - congruence.
  - rewrite !registerEntity_heap, !fmap_app. f_equal. by injection Hu.
Qed.

Lemma unvalidated_registerAll p es w1 w2 :
  unvalidated w1 = unvalidated w2 →
  unvalidated (foldl (registerEntity p) w1 es)
  = unvalidated (foldl (registerEntity p) w2 es).
Proof.
  revert w1 w2. induction es as [|e es IH]; intros w1 w2 H; [done|].
  cbn [foldl]. by apply IH, unvalidated_registerEntity.
Qed.

Lemma unvalidated_processFileContent p name content cfg w1 w2 :
  unvalidated w1 = unvalidated w2 →
  unvalidated (processFileContent X p name content cfg w1)
  = unvalidated (processFileContent X p name content cfg w2).
Proof.
  intros H. rewrite !processFileContent_closed.
  pose proof (unvalidated_registerAll p
                (registeredEntities X p name content cfg) _ _
                (unvalidated_invalidateFile p w1 w2 H)) as Hu.
  pose proof Hu as Hu'.
  apply unvalidated_fields in Hu
    as (Ho & Hs & Hf & Hi & Hfo & Hfs & Hc & Hd & Hlen & Hheap).
  apply unvalidated_intro; cbn [heap registry jsonObjs jsonSchemas jsonFiles
    invalidFiles jsonFileObjs jsonFileSchemas fetchCache defaultFilePath
    with_jsonFiles with_invalidFiles]; try done.
  - by rewrite Hf.
  - by rewrite Hi.
  - by injection Hu'.
Qed.

Lemma unvalidated_processFiles files cfg w1 w2 :
  unvalidated w1 = unvalidated w2 →
  unvalidated
    (foldl (λ w file,
              if inGtsViewerDir (FileInput.path file) then w
              else processFileContent X (FileInput.path file)
                     (FileInput.name file) (FileInput.content file) cfg w)
       w1 files)
  = unvalidated
      (foldl (λ w file,
                if inGtsViewerDir (FileInput.path file) then w
                else processFileContent X (FileInput.path file)
                       (FileInput.name file) (FileInput.content file) cfg w)
         w2 files).
Proof.
  revert w1 w2. induction files as [|file files IH]; intros w1 w2 H; [done|].
  cbn [foldl]. apply IH. case_match; [done|].
  by apply unvalidated_processFileContent.
Qed.

Lemma unvalidated_schemaContent w1 w2 i :
  unvalidated w1 = unvalidated w2 → schemaContent w1 i = schemaContent w2 i.
Proof.
  intros (Ho & Hs & Hf & Hi & Hfo & Hfs & Hc & Hd & Hlen & Hheap)
    %unvalidated_fields.
  unfold schemaContent, resolveSchema, resolveSchemaRef. rewrite Hs.
  destruct (JsMap.get _ (jsonSchemas (registry w2))) as [ref|]; [|done].
  cbn.
  destruct (unvalidated_lookup _ _ _ (Hheap ref))
    as [[-> ->] | (e1 & e2 & -> & -> & He)]; [done|].
  cbn. by destruct (unvalidated_entity _ _ He) as (_ & -> & _).
Qed.

Lemma unvalidated_refExists w1 w2 i :
  unvalidated w1 = unvalidated w2 →
  refExists i (registry w1) = refExists i (registry w2).
Proof.
  intros (Ho & Hs & _)%unvalidated_fields. unfold refExists. by rewrite Ho, Hs.
Qed.

Lemma unvalidated_validated w1 w2 e1 e2 :
  unvalidated w1 = unvalidated w2 →
  JsonEntity.set_validation None e1 = JsonEntity.set_validation None e2 →
  validated X w1 e1 = validated X w2 e2.
Proof.
  intros Hu He.
  destruct (unvalidated_entity _ _ He) as (_ & _ & _ & ->).
  apply validated_ext.
  - intros i. by apply unvalidated_refExists.
  - intros i. by apply unvalidated_schemaContent.
Qed.

Lemma unvalidated_indexedRefs w1 w2 :
  unvalidated w1 = unvalidated w2 → indexedRefs w1 = indexedRefs w2.
Proof.
  intros (Ho & Hs & _)%unvalidated_fields. unfold indexedRefs. by rewrite Ho, Hs.
Qed.

Lemma unvalidated_pass_heap w1 w2 ref :
  unvalidated w1 = unvalidated w2 →
  ref ∈ indexedRefs w1 →
  heap (validateEntities X w1) !! ref = heap (validateEntities X w2) !! ref.
Proof.
  intros Hu Hin.
  destruct (validateEntities_closed X w1) as (_ & -> & _).
  destruct (validateEntities_closed X w2) as (_ & -> & _).
  rewrite <- (unvalidated_indexedRefs _ _ Hu), !decide_True by done.
  pose proof (unvalidated_fields _ _ Hu) as (_ & _ & _ & _ & _ & _ & _ & _ & _ & Hheap).
  destruct (unvalidated_lookup _ _ _ (Hheap ref))
    as [[-> ->] | (e1 & e2 & -> & -> & He)]; [done|].
  cbn. f_equal. by apply unvalidated_validated.
Qed.

Lemma unvalidated_missingOf w1 w2 refs :
  unvalidated w1 = unvalidated w2 → missingOf w1 refs = missingOf w2 refs.
Proof.
  intros Hu. unfold missingOf.
  pose proof (unvalidated_fields _ _ Hu) as (_ & _ & _ & _ & _ & _ & _ & _ & _ & Hheap).
  induction refs as [|ref refs IH]; [done|].
  cbn. rewrite IH. f_equal.
  destruct (unvalidated_lookup _ _ _ (Hheap ref))
    as [[-> ->] | (e1 & e2 & -> & -> & He)]; [done|].
  destruct (unvalidated_entity _ _ He) as (_ & _ & -> & _).
  apply missingIds_ext. intros i. by apply unvalidated_refExists.
Qed.

(** X10: one batch or two.  Ingesting [files1 ++ files2] at once, or
    [files1] and then [files2], gives the same six maps (the same keys in
    the same order, the same references), the same entity objects with the
    same results of validation under every reference of the two indices,
    and the same objects up to their result everywhere else (an entity
    that lost its key to a later file keeps the result of the pass in
    between).  Every placeholder of the batch is a placeholder of the two
    steps, which may have recorded more in the pass in between. *)
Theorem ingestion_in_one_batch_or_two (files1 files2 : list FileInput.t)
    (cfg : GtsConfig X) (w : World) :
  let batch := ingestFiles X (files1 ++ files2) cfg w in
  let steps := ingestFiles X files2 cfg (ingestFiles X files1 cfg w) in
  (jsonSchemas (registry steps) = jsonSchemas (registry batch)
   ∧ jsonObjs (registry steps) = jsonObjs (registry batch)
   ∧ jsonFiles (registry steps) = jsonFiles (registry batch)
   ∧ invalidFiles (registry steps) = invalidFiles (registry batch)
   ∧ jsonFileObjs (registry steps) = jsonFileObjs (registry batch)
   ∧ jsonFileSchemas (registry steps) = jsonFileSchemas (registry batch))
  ∧ (∀ ref, ref ∈ indexedRefs batch →
            heap steps !! ref = heap batch !! ref)
  ∧ (∀ ref, JsonEntity.set_validation None <$> heap steps !! ref
            = JsonEntity.set_validation None <$> heap batch !! ref)
  ∧ (∀ k, JsMap.has k (absentGtsEntities (registry batch)) = true →
          JsMap.has k (absentGtsEntities (registry steps)) = true).
Proof.
  cbv zeta. unfold ingestFiles. rewrite foldl_app.
  set (process := λ w file, if inGtsViewerDir (FileInput.path file) then w
       else processFileContent X (FileInput.path file)
              (FileInput.name file) (FileInput.content file)
              (getGtsConfig X cfg) w).
  set (a1 := foldl process w files1).
  set (a := foldl process a1 files2).
  set (c := foldl process (validateEntities X a1) files2).
  assert (unvalidated c = unvalidated a) as Hu.
  { apply unvalidated_processFiles, unvalidated_frame, validateEntities_frame. }
  assert (unvalidated (validateEntities X c) = unvalidated (validateEntities X a))
    as Hu2.
  { rewrite (unvalidated_frame c (validateEntities X c))
      by apply validateEntities_frame.
    by rewrite (unvalidated_frame a (validateEntities X a))
      by apply validateEntities_frame. }
  pose proof (unvalidated_fields _ _ Hu2)
    as (Ho & Hs & Hf & Hi & Hfo & Hfs & _ & _ & _ & Hheap).
  split_and!; try done.
  - intros ref Hin. apply unvalidated_pass_heap; [done|].
    rewrite (unvalidated_indexedRefs _ _ Hu).
    pose proof (validateEntities_frame X a) as ((Hs' & Ho' & _) & _).
    unfold indexedRefs in *. by rewrite <- Hs', <- Ho'.
  - intros k. unfold JsMap.has.
    destruct (validateEntities_closed X a) as (_ & _ & ->).
    destruct (validateEntities_closed X c) as (_ & _ & ->).
    rewrite (unvalidated_indexedRefs _ _ Hu), (unvalidated_missingOf _ _ _ Hu).
    case_decide; [done|].
    unfold a, c, process. rewrite !(absent_processFiles X).
    destruct (validateEntities_closed X a1) as (_ & _ & ->).
    unfold a1, process. rewrite !(absent_processFiles X). by case_decide.
Qed.

End Batches.

(** ** What [validateEntity] leaves in the entity *)

Section Outcome.
Context (X : Collaborators).

Lemma validateEntity_entity entity w e :
  heap w !! entity = Some e →
  heap (validateEntity X entity w) !! entity = Some (validated X w e).
Proof.
  intros He. rewrite (validateEntity_closed X entity w e He). cbn [heap].
  apply list_lookup_insert_eq. by eapply lookup_lt_Some.
Qed.

(** X11: when the second phase has nothing to do (validation is switched
    off by the host, or the entity is neither a schema nor an object, or
    it is an object without a schema id), the result of [validateEntity]
    holds the reference errors and nothing else; so such an entity is
    valid exactly when all its references outside the examples regions
    resolve. *)
Theorem reference_errors_only (entity : EntRef) (w : World)
    (e : JsonEntity.t) :
  heap w !! entity = Some e →
  validationDisabled X = true
  ∨ JsonEntity.class e = IsJsonEntity
  ∨ (JsonEntity.class e = IsJsonObj
     ∧ (JsonEntity.schemaId e = None ∨ JsonEntity.schemaId e = Some "")) →
  heap (validateEntity X entity w) !! entity
  = Some (JsonEntity.set_validation
            (Some {| errors :=
                       refErrors (registry w) (JsonEntity.gtsRefs e) |})
            e).
Proof.
  intros He Hskip. rewrite (validateEntity_entity _ _ _ He).
  unfold validated. do 3 f_equal.
  destruct Hskip as [-> | [Hc | [Hc Hs]]]; [by rewrite app_nil_r|..];
    destruct (validationDisabled X); rewrite ?app_nil_r; try done;
    unfold schemaPhaseErrors; rewrite Hc; [by rewrite app_nil_r|].
  unfold objectErrors. by destruct Hs as [-> | ->]; rewrite app_nil_r.
Qed.

Lemma schemaCompileErrors_shape (error : AjvFailure) :
  schemaCompileErrors X error ≠ []
  ∧ ∀ v, v ∈ schemaCompileErrors X error →
      ValidationError.keyword v ≠ "" ∧ ValidationError.message v ≠ ""
      ∧ ValidationError.schemaPath v ≠ "".
Proof.
  unfold schemaCompileErrors.
  destruct (failure_errors error) as [[|a es]|].
  - split; [done|]. intros v ->%list_elem_of_singleton. by split_and!.
  - split; [done|]. intros v (f & -> & Hf)%list_elem_of_fmap.
    cbn [ValidationError.keyword ValidationError.message
         ValidationError.schemaPath].
    split_and!; try by apply default_truthy_nonempty.
    unfold formatValidationErrors in Hf.
    apply list_elem_of_fmap in Hf as (err & -> & _).
    cbn [formatValidationError ValidationError.schemaPath].
    by apply default_truthy_nonempty.
  - split; [done|]. intros v ->%list_elem_of_singleton. by split_and!.
Qed.

(** X12: the result of a schema.  When its content compiles, the result
    holds the reference errors only.  When compilation throws, the result
    holds the reference errors and then at least one more error, and each
    of those has a keyword, a message and a schema path that are not
    empty: a schema that does not compile is never reported valid. *)
Theorem schema_validity (entity : EntRef) (w : World) (e : JsonEntity.t) :
  heap w !! entity = Some e →
  JsonEntity.class e = IsJsonSchema →
  validationDisabled X = false →
  let result := heap (validateEntity X entity w) !! entity in
  let refErrs := refErrors (registry w) (JsonEntity.gtsRefs e) in
  (∀ validate,
     compileAsync X (loadSchema X w) (JsonEntity.content e)
     = Compiled validate →
     result
     = Some (JsonEntity.set_validation (Some {| errors := refErrs |}) e))
  ∧ (∀ error,
       compileAsync X (loadSchema X w) (JsonEntity.content e)
       = CompileThrows error →
       ∃ errs,
         errs ≠ []
         ∧ result
           = Some (JsonEntity.set_validation
                     (Some {| errors := refErrs ++ errs |}) e)
         ∧ ∀ v, v ∈ errs →
             ValidationError.keyword v ≠ ""
             ∧ ValidationError.message v ≠ ""
             ∧ ValidationError.schemaPath v ≠ "").
Proof.
  intros He Hc Hv. cbv zeta. rewrite (validateEntity_entity _ _ _ He).
  unfold validated, schemaPhaseErrors. rewrite Hv, Hc. split.
  - intros validate ->. by rewrite app_nil_r.
  - intros error ->. exists (schemaCompileErrors X error).
    destruct (schemaCompileErrors_shape error) as [Hne Hall]. done.
Qed.

(** X14: an object whose schema id resolves to no schema gets, after its
    reference errors, exactly one error: keyword [schema], the message
    naming the schema id, and the path of the field the id was read from
    (the selected schema-id field, else the selected entity-id field, else
    [id]). *)
Theorem object_schema_not_found (entity : EntRef) (w : World)
    (e : JsonEntity.t) (schemaId : string) :
  heap w !! entity = Some e →
  JsonEntity.class e = IsJsonObj →
  validationDisabled X = false →
  JsonEntity.schemaId e = Some schemaId → schemaId ≠ "" →
  resolveSchema schemaId w = None →
  let idField :=
    default (default "id" (truthy (JsonEntity.selectedEntityIdField e)))
      (truthy (JsonEntity.selectedSchemaIdField e)) in
  heap (validateEntity X entity w) !! entity
  = Some (JsonEntity.set_validation
            (Some {| errors :=
                       refErrors (registry w) (JsonEntity.gtsRefs e)
                       ++ [ValidationError.mk ("/" +:+ idField) "#" "schema"
                             ("Schema not found: " +:+ schemaId)
                             [("schemaId", JStr schemaId)] None] |})
            e).
Proof.
  intros He Hc Hv Hs Hne Hres. cbv zeta.
  rewrite (validateEntity_entity _ _ _ He).
  unfold validated, schemaPhaseErrors, objectErrors.
  by rewrite Hv, Hc, Hs, (truthy_Some _ Hne), Hres.
Qed.

(** X15: an object whose schema resolves and compiles.  Its result holds
    the reference errors first and then what the validator says of its
    content: nothing when the content conforms (or when the validator
    reports failure without a list of errors), one formatted error for
    each error of the validator, in its order, or one error of keyword
    [validation] when running the validator throws. *)
Theorem object_validated_against_its_schema (entity : EntRef) (w : World)
    (e schema : JsonEntity.t) (schemaId : string)
    (validate : Json → ValidateOutcome) :
  heap w !! entity = Some e →
  JsonEntity.class e = IsJsonObj →
  validationDisabled X = false →
  JsonEntity.schemaId e = Some schemaId → schemaId ≠ "" →
  resolveSchema schemaId w = Some schema →
  compileAsync X (loadSchema X w) (JsonEntity.content schema)
  = Compiled validate →
  let result := heap (validateEntity X entity w) !! entity in
  let refErrs := refErrors (registry w) (JsonEntity.gtsRefs e) in
  (validate (JsonEntity.content e) = Valid
   ∨ validate (JsonEntity.content e) = Invalid None →
   result = Some (JsonEntity.set_validation (Some {| errors := refErrs |}) e))
  ∧ (∀ errs,
       validate (JsonEntity.content e) = Invalid (Some errs) →
       result
       = Some (JsonEntity.set_validation
                 (Some {| errors := refErrs ++ formatValidationErrors X errs |})
                 e))
  ∧ (∀ error,
       validate (JsonEntity.content e) = ValidateThrows error →
       result
       = Some (JsonEntity.set_validation
                 (Some {| errors :=
                            refErrs
                            ++ [ValidationError.mk "" "#" "validation"
                                  ("Validation error: "
                                   +:+ failure_message error)
                                  [("error", JStr (failure_message error))]
                                  None] |})
                 e)).
Proof.
  intros He Hc Hv Hs Hne Hres Hcomp. cbv zeta.
  rewrite (validateEntity_entity _ _ _ He).
  unfold validated, schemaPhaseErrors, objectErrors.
  rewrite Hv, Hc, Hs, (truthy_Some _ Hne), Hres, Hcomp.
  split_and!.
  - by intros [-> | ->]; rewrite app_nil_r.
  - by intros errs ->.
  - by intros error ->.
Qed.

Lemma recordAbsent_again ids (m : JsMap.t JsonEntity.t) :
  recordAbsent X ids (recordAbsent X ids m) = recordAbsent X ids m.
Proof.
  assert (∀ ids' m',
            (∀ k, k ∈ ids' → JsMap.get k m' = Some (createAbsentEntity X k)) →
            recordAbsent X ids' m' = m') as Hfix.
  { intros ids'. induction ids' as [|k ids' IH]; intros m' Hm'; [done|].
    unfold recordAbsent in *. cbn [foldl].
    rewrite set_same by (apply Hm'; left).
    apply IH. intros k' Hk'. apply Hm'. by right. }
  apply (Hfix ids). intros k Hk. rewrite get_recordAbsent. by rewrite decide_True.
Qed.

(** X16: [validateEntity] starts from a fresh result: validating an
    entity a second time leaves the world as the first time did.  Errors
    do not pile up and the placeholders stay where they are. *)
Theorem validateEntity_idempotent (entity : EntRef) (w : World) :
  validateEntity X entity (validateEntity X entity w)
  = validateEntity X entity w.
Proof.
  destruct (heap w !! entity) as [e|] eqn:He;
    [|by rewrite !(validateEntity_dangling X entity w He)].
  pose proof (validateEntity_entity entity w e He) as He1.
  pose proof (validateEntity_partly X w [] w entity (partly_validated_start X w))
    as Hpart.
  cbn [app] in Hpart.
  set (w1 := validateEntity X entity w) in *.
  rewrite (validateEntity_closed X entity w1 _ He1).
  assert (∀ i, refExists i (registry w1) = refExists i (registry w)) as Hex.
  { intros i. apply same_indices_refExists, validateEntity_registry. }
  assert (∀ i, schemaContent w1 i = schemaContent w i) as Hsc.
  { intros i. by eapply partly_validated_schemaContent. }
  rewrite (validated_validated X w1 w e Hex Hsc).
  rewrite (missingIds_ext (registry w1) (registry w)) by done.
  unfold w1.
  rewrite (validateEntity_closed X entity w e He).
  cbn [heap registry absentGtsEntities with_absentGtsEntities jsonObjs
       jsonSchemas jsonFiles invalidFiles jsonFileObjs jsonFileSchemas
       fetchCache defaultFilePath].
  f_equal.
  - apply list_insert_insert_eq.
  - unfold with_absentGtsEntities. cbn. f_equal. apply recordAbsent_again.
Qed.

(** X17: a full pass gives every entity of the two indices the result
    that validating it alone, in the world the pass starts from, gives
    it: the result of an entity does not depend on the entities validated
    before it.  Entity objects that are in no index are left as they
    are. *)
Theorem pass_validates_each_entity_on_its_own (w : World) (ref : EntRef) :
  (ref ∈ indexedRefs w →
   heap (validateEntities X w) !! ref = heap (validateEntity X ref w) !! ref)
  ∧ (ref ∉ indexedRefs w → heap (validateEntities X w) !! ref = heap w !! ref).
Proof.
  destruct (validateEntities_closed X w) as (_ & Hheap & _).
  split; intros Href; rewrite Hheap.
  - rewrite decide_True by done.
    destruct (heap w !! ref) as [e|] eqn:He.
    + by rewrite (validateEntity_entity ref w e He).
    + by rewrite (validateEntity_dangling X ref w He), He.
  - by rewrite decide_False.
Qed.

Lemma elem_of_missingIds r refs k :
  k ∈ missingIds r refs ↔
  ∃ ref, ref ∈ refs ∧ GtsRef.id ref = k
         ∧ isInExamples (GtsRef.sourcePath ref) = false
         ∧ refExists k r = false.
Proof.
  unfold missingIds. rewrite list_elem_of_fmap. split.
  - intros (ref & -> & [Hrep Hin]%list_elem_of_filter). exists ref.
    unfold reported in Hrep.
    apply Is_true_true, andb_true_iff in Hrep as [H1 H2].
    by rewrite negb_true_iff in H1, H2.
  - intros (ref & Hin & <- & H1 & H2). exists ref. split; [done|].
    apply list_elem_of_filter. split; [|done].
    unfold reported. by rewrite H1, H2.
Qed.

(** X18: the placeholders after a full pass are those from before and
    one for every identifier that some entity of the indices refers to
    outside the examples regions while neither index has it. *)
Theorem placeholders_after_a_pass (w : World) (k : string) :
  JsMap.has k (absentGtsEntities (registry (validateEntities X w))) = true
  ↔ JsMap.has k (absentGtsEntities (registry w)) = true
    ∨ ∃ entity e ref,
        entity ∈ indexedRefs w ∧ heap w !! entity = Some e
        ∧ ref ∈ JsonEntity.gtsRefs e ∧ GtsRef.id ref = k
        ∧ isInExamples (GtsRef.sourcePath ref) = false
        ∧ JsMap.has k (jsonSchemas (registry w)) = false
        ∧ JsMap.has k (jsonObjs (registry w)) = false.
Proof.
  destruct (validateEntities_closed X w) as (_ & _ & Habs).
  unfold JsMap.has at 1. rewrite Habs.
  destruct (decide (k ∈ missingOf w (indexedRefs w))) as [Hin|Hin].
  - split; [|done]. intros _. right.
    apply elem_of_missingOf in Hin as (entity & e & Hent & He & Hk).
    apply elem_of_missingIds in Hk as (ref & Href & Hid & Hex & Hno).
    apply orb_false_iff in Hno as [??]. by exists entity, e, ref.
  - split.
    + intros Hk. by left.
    + intros [Hk | (entity & e & ref & Hent & He & Href & Hid & Hex & H1 & H2)];
        [done|].
      exfalso. apply Hin, elem_of_missingOf. exists entity, e.
      split_and!; [done..|]. apply elem_of_missingIds. exists ref.
      split_and!; [done..|]. unfold refExists. by rewrite H1, H2.
Qed.

End Outcome.

(** ** Schema errors without details *)

Lemma upto_last_word_prefix (s t : string) :
  upto_last_word s = Some t → t ≠ "" ∧ ∃ t', s = t +:+ t'.
Proof.
  revert t. induction s as [|c s IH]; intros t; cbn [upto_last_word]; [done|].
  destruct (upto_last_word s) as [u|].
  - intros [= <-]. split; [done|].
    destruct (IH u eq_refl) as [_ [t' ->]]. by exists t'.
  - destruct (is_word c); [|done]. intros [= <-]. split; [done|]. by exists s.
Qed.

Lemma data_path_here_match (s p : string) :
  data_path_here s = Some p →
  ∃ t after, t ≠ "" ∧ p = "/" +:+ t ∧ s = "data/" +:+ t +:+ after.
Proof.
  unfold data_path_here.
  destruct (strip_prefix "data/" s) as [r|] eqn:Hr; [|done].
  apply strip_prefix_Some in Hr as ->.
  destruct (span is_data_path_char r) as [run rest] eqn:Hspan.
  apply span_app in Hspan as ->. cbn [fst].
  destruct (upto_last_word run) as [t|] eqn:Ht; [|done].
  apply upto_last_word_prefix in Ht as [Hne [t' ->]].
  intros [= <-]. exists t, (t' +:+ rest). split_and!; [done..|].
  by rewrite append_assoc.
Qed.

Lemma match_data_path_match (s p : string) :
  match_data_path s = Some p →
  ∃ before t after,
    t ≠ "" ∧ p = "/" +:+ t ∧ s = before +:+ "data/" +:+ t +:+ after.
Proof.
  induction s as [|c s IH]; cbn [match_data_path].
  - destruct (data_path_here "") eqn:H; [|done]. intros [= <-].
    apply data_path_here_match in H as (t & after & ? & ? & ?).
    by exists "", t, after.
  - destruct (data_path_here (String c s)) eqn:H.
    + intros [= <-].
      apply data_path_here_match in H as (t & after & ? & ? & ?).
      by exists "", t, after.
    + intros (before & t & after & ? & ? & ->)%IH.
      by exists (String c before), t, after.
Qed.

Section Fallback.
Context (X : Collaborators).

(** X13: a schema whose compilation throws without a list of errors gets
    one error of keyword [schema].  Its message is [Invalid JSON Schema: ]
    followed by the message of the failure, or by [Unknown schema error]
    when that message is empty.  Its instance path is empty, or it is a
    slash path [/t] read off the message, where [data/t] occurs; it is
    empty whenever [data/] does not occur in the message. *)
Theorem schema_error_without_details (error : AjvFailure) :
  failure_errors error = None ∨ failure_errors error = Some [] →
  let msg :=
    if decide (failure_message error = "") then "Unknown schema error"
    else failure_message error in
  ∃ instancePath,
    schemaCompileErrors X error
    = [ValidationError.mk instancePath "#" "schema"
         ("Invalid JSON Schema: " +:+ msg) [("error", JStr msg)] None]
    ∧ (instancePath = ""
       ∨ ∃ before t after,
           t ≠ "" ∧ instancePath = "/" +:+ t
           ∧ msg = before +:+ "data/" +:+ t +:+ after)
    ∧ (occurs "data/" msg = false → instancePath = "").
Proof.
  intros Herr. cbv zeta.
  set (msg := if decide (failure_message error = "")
              then "Unknown schema error" else failure_message error).
  assert (default "Unknown schema error"
            (truthy (Some (failure_message error))) = msg) as Hmsg.
  { unfold msg. cbn. by destruct (decide (failure_message error = "")). }
  exists (default "" (match_data_path msg)). split_and!.
  - unfold schemaCompileErrors. rewrite Hmsg. by destruct Herr as [-> | ->].
  - destruct (match_data_path msg) as [p|] eqn:Hp; [|by left].
    right. by apply match_data_path_match in Hp.
  - intros Hocc. destruct (match_data_path msg) as [p|] eqn:Hp; [|done].
    apply match_data_path_match in Hp as (before & t & after & _ & _ & Hm).
    rewrite Hm in Hocc.
    by rewrite (occurs_app "data/" before (t +:+ after)) in Hocc.
Qed.

End Fallback.

(** ** Formatted errors *)

Section Format.
Context (X : Collaborators).

(** X20: [formatValidationErrors] gives one error for each error of the
    validator, in the same order, with the same keyword, parameters and
    data.  An empty instance path becomes [/] and an empty schema path
    becomes [#]; others are kept.  So no formatted error has an empty
    path. *)
Theorem formatted_errors_keep_their_place (ajvErrors : list ErrorObject.t) :
  length (formatValidationErrors X ajvErrors) = length ajvErrors
  ∧ ∀ i err, ajvErrors !! i = Some err →
      ∃ v, formatValidationErrors X ajvErrors !! i = Some v
           ∧ ValidationError.keyword v = ErrorObject.keyword err
           ∧ ValidationError.params v = ErrorObject.params err
           ∧ ValidationError.data v = ErrorObject.data err
           ∧ ValidationError.instancePath v
             = (if decide (ErrorObject.instancePath err = "") then "/"
                else ErrorObject.instancePath err)
           ∧ ValidationError.schemaPath v
             = (if decide (ErrorObject.schemaPath err = "") then "#"
                else ErrorObject.schemaPath err)
           ∧ ValidationError.instancePath v ≠ ""
           ∧ ValidationError.schemaPath v ≠ "".
Proof.
  unfold formatValidationErrors. split; [by rewrite length_fmap|].
  intros i err Hi. exists (formatValidationError X err).
  rewrite list_lookup_fmap, Hi. unfold formatValidationError.
  cbn [ValidationError.keyword ValidationError.params ValidationError.data
       ValidationError.instancePath ValidationError.schemaPath fmap
       option_fmap option_map].
  rewrite !default_truthy_Some.
  split_and!; try done; by case_decide.
Qed.

Lemma detailedMessage_length_keyword (err : ErrorObject.t) :
  ErrorObject.keyword err = "minLength" ∨ ErrorObject.keyword err = "maxLength" →
  detailedMessage X err = default "undefined" (ErrorObject.message err).
Proof.
  unfold detailedMessage. by intros [-> | ->].
Qed.

Lemma detailedMessage_other_keyword (err : ErrorObject.t) :
  ErrorObject.keyword err ≠ "minLength" →
  ErrorObject.keyword err ≠ "maxLength" →
  detailedMessage X err ≠ "".
Proof.
  intros H1 H2. unfold detailedMessage.
  rewrite (bool_decide_eq_false_2 _ H1), (bool_decide_eq_false_2 _ H2).
  cbn [orb].
  repeat case_match;
    try (apply append_nonempty; done);
    by apply default_truthy_nonempty.
Qed.

(** X21: the message of a formatted error is empty in one case only: the
    keyword is [minLength] or [maxLength] and the validator's own message
    is the empty string.  For these two keywords the message is the
    validator's, as a template literal gives it; every other keyword has a
    message of its own or falls back to [Validation failed]. *)
Theorem formatted_message_empty (err : ErrorObject.t) :
  ValidationError.message (formatValidationError X err) = "" ↔
  (ErrorObject.keyword err = "minLength"
   ∨ ErrorObject.keyword err = "maxLength")
  ∧ ErrorObject.message err = Some "".
Proof.
  cbn [formatValidationError ValidationError.message]. split.
  - intros Hm.
    destruct (decide (ErrorObject.keyword err = "minLength")) as [Hmin|Hmin];
      [|destruct (decide (ErrorObject.keyword err = "maxLength"))
          as [Hmax|Hmax]].
    + rewrite detailedMessage_length_keyword in Hm by auto.
      split; [auto|]. by destruct (ErrorObject.message err) as [m|]; simplify_eq/=.
    + rewrite detailedMessage_length_keyword in Hm by auto.
      split; [auto|]. by destruct (ErrorObject.message err) as [m|]; simplify_eq/=.
    + by apply detailedMessage_other_keyword in Hm.
  - intros [Hk Hm]. rewrite detailedMessage_length_keyword by done.
    by rewrite Hm.
Qed.

End Format.

(** ** Every world the registry gets to *)

Section Reachable.
Context (X : Collaborators).

(** X22: in every world a new registry gets to by its public methods,
    [jsonSchemas] holds [JsonSchema] objects only and [jsonObjs] holds none:
    the typing of the two indices that the order of validation rests on. *)
Theorem reachable_indices_are_typed (w : World) :
  reachable X w → typed_indices w.
Proof.
  intros (((Hns & Hno & _) & [Hks Hko] & _) & _)%reachable_invariant.
  split; intros ref Href.
  - apply values_get in Href as [k Hk]; [|done].
    destruct (Hks _ _ Hk) as (e & ? & ? & ?). eauto.
  - apply values_get in Href as [k Hk]; [|done].
    destruct (Hko _ _ Hk) as (e & ? & ? & ?). eauto.
Qed.

(** X23: in every such world, the key of an entry of [jsonSchemas] or
    [jsonObjs] is the id of the entity object stored under it. *)
Theorem reachable_indices_are_keyed_by_id (w : World) (k : string)
    (ref : EntRef) :
  reachable X w →
  JsMap.get k (jsonSchemas (registry w)) = Some ref
  ∨ JsMap.get k (jsonObjs (registry w)) = Some ref →
  ∃ e, heap w !! ref = Some e ∧ JsonEntity.id e = k.
Proof.
  intros ((_ & [Hks Hko] & _) & _)%reachable_invariant [Hk | Hk].
  - destruct (Hks _ _ Hk) as (e & ? & ? & ?). eauto.
  - destruct (Hko _ _ Hk) as (e & ? & ? & ?). eauto.
Qed.

(** X24: in every such world, a file record is filed under its own path;
    [jsonFiles] holds documents without parse errors and [invalidFiles]
    documents with parse errors; and no path is in both maps. *)
Theorem reachable_files_are_filed_by_path (w : World) (p : string) :
  reachable X w →
  (∀ f, JsMap.get p (jsonFiles (registry w)) = Some f →
        JsonFile.path f = p ∧ hasParseErrors f = false)
  ∧ (∀ f, JsMap.get p (invalidFiles (registry w)) = Some f →
          JsonFile.path f = p ∧ hasParseErrors f = true)
  ∧ (JsMap.has p (jsonFiles (registry w)) = true →
     JsMap.has p (invalidFiles (registry w)) = false).
Proof.
  intros ((_ & _ & (Hf1 & Hf2 & Hf3) & _) & _)%reachable_invariant.
  split_and!; [apply Hf1|apply Hf2|apply Hf3].
Qed.

(** X25: in every such world, a path is tracked in [jsonFiles] exactly
    when at least one entity is listed under it in [jsonFileObjs] or
    [jsonFileSchemas]. *)
Theorem reachable_tracked_files_own_entities (w : World) (p : string) :
  reachable X w →
  JsMap.has p (jsonFiles (registry w)) = true
  ↔ default [] (JsMap.get p (jsonFileObjs (registry w)))
    ++ default [] (JsMap.get p (jsonFileSchemas (registry w))) ≠ [].
Proof.
  intros ((_ & _ & _ & Htr & _) & _)%reachable_invariant. apply Htr.
Qed.

(** X26: in every such world, every entity of [jsonSchemas] and of
    [jsonObjs] is listed, in the ownership list of its class, under a path
    that [jsonFiles] tracks: the indices hold no entity without a file. *)
Theorem reachable_entities_belong_to_tracked_files (w : World) (k : string)
    (ref : EntRef) :
  reachable X w →
  (JsMap.get k (jsonSchemas (registry w)) = Some ref →
   ∃ p, JsMap.has p (jsonFiles (registry w)) = true
        ∧ ref ∈ default [] (JsMap.get p (jsonFileSchemas (registry w))))
  ∧ (JsMap.get k (jsonObjs (registry w)) = Some ref →
     ∃ p, JsMap.has p (jsonFiles (registry w)) = true
          ∧ ref ∈ default [] (JsMap.get p (jsonFileObjs (registry w)))).
Proof.
  intros ((_ & _ & _ & Htr & [Hos Hoo]) & _)%reachable_invariant.
  split; intros Hk.
  - destruct (Hos _ _ Hk) as [p Hp]. exists p. split; [|done].
    apply Htr. unfold ownedBy. intros [_ Hnil]%app_eq_nil.
    rewrite Hnil in Hp. by apply elem_of_nil in Hp.
  - destruct (Hoo _ _ Hk) as [p Hp]. exists p. split; [|done].
    apply Htr. unfold ownedBy. intros [Hnil _]%app_eq_nil.
    rewrite Hnil in Hp. by apply elem_of_nil in Hp.
Qed.

(** X27: in every such world, every entity of the two indices holds a
    result of validation: an entity gets into an index by [ingestFiles]
    only, which ends with a validation pass. *)
Theorem reachable_entities_are_validated (w : World) (k : string)
    (ref : EntRef) :
  reachable X w →
  JsMap.get k (jsonSchemas (registry w)) = Some ref
  ∨ JsMap.get k (jsonObjs (registry w)) = Some ref →
  ∃ e result,
    heap w !! ref = Some e ∧ JsonEntity.validation e = Some result.
Proof.
  intros ((_ & [Hks Hko] & _) & _ & Hv)%reachable_invariant Hk.
  assert (∃ e, heap w !! ref = Some e) as [e He].
  { destruct Hk as [Hk | Hk];
      [destruct (Hks _ _ Hk) as (e & ? & _)
      |destruct (Hko _ _ Hk) as (e & ? & _)]; eauto. }
  specialize (Hv k ref e Hk He).
  destruct (JsonEntity.validation e) as [result|] eqn:Hr; [|done].
  by exists e, result.
Qed.


(** X28: the default file.  After [setDefaultFile] with no path, the
    default file is the first file of [jsonFiles] in insertion order (when
    its path is not empty), and nothing when no file is tracked.  And
    whenever [getDefaultFile] gives a file, [getDefaultFilePath] gives the
    path of that file. *)
Theorem default_file_falls_back_to_the_first_file (w : World) :
  reachable X w →
  let r := setDefaultFile None (registry w) in
  (∀ f, JsMap.first_value (jsonFiles (registry w)) = Some f →
        JsonFile.path f ≠ "" →
        getDefaultFilePath r = Some (JsonFile.path f)
        ∧ getDefaultFile r = Some f)
  ∧ (jsonFiles (registry w) = [] →
     getDefaultFilePath r = None ∧ getDefaultFile r = None)
  ∧ (∀ f, getDefaultFile (registry w) = Some f →
          getDefaultFilePath (registry w) = Some (JsonFile.path f)).
Proof.
  intros ((_ & _ & (Hf1 & _) & _) & _)%reachable_invariant. cbv zeta.
  unfold getDefaultFilePath, getDefaultFile, setDefaultFile.
  cbn [truthy defaultFilePath with_defaultFilePath jsonFiles].
  split_and!.
  - intros f Hf Hne. rewrite Hf. cbn [fmap option_fmap option_map].
    rewrite !(truthy_Some _ Hne). split; [done|].
    destruct (jsonFiles (registry w)) as [|[k f'] m] eqn:Hm; [done|].
    cbn in Hf. injection Hf as ->.
    destruct (Hf1 k f) as [Hp _]; [cbn; by rewrite decide_True|].
    rewrite Hp. cbn. by rewrite decide_True.
  - by intros ->.
  - intros f. destruct (truthy (defaultFilePath (registry w))) as [p|];
      [|done].
    intros Hf. by destruct (Hf1 p f Hf) as [-> _].
Qed.

End Reachable.

(** * The node model: dirtiness *)

Section NodeModel.
Import SchemaNodeModel.
Context {Number : Type} (strictEq : Number → Number → bool).

Lemma existsb_sectionDiffers_false (m : t (Number:=Number)) keys :
  existsb (sectionDiffers m) keys = false ↔
  ∀ key, key ∈ keys →
         JsMap.get key (sections m) = JsMap.get key (origSections m).
Proof.
  induction keys as [|k keys IH]; cbn [existsb].
  - split; [|done]. by intros _ key ?%elem_of_nil.
  - rewrite orb_false_iff, IH. unfold sectionDiffers.
    rewrite negb_false_iff, bool_decide_eq_true. split.
    + intros [Hk Hrest] key [-> | Hin]%elem_of_cons; auto.
    + intros H. split; [apply H; left|]. intros key Hin. apply H. by right.
Qed.

Lemma eqb_false_ne (a b : bool) : negb (Bool.eqb a b) = false ↔ a = b.
Proof. destruct a, b; cbn; naive_solver. Qed.

(** X29: [isDirty] answers no exactly when the node is as its baseline:
    the three flags are those of the baseline, the two coordinates are
    strictly equal to the baseline's, and the two section maps give the
    same answer for every key.  (The count of keys and the two loops over
    the keys decide together that the maps are the same.) *)
Theorem isDirty_compares_with_the_baseline (m : t (Number:=Number)) :
  NoDup (JsMap.keys (sections m)) →
  NoDup (JsMap.keys (origSections m)) →
  isDirty strictEq m = false ↔
  rawView m = origRawView m
  ∧ showExamples m = origShowExamples m
  ∧ strictEq (x (position m)) (x (origPosition m)) = true
  ∧ strictEq (y (position m)) (y (origPosition m)) = true
  ∧ expanded m = origExpanded m
  ∧ ∀ key, JsMap.get key (sections m) = JsMap.get key (origSections m).
Proof.
  intros Hnd Hndo. unfold isDirty.
  destruct (negb (Bool.eqb (rawView m) (origRawView m))) eqn:H1;
    [split; [done|]; intros (?%eqb_false_ne & _); congruence|].
  destruct (negb (Bool.eqb (showExamples m) (origShowExamples m))) eqn:H2;
    [split; [done|]; intros (_ & ?%eqb_false_ne & _); congruence|].
  destruct (strictEq (x (position m)) (x (origPosition m))) eqn:Hx;
    [|split; [done|]; by intros (_ & _ & ? & _)].
  destruct (strictEq (y (position m)) (y (origPosition m))) eqn:Hy;
    [|split; [done|]; by intros (_ & _ & _ & ? & _)].
  cbn [negb orb].
  destruct (negb (Bool.eqb (expanded m) (origExpanded m))) eqn:H3;
    [split; [done|]; intros (_ & _ & _ & _ & ?%eqb_false_ne & _); congruence|].
  apply -> eqb_false_ne in H1. apply -> eqb_false_ne in H2.
  apply -> eqb_false_ne in H3. cbv zeta.
  destruct (length (JsMap.keys (sections m))
            =? length (JsMap.keys (origSections m))) eqn:Hlen; cbn [negb].
  - destruct (existsb (sectionDiffers m) (JsMap.keys (sections m))) eqn:Hs.
    + split; [done|]. intros (_ & _ & _ & _ & _ & Hall).
      apply not_false_iff_true in Hs. exfalso. apply Hs.
      apply existsb_sectionDiffers_false. auto.
    + destruct (existsb (sectionDiffers m) (JsMap.keys (origSections m)))
        eqn:Ho.
      * split; [done|]. intros (_ & _ & _ & _ & _ & Hall).
        apply not_false_iff_true in Ho. exfalso. apply Ho.
        apply existsb_sectionDiffers_false. auto.
      * split; [intros _|done]. split_and!; try done.
        intros key.
        destruct (decide (key ∈ JsMap.keys (sections m))) as [Hin|Hnin].
        { by apply (proj1 (existsb_sectionDiffers_false m _) Hs). }
        destruct (decide (key ∈ JsMap.keys (origSections m))) as [Hin'|Hnin'].
        { by apply (proj1 (existsb_sectionDiffers_false m _) Ho). }
        apply get_None_keys in Hnin, Hnin'. congruence.
  - split; [done|]. intros (_ & _ & _ & _ & _ & Hall).
    apply Nat.eqb_neq in Hlen. exfalso. apply Hlen.
    by apply same_lookups_same_size.
Qed.

(** X30: right after [resetDirtyBaseline], and right after [initLayout],
    the node is not dirty, provided each coordinate is strictly equal to
    itself; with a coordinate that is not (a NaN), the node is dirty even
    then. *)
Theorem a_new_baseline_is_clean (m : t (Number:=Number)) (p : Position)
    (e r : bool) (s : JsMap.t bool) (se : option bool) :
  (isDirty strictEq (resetDirtyBaseline m) = false
   ↔ strictEq (x (position m)) (x (position m)) = true
     ∧ strictEq (y (position m)) (y (position m)) = true)
  ∧ (isDirty strictEq (initLayout p e r s se m) = false
     ↔ strictEq (x p) (x p) = true ∧ strictEq (y p) (y p) = true).
Proof.
  assert (∀ m' : t (Number:=Number),
            origRawView m' = rawView m' →
            origShowExamples m' = showExamples m' →
            origExpanded m' = expanded m' →
            origSections m' = sections m' →
            isDirty strictEq m' = false
            ↔ strictEq (x (position m')) (x (origPosition m')) = true
              ∧ strictEq (y (position m')) (y (origPosition m')) = true)
    as Hclean.
  { intros m' H1 H2 H3 H4. unfold isDirty.
    rewrite H1, H2, H3, H4, !Bool.eqb_reflx, Nat.eqb_refl. cbn [negb].
    assert (existsb (sectionDiffers m') (JsMap.keys (sections m')) = false)
      as ->.
    { apply existsb_sectionDiffers_false. intros key _. by rewrite H4. }
    destruct (strictEq (x (position m')) (x (origPosition m')));
      destruct (strictEq (y (position m')) (y (origPosition m')));
      cbn; naive_solver. }
  split.
  - by rewrite (Hclean (resetDirtyBaseline m)).
  - by rewrite (Hclean (initLayout p e r s se m)).
Qed.

End NodeModel.

Lemma isDirty_compares_with_the_baseline_witness :
  let m :=
    SchemaNodeModel.updatePosition (SchemaNodeModel.mkPosition 3 4)%Z
      (SchemaNodeModel.initLayout (SchemaNodeModel.mkPosition 1 2)%Z true false
         [("properties", true)] None
         (SchemaNodeModel.mk (SchemaNodeModel.mkPosition 0 0)%Z true false
            false [] false true false false
            (SchemaNodeModel.mkPosition 0 0)%Z [])) in
  SchemaNodeModel.isDirty Z.eqb m = false ↔
  SchemaNodeModel.rawView m = SchemaNodeModel.origRawView m
  ∧ SchemaNodeModel.showExamples m = SchemaNodeModel.origShowExamples m
  ∧ (SchemaNodeModel.x (SchemaNodeModel.position m)
     =? SchemaNodeModel.x (SchemaNodeModel.origPosition m))%Z = true
  ∧ (SchemaNodeModel.y (SchemaNodeModel.position m)
     =? SchemaNodeModel.y (SchemaNodeModel.origPosition m))%Z = true
  ∧ SchemaNodeModel.expanded m = SchemaNodeModel.origExpanded m
  ∧ ∀ key, JsMap.get key (SchemaNodeModel.sections m)
           = JsMap.get key (SchemaNodeModel.origSections m).
Proof.
  cbv zeta. apply isDirty_compares_with_the_baseline;
    cbn; apply NoDup_singleton.
Defined.

(** * The further properties at work on the samples *)

Lemma reference_errors_only_witness :
  heap (validateEntity Sample.X 0 sampleWorldA) !! 0
  = Some (JsonEntity.set_validation
            (Some {| errors :=
                       refErrors (registry sampleWorldA)
                         (JsonEntity.gtsRefs sampleEntityX) |})
            sampleEntityX).
Proof.
  apply (reference_errors_only Sample.X 0 sampleWorldA sampleEntityX);
    [done|].
  right; right. split; [done|]. by left.
Defined.

Lemma schema_validity_witness :
  let result := heap (validateEntity Sample.X 0 Sample.worldC) !! 0 in
  let refErrs :=
    refErrors (registry Sample.worldC) (JsonEntity.gtsRefs sampleSchemaS1) in
  (∀ validate,
     compileAsync Sample.X (loadSchema Sample.X Sample.worldC)
       (JsonEntity.content sampleSchemaS1)
     = Compiled validate →
     result
     = Some (JsonEntity.set_validation (Some {| errors := refErrs |})
               sampleSchemaS1))
  ∧ (∀ error,
       compileAsync Sample.X (loadSchema Sample.X Sample.worldC)
         (JsonEntity.content sampleSchemaS1)
       = CompileThrows error →
       ∃ errs,
         errs ≠ []
         ∧ result
           = Some (JsonEntity.set_validation
                     (Some {| errors := refErrs ++ errs |}) sampleSchemaS1)
         ∧ ∀ v, v ∈ errs →
             ValidationError.keyword v ≠ ""
             ∧ ValidationError.message v ≠ ""
             ∧ ValidationError.schemaPath v ≠ "").
Proof. by apply (schema_validity Sample.X 0 Sample.worldC sampleSchemaS1). Defined.

Lemma schema_error_without_details_witness :
  let error :=
    {| failure_errors := None;
       failure_message := "strict mode: data/properties/x. is bad" |} in
  let msg :=
    if decide (failure_message error = "") then "Unknown schema error"
    else failure_message error in
  ∃ instancePath,
    schemaCompileErrors Sample.X error
    = [ValidationError.mk instancePath "#" "schema"
         ("Invalid JSON Schema: " +:+ msg) [("error", JStr msg)] None]
    ∧ (instancePath = ""
       ∨ ∃ before t after,
           t ≠ "" ∧ instancePath = "/" +:+ t
           ∧ msg = before +:+ "data/" +:+ t +:+ after)
    ∧ (occurs "data/" msg = false → instancePath = "").
Proof.
  apply (schema_error_without_details Sample.X
           {| failure_errors := None;
              failure_message := "strict mode: data/properties/x. is bad" |}).
  by left.
Defined.

Lemma object_schema_not_found_witness :
  let idField :=
    default
      (default "id" (truthy (JsonEntity.selectedEntityIdField sampleEntityQ)))
      (truthy (JsonEntity.selectedSchemaIdField sampleEntityQ)) in
  heap (validateEntity Sample.X 0 sampleWorldQ) !! 0
  = Some (JsonEntity.set_validation
            (Some {| errors :=
                       refErrors (registry sampleWorldQ)
                         (JsonEntity.gtsRefs sampleEntityQ)
                       ++ [ValidationError.mk ("/" +:+ idField) "#" "schema"
                             ("Schema not found: " +:+ "S1")
                             [("schemaId", JStr "S1")] None] |})
            sampleEntityQ).
Proof.
  by apply (object_schema_not_found Sample.X 0 sampleWorldQ sampleEntityQ
              "S1").
Defined.

Lemma object_validated_against_its_schema_witness :
  let validate := λ _ : Json, Valid in
  let result := heap (validateEntity Sample.X 1 Sample.worldC) !! 1 in
  let refErrs :=
    refErrors (registry Sample.worldC) (JsonEntity.gtsRefs Sample.entityO1) in
  (validate (JsonEntity.content Sample.entityO1) = Valid
   ∨ validate (JsonEntity.content Sample.entityO1) = Invalid None →
   result
   = Some (JsonEntity.set_validation (Some {| errors := refErrs |})
             Sample.entityO1))
  ∧ (∀ errs,
       validate (JsonEntity.content Sample.entityO1) = Invalid (Some errs) →
       result
       = Some (JsonEntity.set_validation
                 (Some {| errors :=
                            refErrs ++ formatValidationErrors Sample.X errs |})
                 Sample.entityO1))
  ∧ (∀ error,
       validate (JsonEntity.content Sample.entityO1) = ValidateThrows error →
       result
       = Some (JsonEntity.set_validation
                 (Some {| errors :=
                            refErrs
                            ++ [ValidationError.mk "" "#" "validation"
                                  ("Validation error: "
                                   +:+ failure_message error)
                                  [("error", JStr (failure_message error))]
                                  None] |})
                 Sample.entityO1)).
Proof.
  by apply (object_validated_against_its_schema Sample.X 1 Sample.worldC
              Sample.entityO1 sampleSchemaS1 "S1" (λ _, Valid)).
Defined.

Lemma sampleWorld_reachable : reachable Sample.X sampleWorld.
Proof. by exists sampleSession. Defined.


Lemma reachable_indices_are_typed_witness : typed_indices sampleWorld.
Proof.
  apply (reachable_indices_are_typed Sample.X), sampleWorld_reachable.
Defined.

Lemma reachable_indices_are_keyed_by_id_witness :
  ∃ e, heap sampleWorld !! 3 = Some e ∧ JsonEntity.id e = "O1".
Proof.
  apply (reachable_indices_are_keyed_by_id Sample.X sampleWorld "O1" 3
           sampleWorld_reachable).
  by right.
Defined.

Lemma reachable_files_are_filed_by_path_witness :
  (∀ f, JsMap.get "c.json" (jsonFiles (registry sampleWorld)) = Some f →
        JsonFile.path f = "c.json" ∧ hasParseErrors f = false)
  ∧ (∀ f, JsMap.get "c.json" (invalidFiles (registry sampleWorld)) = Some f →
          JsonFile.path f = "c.json" ∧ hasParseErrors f = true)
  ∧ (JsMap.has "c.json" (jsonFiles (registry sampleWorld)) = true →
     JsMap.has "c.json" (invalidFiles (registry sampleWorld)) = false).
Proof.
  apply (reachable_files_are_filed_by_path Sample.X sampleWorld "c.json"
           sampleWorld_reachable).
Defined.

Lemma reachable_tracked_files_own_entities_witness :
  JsMap.has "b.json" (jsonFiles (registry sampleWorld)) = true
  ↔ default [] (JsMap.get "b.json" (jsonFileObjs (registry sampleWorld)))
    ++ default [] (JsMap.get "b.json" (jsonFileSchemas (registry sampleWorld)))
    ≠ [].
Proof.
  apply (reachable_tracked_files_own_entities Sample.X sampleWorld "b.json"
           sampleWorld_reachable).
Defined.

Lemma reachable_entities_belong_to_tracked_files_witness :
  (JsMap.get "O1" (jsonSchemas (registry sampleWorld)) = Some 3 →
   ∃ p, JsMap.has p (jsonFiles (registry sampleWorld)) = true
        ∧ 3 ∈ default [] (JsMap.get p (jsonFileSchemas (registry sampleWorld))))
  ∧ (JsMap.get "O1" (jsonObjs (registry sampleWorld)) = Some 3 →
     ∃ p, JsMap.has p (jsonFiles (registry sampleWorld)) = true
          ∧ 3 ∈ default [] (JsMap.get p (jsonFileObjs (registry sampleWorld)))).
Proof.
  apply (reachable_entities_belong_to_tracked_files Sample.X sampleWorld "O1"
           3 sampleWorld_reachable).
Defined.

Lemma reachable_entities_are_validated_witness :
  ∃ e result,
    heap sampleWorld !! 3 = Some e ∧ JsonEntity.validation e = Some result.
Proof.
  apply (reachable_entities_are_validated Sample.X sampleWorld "O1" 3
           sampleWorld_reachable).
  by right.
Defined.

Lemma default_file_falls_back_to_the_first_file_witness :
  let r := setDefaultFile None (registry sampleWorld) in
  (∀ f, JsMap.first_value (jsonFiles (registry sampleWorld)) = Some f →
        JsonFile.path f ≠ "" →
        getDefaultFilePath r = Some (JsonFile.path f)
        ∧ getDefaultFile r = Some f)
  ∧ (jsonFiles (registry sampleWorld) = [] →
     getDefaultFilePath r = None ∧ getDefaultFile r = None)
  ∧ (∀ f, getDefaultFile (registry sampleWorld) = Some f →
          getDefaultFilePath (registry sampleWorld)
          = Some (JsonFile.path f)).
Proof.
  apply (default_file_falls_back_to_the_first_file Sample.X sampleWorld
           sampleWorld_reachable).
Defined.

(** The session at a glance: [a.json] is invalidated, and with it the key
    [X] that [b.json] had taken over; [b.json] is still tracked and is the
    first file, so it becomes the default file. *)
Example sampleWorld_at_a_glance :
  JsMap.keys (jsonFiles (registry sampleWorld)) = ["b.json"; "c.json"]
  ∧ JsMap.keys (jsonObjs (registry sampleWorld)) = ["O1"]
  ∧ JsMap.keys (jsonSchemas (registry sampleWorld)) = ["S1"]
  ∧ getDefaultFilePath (setDefaultFile None (registry sampleWorld))
    = Some "b.json"
  ∧ JsMap.keys (absentGtsEntities (registry sampleWorld)) = ["S2"].
Proof. done. Qed.
